(** * Keyframe animation recorder / player of [media.js]

    A shallow embedding of the "modular animation system" of [src/media.js]
    (lines 3578-4095): the [AnimationState] singleton, the recorder
    [recordState], position capture, the player ([startPlayback],
    [animateBubbles], [interpolateBubblePositions]) and persistence
    ([saveAnimation], [loadAnimation]).

    JavaScript numbers are IEEE 754 binary64 values: they are modelled by
    Rocq's primitive [float]s, whose operations are the processor's and whose
    specification is [SpecFloat].  Objects that the program shares or mutates
    (the live "idea" entities, the captured snapshot objects and the snapshot
    arrays) live in an explicit heap addressed by locations, so that aliasing
    and copying are visible.

    Not modelled: the DOM (timeline markers drawn on the slider, the time
    display) and the [logger].  [AnimationState.timelineMarkers], which only
    feeds that display, is kept out of the program state: the operations on
    it are modelled on their own, after the transition system, followed by
    the helpers that keep keyframes up to date and the playlist variables
    of the video player.  Values read from the DOM (the duration selector,
    the timeline slider) and from the clock ([Date.now()]) are inputs of the
    operations; so is, for the loading handler, whose exceptions depend on
    it, the marker list it finds.

    Strings hold the UTF-8 encoding of the text of a JavaScript string. *)

From Stdlib Require Import ZArith Lia List String Ascii Bool Floats.
From stdpp Require Import base list.

Local Open Scope string_scope.
Local Open Scope float_scope.

(** ** JavaScript numbers *)

Module JS.

(** [a >= b] on numbers; like the other comparisons it is false as soon as
      one operand is NaN. *)
Definition ge (a b : float) : bool := (b <=? a).

(** [a === b] between two numbers. *)
Definition strict_eq (a b : float) : bool := (a =? b).

(** [Math.min(a, b)]: NaN if either argument is NaN, and [-0] is smaller
    than [+0]. *)
Definition Math_min (a b : float) : float :=
  if is_nan a || is_nan b then nan
  else if a <? b then a
  else if b <? a then b
  else if get_sign a then a else b.

(** [Number.isFinite]. *)
Definition isFinite (a : float) : bool := is_finite a.

(** A number-or-[null] slot ([inPoint] and [outPoint] start as [null]);
    arithmetic converts [null] to [+0]. *)
Definition nullable := option float.
Definition ToNumber_nullable (v : nullable) : float :=
  match v with Some f => f | None => 0 end.

(** An optional numeric property; reading an absent property gives
    [undefined], which arithmetic converts to NaN. *)
Definition ToNumber_optional (v : option float) : float :=
  match v with Some f => f | None => nan end.

End JS.

(** ** Entities and the heap *)

Definition loc := nat.

(** Scalar values of the descriptive fields of an entity. *)
Inductive scalar :=
| SNum (f : float)
| SStr (s : string)
| SBool (b : bool)
| SNull.

Module Idea.
(** Modelled from the spec: the entity list [ideas] is owned by another
    script; sections 3 and 6 of the specification give the shape of its
    elements: [x], [y] required numbers, [vx], [vy], [radius] optional
    numbers ([None] is an absent property), and further descriptive scalar
    fields such as [title] in [extra]. *)
Record t := mk {
  x : float;
  y : float;
  vx : option float;
  vy : option float;
  radius : option float;
  extra : list (string * scalar)
}.

Definition set_xy (nx ny : float) (o : t) : t :=
  mk nx ny (vx o) (vy o) (radius o) (extra o).
Definition set_v (nvx nvy : float) (o : t) : t :=
  mk (x o) (y o) (Some nvx) (Some nvy) (radius o) (extra o).
Definition set_radius (r : float) (o : t) : t :=
  mk (x o) (y o) (vx o) (vy o) (Some r) (extra o).

(** The object [{}], what a read through a dangling reference would see;
    JavaScript has no dangling references, so no well-formed heap reaches
    it. *)
Definition empty : t := mk nan nan None None None [].
End Idea.

#[global] Instance Idea_inhabited : Inhabited Idea.t := populate Idea.empty.

Module Heap.
(** [objects] holds the entity objects (live ones and snapshot copies),
    [arrays] the snapshot arrays; a location is an index, allocation appends
    and nothing is ever freed. *)
Record t := mk {
  objects : list Idea.t;
  arrays : list (list loc)
}.

Definition empty : t := mk [] [].

Definition read (h : t) (l : loc) : Idea.t := objects h !!! l.
Definition write (h : t) (l : loc) (o : Idea.t) : t :=
  mk (<[l := o]> (objects h)) (arrays h).
Definition alloc (h : t) (o : Idea.t) : t * loc :=
  (mk (objects h ++ [o]) (arrays h), length (objects h)).

Definition read_array (h : t) (a : loc) : list loc := arrays h !!! a.
Definition alloc_array (h : t) (els : list loc) : t * loc :=
  (mk (objects h) (arrays h ++ [els]), length (arrays h)).
End Heap.

(** ** The animation state *)

Module Keyframe.
Record t := mk {
  time : float;
  positions : loc          (* reference to a snapshot array *)
}.
End Keyframe.

(** [AnimationState.data]. *)
Record AnimationData := mkData {
  inPoint : JS.nullable;
  outPoint : JS.nullable;
  keyframes : list Keyframe.t;
  duration : float;
  isRecording : bool;
  isPlaying : bool;
  currentTime : float;
  startTime : float
}.

(** The variables the closure [animate] captures in [animateBubbles]. *)
Record AnimateClosure := mkClosure {
  c_duration : float;
  c_inPoint : JS.nullable;
  c_outPoint : JS.nullable
}.

(** A parsed JSON document. *)
#[warnings="-register-all"]
Inductive json :=
| JNull
| JBool (b : bool)
| JNum (f : float)
| JStr (s : string)
| JArr (els : list json)
| JObj (props : list (string * json)).

(** The object that [loadAnimation] builds; its four other properties
    ([isRecording], [isPlaying], [currentTime], [startTime]) are constants. *)
Record LoadedAnimation := mkLoaded {
  l_inPoint : json;
  l_outPoint : json;
  l_keyframes : json;
  l_duration : json
}.

(** An element of [AnimationState.timelineMarkers].  Its [time] is the
    value that [addTimelineMarker] was given: the recorder passes a number,
    or [AnimationState.data.outPoint], which can be [null]; the loading
    handler passes what it reads in the document, any JSON value or
    [undefined] ([None]). *)
Module Marker.
Record t := mk {
  type : string;
  time : option json;
  position : float
}.
End Marker.

(** The whole program state: the [AnimationState] singleton, the live list
    [ideas], the heap, the globals [animationData] and [timelineMarkers]
    that [loadAnimation] assigns ([None] until then; the second is not
    [AnimationState.timelineMarkers]), and what the program has emitted:
    [alert]s, frame callbacks queued with [requestAnimationFrame], and
    downloads offered. *)
Record World := mkWorld {
  data : AnimationData;
  playbackStartTime : float;
  playbackDuration : float;
  currentPlaybackTime : float;
  ideas : list loc;
  heap : Heap.t;
  animationData : option LoadedAnimation;
  global_timelineMarkers : option (list Marker.t);
  alerts : list string;
  frames : list AnimateClosure;
  downloads : list (string * json)
}.

Definition initialData : AnimationData :=
  mkData None None [] 10000 false false 0 0.

Definition initialWorld (ids : list loc) (h : Heap.t) : World :=
  mkWorld initialData 0 0 0 ids h None None [] [] [].

(** Field updates. *)
Definition with_data (d : AnimationData) (w : World) : World :=
  mkWorld d (playbackStartTime w) (playbackDuration w) (currentPlaybackTime w)
    (ideas w) (heap w) (animationData w) (global_timelineMarkers w) (alerts w)
    (frames w) (downloads w).
Definition with_heap (h : Heap.t) (w : World) : World :=
  mkWorld (data w) (playbackStartTime w) (playbackDuration w)
    (currentPlaybackTime w) (ideas w) h (animationData w)
    (global_timelineMarkers w) (alerts w) (frames w) (downloads w).
Definition alert (msg : string) (w : World) : World :=
  mkWorld (data w) (playbackStartTime w) (playbackDuration w)
    (currentPlaybackTime w) (ideas w) (heap w) (animationData w)
    (global_timelineMarkers w) (alerts w ++ [msg]) (frames w) (downloads w).
Definition requestAnimationFrame (c : AnimateClosure) (w : World) : World :=
  mkWorld (data w) (playbackStartTime w) (playbackDuration w)
    (currentPlaybackTime w) (ideas w) (heap w) (animationData w)
    (global_timelineMarkers w) (alerts w) (frames w ++ [c]) (downloads w).

Definition set_inPoint (v : JS.nullable) (d : AnimationData) :=
  mkData v (outPoint d) (keyframes d) (duration d) (isRecording d)
    (isPlaying d) (currentTime d) (startTime d).
Definition set_outPoint (v : JS.nullable) (d : AnimationData) :=
  mkData (inPoint d) v (keyframes d) (duration d) (isRecording d)
    (isPlaying d) (currentTime d) (startTime d).
Definition set_keyframes (ks : list Keyframe.t) (d : AnimationData) :=
  mkData (inPoint d) (outPoint d) ks (duration d) (isRecording d)
    (isPlaying d) (currentTime d) (startTime d).
Definition set_duration (v : float) (d : AnimationData) :=
  mkData (inPoint d) (outPoint d) (keyframes d) v (isRecording d)
    (isPlaying d) (currentTime d) (startTime d).
Definition set_isRecording (b : bool) (d : AnimationData) :=
  mkData (inPoint d) (outPoint d) (keyframes d) (duration d) b
    (isPlaying d) (currentTime d) (startTime d).
Definition set_isPlaying (b : bool) (d : AnimationData) :=
  mkData (inPoint d) (outPoint d) (keyframes d) (duration d) (isRecording d)
    b (currentTime d) (startTime d).

(** [AnimationState.reset()] *)
Definition reset (w : World) : World :=
  with_data (set_isPlaying false (set_isRecording false
               (set_keyframes [] (data w)))) w.

(** [AnimationState.updateDuration(duration)] *)
Definition updateDuration (d : float) (w : World) : World :=
  with_data (set_duration d (data w)) w.

(** ** Position capture *)

(** [ideas.map(idea => ({ ...idea }))]: every element is copied into a newly
    allocated object, and the new references are collected in a new array. *)
Fixpoint copyEach (h : Heap.t) (src : list loc) : Heap.t * list loc :=
  match src with
  | [] => (h, [])
  | l :: rest =>
      let '(h1, l') := Heap.alloc h (Heap.read h l) in
      let '(h2, ls) := copyEach h1 rest in
      (h2, l' :: ls)
  end.

Definition deepCopyIdeas (w : World) : World * loc :=
  let '(h1, ls) := copyEach (heap w) (ideas w) in
  let '(h2, a) := Heap.alloc_array h1 ls in
  (with_heap h2 w, a).

Definition captureBubblePositions (w : World) : World * loc :=
  deepCopyIdeas w.

(** The snapshot an array reference denotes: the objects its elements point
    to. *)
Definition snapshot (h : Heap.t) (a : loc) : list Idea.t :=
  map (Heap.read h) (Heap.read_array h a).

(** ** Recorder *)

(** What [recordState] reads from the page. *)
Record Controls := mkControls {
  durationValue : float;  (* parseInt(durationSelect.value) *)
  sliderValue : float     (* parseFloat(timelineSlider.value) *)
}.

(** [Array.prototype.findIndex]; [None] stands for [-1]. *)
Fixpoint findIndex {A : Type} (p : A -> bool) (l : list A) : option nat :=
  match l with
  | [] => None
  | a :: rest => if p a then Some O else option_map S (findIndex p rest)
  end.

(** [kf.time === AnimationState.data.outPoint]: a number is never [===] to
    [null]. *)
Definition time_is (v : JS.nullable) (kf : Keyframe.t) : bool :=
  match v with
  | Some o => JS.strict_eq (Keyframe.time kf) o
  | None => false
  end.

Definition set_positions (a : loc) (kf : Keyframe.t) : Keyframe.t :=
  Keyframe.mk (Keyframe.time kf) a.

(** [stopPlayback()] *)
Definition stopPlayback (w : World) : World :=
  with_data (set_isPlaying false (data w)) w.

Definition msg_start_first : string :=
  "Please start recording first (mark in point)".
Definition msg_keyframe_bounds : string :=
  "Keyframe must be between start and end of animation".
Definition msg_need_keyframes : string :=
  "Please set in point first to create animation (need at least 2 keyframes)".
Definition msg_record_first : string :=
  "Please record an animation first (mark in and out points)".
Definition msg_missing_keyframes : string :=
  "Invalid animation file: missing keyframes".
Definition msg_load_error : string :=
  "Error loading animation file".

(** [recordState(type)].  The call of [togglePauseButton], which pauses the
    physics of another script, is left out. *)
Definition recordState (type : string) (ui : Controls) (w : World) : World :=
  let duration := durationValue ui in
  let w := updateDuration duration w in
  if String.eqb type "start" then
    let w := reset w in
    let w := with_data (set_isRecording true
                 (set_outPoint (Some (duration / 1000))
                    (set_inPoint (Some 0) (data w)))) w in
    let '(w, currentPositions) := captureBubblePositions w in
    with_data (set_keyframes
                 [ Keyframe.mk 0 currentPositions;
                   Keyframe.mk (duration / 1000) currentPositions ]
                 (data w)) w
  else if String.eqb type "end" then
    if negb (isRecording (data w)) then alert msg_start_first w
    else
      let progress := sliderValue ui in
      let endTime := progress * (duration / 1000) in
      let w := with_data (set_isRecording false
                   (set_outPoint (Some endTime) (data w))) w in
      let '(w, endPositions) := captureBubblePositions w in
      match findIndex (time_is (outPoint (data w))) (keyframes (data w)) with
      | Some outKeyframeIndex =>
          with_data (set_keyframes
                       (alter (set_positions endPositions) outKeyframeIndex
                          (keyframes (data w)))
                       (data w)) w
      | None =>
          with_data (set_keyframes
                       (keyframes (data w) ++ [Keyframe.mk endTime endPositions])
                       (data w)) w
      end
  else if String.eqb type "keyframe" then
    let w := if isPlaying (data w) then stopPlayback w else w in
    let progress := sliderValue ui in
    let keyframeTime := progress * (duration / 1000) in
    let maxTime := duration / 1000 in
    if (keyframeTime <=? 0) || JS.ge keyframeTime maxTime then
      alert msg_keyframe_bounds w
    else
      let '(w, keyframePositions) := captureBubblePositions w in
      let keyframe := Keyframe.mk keyframeTime keyframePositions in
      let w :=
        if negb (isRecording (data w)) then
          with_data (set_keyframes []
                       (set_outPoint (Some maxTime)
                          (set_inPoint (Some 0)
                             (set_isRecording true (data w))))) w
        else w in
      with_data (set_keyframes (keyframes (data w) ++ [keyframe]) (data w)) w
  else w.

(** ** Player *)

(** The search of [interpolateBubblePositions] for the first pair of adjacent
    keyframes whose times enclose [currentTime]. *)
Fixpoint scanPairs (currentTime : float) (ks : list Keyframe.t)
  : option (Keyframe.t * Keyframe.t) :=
  match ks with
  | currentKeyframe :: ((nextKeyframe :: _) as rest) =>
      if JS.ge currentTime (Keyframe.time currentKeyframe)
         && (currentTime <=? Keyframe.time nextKeyframe)
      then Some (currentKeyframe, nextKeyframe)
      else scanPairs currentTime rest
  | _ => None
  end.

(** The two keyframes to interpolate between: the pair found by the search,
    else the first and the last keyframe.  [None] only for an empty list,
    which the caller has excluded. *)
Definition selectKeyframes (currentTime : float) (ks : list Keyframe.t)
  : option (Keyframe.t * Keyframe.t) :=
  match ks with
  | [] => None
  | first :: _ =>
      match scanPairs currentTime ks with
      | Some p => Some p
      | None => Some (first, List.last ks first)
      end
  end.

(** [(currentTime - startKeyframe.time) / (endKeyframe.time - startKeyframe.time)] *)
Definition segmentProgress (currentTime : float) (s e : Keyframe.t) : float :=
  (currentTime - Keyframe.time s) / (Keyframe.time e - Keyframe.time s).

(** [a + (b - a) * f] *)
Definition lerp (a b f : float) : float := a + (b - a) * f.

(** The body of the loop over the live list, once [startPos] and [endPos]
    are both defined: what is assigned to the fields of [idea]. *)
Definition interpolated (f : float) (startPos endPos idea : Idea.t) : Idea.t :=
  let idea := Idea.set_xy (lerp (Idea.x startPos) (Idea.x endPos) f)
                          (lerp (Idea.y startPos) (Idea.y endPos) f) idea in
  let idea :=
    match Idea.vx startPos, Idea.vx endPos with
    | Some svx, Some evx =>
        Idea.set_v (lerp svx evx f)
                   (lerp (JS.ToNumber_optional (Idea.vy startPos))
                         (JS.ToNumber_optional (Idea.vy endPos)) f) idea
    | _, _ => idea
    end in
  match Idea.radius startPos, Idea.radius endPos with
  | Some sr, Some er => Idea.set_radius (lerp sr er f) idea
  | _, _ => idea
  end.

(** The loop [for (index = 0; index < ideasLength; index++)], running over
    the remaining part [live] of [ideas], which starts at [index]. *)
Fixpoint interpolateLoop (f : float) (startPositions endPositions : list loc)
    (index : nat) (live : list loc) (h : Heap.t) : Heap.t :=
  match live with
  | [] => h
  | idea :: rest =>
      let h :=
        match startPositions !! index, endPositions !! index with
        | Some startPos, Some endPos =>
            Heap.write h idea
              (interpolated f (Heap.read h startPos) (Heap.read h endPos)
                 (Heap.read h idea))
        | _, _ => h
        end in
      interpolateLoop f startPositions endPositions (S index) rest h
  end.

(** [interpolateBubblePositions(progress)] *)
Definition interpolateBubblePositions (progress : float) (w : World) : World :=
  if (length (keyframes (data w)) <? 2)%nat then w
  else
    let currentTime := progress * (duration (data w) / 1000) in
    match selectKeyframes currentTime (keyframes (data w)) with
    | None => w
    | Some (startKeyframe, endKeyframe) =>
        let f := segmentProgress currentTime startKeyframe endKeyframe in
        let startPositions :=
          Heap.read_array (heap w) (Keyframe.positions startKeyframe) in
        let endPositions :=
          Heap.read_array (heap w) (Keyframe.positions endKeyframe) in
        with_heap
          (interpolateLoop f startPositions endPositions 0 (ideas w) (heap w))
          w
    end.

Definition set_currentPlaybackTime (t : float) (w : World) : World :=
  mkWorld (data w) (playbackStartTime w) (playbackDuration w) t (ideas w)
    (heap w) (animationData w) (global_timelineMarkers w) (alerts w)
    (frames w) (downloads w).
Definition set_playback (start dur : float) (w : World) : World :=
  mkWorld (data w) start dur (currentPlaybackTime w) (ideas w)
    (heap w) (animationData w) (global_timelineMarkers w) (alerts w)
    (frames w) (downloads w).

(** The inner function [animate] of [animateBubbles], run with the variables
    [c] it closes over, at clock reading [now]. *)
Definition animate (c : AnimateClosure) (now : float) (w : World) : World :=
  if negb (isPlaying (data w)) then w
  else
    let elapsed := now - playbackStartTime w in
    let progress := JS.Math_min (elapsed / c_duration c) 1 in
    let w := set_currentPlaybackTime
               (JS.ToNumber_nullable (c_inPoint c)
                + progress * (JS.ToNumber_nullable (c_outPoint c)
                              - JS.ToNumber_nullable (c_inPoint c))) w in
    let w := interpolateBubblePositions progress w in
    if progress <? 1 then requestAnimationFrame c w
    else with_data (set_isPlaying false (data w)) w.

(** [animateBubbles(duration)] *)
Definition animateBubbles (duration : float) (now : float) (w : World) : World :=
  if negb (isPlaying (data w)) then w
  else
    animate (mkClosure duration (inPoint (data w)) (outPoint (data w))) now w.

(** [startPlayback()]; [now] is the clock reading stored as the start time
    and [now'] the one taken by the first run of [animate]. *)
Definition startPlayback (now now' : float) (w : World) : World :=
  if (length (keyframes (data w)) <? 2)%nat then alert msg_need_keyframes w
  else if isPlaying (data w) then stopPlayback w
  else
    let w := with_data (set_isPlaying true (data w)) w in
    let w := set_playback now
               ((JS.ToNumber_nullable (outPoint (data w))
                 - JS.ToNumber_nullable (inPoint (data w))) * 1000) w in
    animateBubbles (playbackDuration w) now' w.

(** The browser running the next queued frame callback at clock reading
    [now]. *)
Definition runFrame (now : float) (w : World) : World :=
  match frames w with
  | [] => w
  | c :: rest =>
      animate c now
        (mkWorld (data w) (playbackStartTime w) (playbackDuration w)
           (currentPlaybackTime w) (ideas w) (heap w) (animationData w)
           (global_timelineMarkers w) (alerts w) rest (downloads w))
  end.

(** ** Persistence *)

(** Documents are kept as parsed JSON.  [JSON.stringify] followed by
    [JSON.parse] keeps every finite number ([-0] comes back as [0]), turns
    NaN and the infinities into [null], and drops absent properties. *)
Definition json_of_number (f : float) : json :=
  if JS.isFinite f then JNum (if is_zero f then 0 else f) else JNull.

Definition json_of_nullable (v : JS.nullable) : json :=
  match v with Some f => json_of_number f | None => JNull end.

Definition json_of_scalar (v : scalar) : json :=
  match v with
  | SNum f => json_of_number f
  | SStr s => JStr s
  | SBool b => JBool b
  | SNull => JNull
  end.

Definition json_optional (k : string) (v : option float) : list (string * json) :=
  match v with Some f => [(k, json_of_number f)] | None => [] end.

Definition json_of_idea (o : Idea.t) : json :=
  JObj ([("x", json_of_number (Idea.x o)); ("y", json_of_number (Idea.y o))]
        ++ json_optional "vx" (Idea.vx o)
        ++ json_optional "vy" (Idea.vy o)
        ++ json_optional "radius" (Idea.radius o)
        ++ map (fun kv => (fst kv, json_of_scalar (snd kv))) (Idea.extra o)).

Definition json_of_keyframe (h : Heap.t) (kf : Keyframe.t) : json :=
  JObj [("time", json_of_number (Keyframe.time kf));
        ("positions", JArr (map json_of_idea (snapshot h (Keyframe.positions kf))))].

(** [{ ...AnimationState.data, timestamp, name }] as a document. *)
Definition json_of_animation (h : Heap.t) (d : AnimationData)
    (timestamp : float) (name : string) : json :=
  JObj [("inPoint", json_of_nullable (inPoint d));
        ("outPoint", json_of_nullable (outPoint d));
        ("keyframes", JArr (map (json_of_keyframe h) (keyframes d)));
        ("duration", json_of_number (duration d));
        ("isRecording", JBool (isRecording d));
        ("isPlaying", JBool (isPlaying d));
        ("currentTime", json_of_number (currentTime d));
        ("startTime", json_of_number (startTime d));
        ("timestamp", json_of_number timestamp);
        ("name", JStr name)].

Fixpoint replace_colons (s : string) : string :=
  match s with
  | EmptyString => EmptyString
  | String c rest =>
      String (if Ascii.eqb c ":" then "-"%char else c) (replace_colons rest)
  end.

(** [`Animation_${iso.slice(0, 19).replace(/:/g, '-')}`] *)
Definition animationName (iso : string) : string :=
  "Animation_" ++ replace_colons (substring 0 19 iso).

Definition offer_download (file : string) (doc : json) (w : World) : World :=
  mkWorld (data w) (playbackStartTime w) (playbackDuration w)
    (currentPlaybackTime w) (ideas w) (heap w) (animationData w)
    (global_timelineMarkers w) (alerts w) (frames w)
    (downloads w ++ [(file, doc)]).

(** [saveAnimation()]; [now] is [Date.now()] and [iso] is
    [new Date().toISOString()]. *)
Definition saveAnimation (now : float) (iso : string) (w : World) : World :=
  if (length (keyframes (data w)) <? 2)%nat then alert msg_record_first w
  else
    let name := animationName iso in
    offer_download (name ++ ".json")
      (json_of_animation (heap w) (data w) now name) w.

Definition float_of_nat (n : nat) : float :=
  of_uint63 (Uint63.of_Z (Z.of_nat n)).

(** [s.length] counts UTF-16 code units: one for a character encoded on up
    to three bytes, two (a surrogate pair) for a character encoded on four;
    the bytes 128 to 191 continue a character. *)
Fixpoint utf16_length (s : string) : nat :=
  match s with
  | EmptyString => 0%nat
  | String c rest =>
      let byte := nat_of_ascii c in
      ((if (byte <? 128)%nat then 1
        else if (byte <? 192)%nat then 0
        else if (byte <? 240)%nat then 1
        else 2) + utf16_length rest)%nat
  end.

(** What the loading handler looks up on the page: whether it has the
    duration selector ([mediaPlaybackDuration]) and the timeline slider
    ([mediaPlaybackSlider]). *)
Record Page := mkPage {
  durationSelect : bool;
  timeline : bool
}.

Section Load.

(** [ToNumber] of a string, an array or an object goes through the
    platform's string parsing and [ToPrimitive]; it is a parameter. *)
Variable ToNumber_other : json -> float.

(** A JavaScript value met while loading: a JSON value or [undefined]. *)
Definition ToNumber (v : option json) : float :=
  match v with
  | None => nan
  | Some JNull => 0
  | Some (JBool b) => if b then 1 else 0
  | Some (JNum f) => f
  | Some j => ToNumber_other j
  end.

Definition truthy (v : option json) : bool :=
  match v with
  | None | Some JNull => false
  | Some (JBool b) => b
  | Some (JNum f) => negb (is_zero f || is_nan f)
  | Some (JStr s) => negb (String.eqb s "")
  | Some _ => true
  end.

(** [JSON.parse] keeps the last of several properties of the same name. *)
Fixpoint lookup_last (k : string) (props : list (string * json)) : option json :=
  match props with
  | [] => None
  | (k', v) :: rest =>
      match lookup_last k rest with
      | Some v' => Some v'
      | None => if String.eqb k k' then Some v else None
      end
  end.

(** [v.k] for a value [v] that is not [null] and a name [k] that is not an
    array index. *)
Definition getProp (v : json) (k : string) : option json :=
  match v with
  | JObj props => lookup_last k props
  | JArr els =>
      if String.eqb k "length" then Some (JNum (float_of_nat (length els)))
      else None
  | JStr s =>
      if String.eqb k "length" then Some (JNum (float_of_nat (utf16_length s)))
      else None
  | _ => None
  end.

(** [v || d] *)
Definition or_default (v : option json) (d : json) : json :=
  match v with
  | Some j => if truthy v then j else d
  | None => d
  end.

Definition set_animationData (a : LoadedAnimation) (w : World) : World :=
  mkWorld (data w) (playbackStartTime w) (playbackDuration w)
    (currentPlaybackTime w) (ideas w) (heap w) (Some a)
    (global_timelineMarkers w) (alerts w) (frames w) (downloads w).

Definition set_global_timelineMarkers (ms : list Marker.t) (w : World) : World :=
  mkWorld (data w) (playbackStartTime w) (playbackDuration w)
    (currentPlaybackTime w) (ideas w) (heap w) (animationData w) (Some ms)
    (alerts w) (frames w) (downloads w).

Definition is_null (j : json) : bool :=
  match j with JNull => true | _ => false end.

(** [typeof v === 'number'] *)
Definition is_number (v : option json) : bool :=
  match v with Some (JNum _) => true | _ => false end.

(** Whether the conversion of a value of the document to a number or to a
    string succeeds.  It throws a TypeError on an object with a property
    [toString] of its own: read from JSON that property is not a function,
    and [Object.prototype.valueOf] gives back the object.  It throws on an
    array that holds such an object, since [Array.prototype.toString] joins
    the converted elements. *)
Fixpoint convertible (j : json) : bool :=
  match j with
  | JObj props => negb (existsb (fun kv => String.eqb (fst kv) "toString") props)
  | JArr els => forallb convertible els
  | _ => true
  end.

Definition convertible_value (v : option json) : bool :=
  match v with Some j => convertible j | None => true end.

(** Whether [updateTimelineDisplay()] throws, for the given value of
    [AnimationState.timelineMarkers]: when the page has the timeline
    slider every marker is redrawn, and [marker.time.toFixed(1)] throws a
    TypeError unless [marker.time] is a number. *)
Definition updateTimelineDisplay_throws (page : Page)
    (timelineMarkers : list Marker.t) : bool :=
  timeline page
  && negb (forallb (fun marker => is_number (Marker.time marker))
             timelineMarkers).

(** [addTimelineMarker(type, time)] as the loading handler calls it, with
    any value as [time]: the new value of [AnimationState.timelineMarkers]
    and whether the call throws.  Computing the position converts [time] to
    a number, before the list is touched; the display is redrawn once the
    list is assigned. *)
Definition addTimelineMarker_loaded (page : Page) (type : string)
    (time : option json) (d : AnimationData)
    (timelineMarkers : list Marker.t) : list Marker.t * bool :=
  if negb (convertible_value time) then (timelineMarkers, true)
  else
    let marker :=
      Marker.mk type time (ToNumber time / (duration d / 1000) * 100) in
    let timelineMarkers :=
      (List.filter (fun m => negb (String.eqb (Marker.type m) type))
         timelineMarkers ++ [marker])%list in
    (timelineMarkers, updateTimelineDisplay_throws page timelineMarkers).

(** [keyframes.forEach(keyframe => { addTimelineMarker('keyframe',
    keyframe.time); })] over the remaining elements [els]; reading [time]
    of [null] throws. *)
Fixpoint forEach_keyframe (page : Page) (els : list json) (d : AnimationData)
    (timelineMarkers : list Marker.t) : list Marker.t * bool :=
  match els with
  | [] => (timelineMarkers, false)
  | keyframe :: rest =>
      if is_null keyframe then (timelineMarkers, true)
      else
        let '(timelineMarkers, thrown) :=
          addTimelineMarker_loaded page "keyframe" (getProp keyframe "time") d
            timelineMarkers in
        if thrown then (timelineMarkers, true)
        else forEach_keyframe page rest d timelineMarkers
  end.

(** The [reader.onload] handler of [loadAnimation()], given the result of
    [JSON.parse] on the file's text ([None] when it throws) and the value
    [timelineMarkers] of [AnimationState.timelineMarkers]: the state and
    the markers it leaves.  Every exception ends in the [catch] clause,
    with what was assigned until then.  The object built from the document
    is assigned to the global variable [animationData], and the empty array
    to the global variable [timelineMarkers]; the markers are added to
    [AnimationState.timelineMarkers].  Assigning [durationSelect.value]
    converts the duration to a string; the selection it makes on the page
    is not modelled. *)
Definition loadAnimation_onload (page : Page) (timelineMarkers : list Marker.t)
    (parsed : option json) (w : World) : World * list Marker.t :=
  match parsed with
  | None | Some JNull => (alert msg_load_error w, timelineMarkers)
  | Some loadedAnimation =>
      let kfs := getProp loadedAnimation "keyframes" in
      match kfs with
      | Some keyframes =>
          if negb (truthy kfs)
          then (alert msg_missing_keyframes w, timelineMarkers)
          else if negb (convertible_value (getProp keyframes "length"))
          then (alert msg_load_error w, timelineMarkers)
          else if ToNumber (getProp keyframes "length") <? 2
          then (alert msg_missing_keyframes w, timelineMarkers)
          else
            let animationData :=
              mkLoaded
                (or_default (getProp loadedAnimation "inPoint") (JNum 0))
                (or_default (getProp loadedAnimation "outPoint") (JNum 10))
                keyframes
                (or_default (getProp loadedAnimation "duration") (JNum 10000)) in
            let w := set_animationData animationData w in
            if negb (durationSelect page)
               || negb (convertible (l_duration animationData))
            then (alert msg_load_error w, timelineMarkers)
            else
              let w := set_global_timelineMarkers [] w in
              match keyframes with
              | JArr els =>
                  let '(timelineMarkers, thrown) :=
                    forEach_keyframe page els (data w) timelineMarkers in
                  if thrown then (alert msg_load_error w, timelineMarkers)
                  else
                  let '(timelineMarkers, thrown) :=
                    addTimelineMarker_loaded page "in" (Some (JNum 0)) (data w)
                      timelineMarkers in
                  if thrown then (alert msg_load_error w, timelineMarkers)
                  else
                  let '(timelineMarkers, thrown) :=
                    addTimelineMarker_loaded page "out"
                      (Some (l_outPoint animationData)) (data w)
                      timelineMarkers in
                  if thrown then (alert msg_load_error w, timelineMarkers)
                  else (w, timelineMarkers)
              | _ =>
                  (* forEach is not a function *)
                  (alert msg_load_error w, timelineMarkers)
              end
      | None => (alert msg_missing_keyframes w, timelineMarkers)
      end
  end.

(** What the handler leaves in the program state, and in
    [AnimationState.timelineMarkers]. *)
Definition loadAnimation (page : Page) (timelineMarkers : list Marker.t)
    (parsed : option json) (w : World) : World :=
  (loadAnimation_onload page timelineMarkers parsed w).1.

Definition loadAnimation_markers (page : Page)
    (timelineMarkers : list Marker.t) (parsed : option json) (w : World)
  : list Marker.t :=
  (loadAnimation_onload page timelineMarkers parsed w).2.

End Load.

(** ** Well-formed references *)

(** Every reference of a JavaScript program designates an object: the
    elements of [ideas] are allocated. *)
Definition allocated (h : Heap.t) (l : loc) : Prop :=
  (l < length (Heap.objects h))%nat.

Definition live_ok (w : World) : Prop :=
  Forall (allocated (heap w)) (ideas w).

(** The snapshot objects of a keyframe are copies: none of them is a live
    entity, and its array is allocated. *)
Definition snapshot_apart (w : World) (kf : Keyframe.t) : Prop :=
  (Keyframe.positions kf < length (Heap.arrays (heap w)))%nat
  /\ Forall (fun l => l ∉ ideas w)
       (Heap.read_array (heap w) (Keyframe.positions kf)).

(** No aliasing: the live list holds each entity once, its references are
    allocated, and the snapshots of all keyframes are apart from it. *)
Definition separated (w : World) : Prop :=
  NoDup (ideas w) /\ live_ok w /\ Forall (snapshot_apart w) (keyframes (data w)).

(** [separated] on the parts of the state it depends on: the live list, the
    number of allocated objects, the arrays and the keyframes. *)
Definition apart (ids : list loc) (arrs : list (list loc)) (kf : Keyframe.t)
  : Prop :=
  (Keyframe.positions kf < length arrs)%nat
  /\ Forall (fun l => l ∉ ids) (arrs !!! Keyframe.positions kf).

Definition sep (ids : list loc) (n : nat) (arrs : list (list loc))
    (ks : list Keyframe.t) : Prop :=
  NoDup ids /\ Forall (fun l => (l < n)%nat) ids /\ Forall (apart ids arrs) ks.

(** ** The program as a transition system *)

(** What the page can make the animation system do: the three recorder
    buttons, play, stop, a frame callback run by the browser, a move of the
    timeline slider while not playing, the release of the slider, save and
    load.  A load comes with the page and the markers that the handler
    finds. *)
Inductive event :=
| ERecord (type : string) (ui : Controls)
| EStartPlayback (now now' : float)
| EStopPlayback
| EFrame (now : float)
| EScrub (progress : float)
| ESliderChange (progress : float)
| ESave (now : float) (iso : string)
| ELoad (page : Page) (timelineMarkers : list Marker.t) (parsed : option json).

(** The [input] listener of the timeline slider. *)
Definition scrub (progress : float) (w : World) : World :=
  if negb (isPlaying (data w)) then
    if (2 <=? length (keyframes (data w)))%nat then
      interpolateBubblePositions progress
        (set_currentPlaybackTime (progress * (duration (data w) / 1000)) w)
    else w
  else w.

(** The number written [0.95] in the source. *)
Definition const_0_95 : float := 0x1.e666666666666p-1.

(** The [change] listener of the timeline slider: scrubbing to the end
    during a recording re-captures the out keyframe. *)
Definition sliderChange (progress : float) (w : World) : World :=
  if negb (isPlaying (data w)) && isRecording (data w) then
    if JS.ge progress const_0_95 then
      let '(w, endPositions) := captureBubblePositions w in
      match findIndex (time_is (outPoint (data w))) (keyframes (data w)) with
      | Some outKeyframeIndex =>
          with_data (set_keyframes
                       (alter (set_positions endPositions) outKeyframeIndex
                          (keyframes (data w)))
                       (data w)) w
      | None => w
      end
    else w
  else w.

Section Run.

Variable ToNumber_other : json -> float.

Definition step (ev : event) (w : World) : World :=
  match ev with
  | ERecord type ui => recordState type ui w
  | EStartPlayback now now' => startPlayback now now' w
  | EStopPlayback => stopPlayback w
  | EFrame now => runFrame now w
  | EScrub progress => scrub progress w
  | ESliderChange progress => sliderChange progress w
  | ESave now iso => saveAnimation now iso w
  | ELoad page timelineMarkers parsed =>
      loadAnimation ToNumber_other page timelineMarkers parsed w
  end.

Definition run (evs : list event) (w : World) : World :=
  fold_left (fun w ev => step ev w) evs w.

End Run.

(** ** Binary64 classes *)

(** Classes of a specification float. *)
Definition SF_nan (x : spec_float) : bool :=
  match x with S754_nan => true | _ => false end.
Definition SF_zero (x : spec_float) : bool :=
  match x with S754_zero _ => true | _ => false end.
Definition SF_infinite (x : spec_float) : bool :=
  match x with S754_infinity _ => true | _ => false end.
Definition SF_finite (x : spec_float) : bool :=
  match x with S754_zero _ | S754_finite _ _ _ => true | _ => false end.

(** The numbers 1, 2 and one half. *)
Definition SF_one : spec_float := S754_finite false 4503599627370496 (-52).
Definition SF_two : spec_float := S754_finite false 4503599627370496 (-51).
Definition SF_half : spec_float := S754_finite false 4503599627370496 (-53).

(** ** Sample inputs *)

Module Sample.
Definition idea_a : Idea.t := Idea.mk 10 20 None None None [].
Definition idea_b : Idea.t := Idea.mk 50 20 None None None [].

(** One live entity at [(10, 20)], nothing recorded yet. *)
Definition fresh : World := initialWorld [0%nat] (Heap.mk [idea_a] []).

(** A page that has both controls. *)
Definition page : Page := mkPage true true.

Definition ten_seconds (slider : float) : Controls := mkControls 10000 slider.

(** After "start" with a duration of 10 s. *)
Definition begun : World := recordState "start" (ten_seconds 1) fresh.

(** The entity has moved to [(50, 20)]. *)
Definition moved : World :=
  with_heap (Heap.write (heap begun) 0%nat idea_b) begun.

(** "end" with the slider in the middle, and at the far right. *)
Definition ended_half : World := recordState "end" (ten_seconds 0.5) moved.
Definition ended_full : World := recordState "end" (ten_seconds 1) moved.

(** Two keyframes added at the same slider position, from scratch: both
    have time 5. *)
Definition doubled : World :=
  recordState "keyframe" (ten_seconds 0.5)
    (recordState "keyframe" (ten_seconds 0.5) fresh).

(** The number written [0.1] in JavaScript: the binary64 nearest to one
    tenth. *)
Definition tenth : float := 0x1.999999999999ap-4.

(** The entity is recorded at [(10, 20)] at time 0 and at [(0.1, 20)] at
    time 10. *)
Definition idea_c : Idea.t := Idea.mk tenth 20 None None None [].
Definition ended_tenth : World :=
  recordState "end" (ten_seconds 1)
    (with_heap (Heap.write (heap begun) 0%nat idea_c) begun).

(** The number written [0.7] in JavaScript. *)
Definition seven_tenths : float := 0x1.6666666666666p-1.

(** The entity is recorded at x = 0.1 at time 0 and at x = 0.7 at time 10. *)
Definition ended_tenths : World :=
  recordState "end" (ten_seconds 1)
    (with_heap (Heap.write
                  (heap (recordState "start" (ten_seconds 1)
                           (initialWorld [0%nat] (Heap.mk [idea_c] []))))
                  0%nat (Idea.mk seven_tenths 20 None None None []))
       (recordState "start" (ten_seconds 1)
          (initialWorld [0%nat] (Heap.mk [idea_c] [])))).

(** The entity is recorded at x = -2^1023 at time 0 and at x = 2^1023 at
    time 10. *)
Definition ended_far : World :=
  recordState "end" (ten_seconds 1)
    (with_heap (Heap.write
                  (heap (recordState "start" (ten_seconds 1)
                           (initialWorld [0%nat]
                              (Heap.mk [Idea.mk (-0x1p1023) 20 None None None []]
                                 []))))
                  0%nat (Idea.mk 0x1p1023 20 None None None []))
       (recordState "start" (ten_seconds 1)
          (initialWorld [0%nat]
             (Heap.mk [Idea.mk (-0x1p1023) 20 None None None []] [])))).

(** The binary64 next above one half. *)
Definition half_next : float := 0x1.0000000000001p-1.

(** Two keyframes added from scratch with the selector at 2 s: the entity
    is at x = 10 with the slider at one half (time 1), then at x = 50 with
    the slider at the next binary64 (time: the binary64 next above 1). *)
Definition adjacent : World :=
  recordState "keyframe" (mkControls 2000 half_next)
    (with_heap
       (Heap.write (heap (recordState "keyframe" (mkControls 2000 0.5) fresh))
          0%nat idea_b)
       (recordState "keyframe" (mkControls 2000 0.5) fresh)).

(** "end" with the slider at the far left: outPoint becomes 0, equal to
    inPoint. *)
Definition ended_zero : World := recordState "end" (ten_seconds 0) moved.

(** [ended_zero] as [startPlayback] leaves it at clock reading 1000, just
    before the first run of [animate]. *)
Definition playing_zero : World :=
  set_playback 1000 ((0 - 0) * 1000)
    (with_data (set_isPlaying true (data ended_zero)) ended_zero).

(** [ended_full] as [startPlayback] leaves it at clock reading 1000, and
    the variables its [animate] closes over. *)
Definition playing_full : World :=
  set_playback 1000 ((10 - 0) * 1000)
    (with_data (set_isPlaying true (data ended_full)) ended_full).
Definition closure_full : AnimateClosure := mkClosure 10000 (Some 0) (Some 10).
Definition closure_zero : AnimateClosure := mkClosure 0 (Some 0) (Some 0).

(** The document that saving [ended_full] offers for download. *)
Definition saved_doc : json :=
  json_of_animation (heap ended_full) (data ended_full) 1700000000000
    (animationName "2023-11-14T22:13:20.000Z").

(** A document with two keyframes, the first with [null] as time. *)
Definition keyframe_doc (time : json) : json :=
  JObj [("time", time); ("positions", JArr [])].
Definition untimed_doc : json :=
  JObj [("keyframes", JArr [keyframe_doc JNull; keyframe_doc (JNum 1)])].

(** A live entity that has a [vx] but no [vy], recorded by "start". *)
Definition idea_vx_only : Idea.t := Idea.mk 1 2 (Some 3) None None [].
Definition begun_vx_only : World :=
  recordState "start" (ten_seconds 1)
    (initialWorld [0%nat] (Heap.mk [idea_vx_only] [])).
End Sample.


(** ** Timeline markers *)

(** A number or [null] as a value. *)
Definition value_of_nullable (v : JS.nullable) : option json :=
  match v with Some f => Some (JNum f) | None => Some JNull end.

(** The object [{ type, time, position }] that [addTimelineMarker] builds
    for the recorder, which passes a number or [null] as [time]; [d] is
    [AnimationState.data]. *)
Definition new_marker (type : string) (time : JS.nullable)
    (d : AnimationData) : Marker.t :=
  Marker.mk type (value_of_nullable time)
    (JS.ToNumber_nullable time / (duration d / 1000) * 100).

(** [addTimelineMarker(type, time)] on the list
    [AnimationState.timelineMarkers].  The redrawing of the slider by
    [updateTimelineDisplay], which comes after the list has been assigned,
    is left out. *)
Definition addTimelineMarker (type : string) (time : JS.nullable)
    (d : AnimationData) (timelineMarkers : list Marker.t) : list Marker.t :=
  let marker := new_marker type time d in
  List.filter (fun m => negb (String.eqb (Marker.type m) type)) timelineMarkers
  ++ [marker].

(** [keyframe.time > 0 && keyframe.time < AnimationState.data.outPoint];
    the comparison converts a [null] out point to [+0]. *)
Definition interior (d : AnimationData) (keyframe : Keyframe.t) : bool :=
  (0 <? Keyframe.time keyframe)
  && (Keyframe.time keyframe <? JS.ToNumber_nullable (outPoint d)).

(** [updateTimelineMarkers()]: the new value of
    [AnimationState.timelineMarkers].  With a [null] out point the redrawing
    of the out marker can throw, which skips the loop over the keyframes; no
    keyframe is [interior] then, so the list is the same either way. *)
Definition updateTimelineMarkers (d : AnimationData) : list Marker.t :=
  let timelineMarkers := [] in
  let timelineMarkers := addTimelineMarker "in" (Some 0) d timelineMarkers in
  let timelineMarkers := addTimelineMarker "out" (outPoint d) d timelineMarkers in
  fold_left
    (fun timelineMarkers keyframe =>
       if interior d keyframe
       then addTimelineMarker "keyframe" (Some (Keyframe.time keyframe)) d
              timelineMarkers
       else timelineMarkers)
    (keyframes d) timelineMarkers.

(** What [recordState(type)], called in the state [w], leaves in
    [AnimationState.timelineMarkers]: "start" empties the list (in
    [AnimationState.reset]) and adds the in and out markers, "end" rebuilds
    the list once the out point is assigned and before the out keyframe is
    stored, and an accepted "keyframe" adds a keyframe marker. *)
Definition recordState_markers (type : string) (ui : Controls) (w : World)
    (timelineMarkers : list Marker.t) : list Marker.t :=
  let duration := durationValue ui in
  let w := updateDuration duration w in
  if String.eqb type "start" then
    let timelineMarkers := [] in
    let timelineMarkers := addTimelineMarker "in" (Some 0) (data w) timelineMarkers in
    addTimelineMarker "out" (Some (duration / 1000)) (data w) timelineMarkers
  else if String.eqb type "end" then
    if negb (isRecording (data w)) then timelineMarkers
    else
      let progress := sliderValue ui in
      let endTime := progress * (duration / 1000) in
      updateTimelineMarkers
        (set_isRecording false (set_outPoint (Some endTime) (data w)))
  else if String.eqb type "keyframe" then
    let progress := sliderValue ui in
    let keyframeTime := progress * (duration / 1000) in
    let maxTime := duration / 1000 in
    if (keyframeTime <=? 0) || JS.ge keyframeTime maxTime then timelineMarkers
    else addTimelineMarker "keyframe" (Some keyframeTime) (data w) timelineMarkers
  else timelineMarkers.

(** The [change] listener of the timeline slider, on the markers: they are
    rebuilt last, from the state that the listener leaves. *)
Definition sliderChange_markers (progress : float) (w : World)
    (timelineMarkers : list Marker.t) : list Marker.t :=
  if negb (isPlaying (data w)) && isRecording (data w) then
    if JS.ge progress const_0_95
    then updateTimelineMarkers (data (sliderChange progress w))
    else timelineMarkers
  else timelineMarkers.

(** The types the program gives to markers. *)
Definition marker_types : list string := ["in"; "out"; "keyframe"].

(** ** Keeping keyframes up to date *)

(** The [change] listener of the duration selector; [value] is
    [parseInt(e.target.value)]. *)
Definition durationChange (value : float) (w : World) : World :=
  with_data (set_duration value (data w)) w.

(** [updateKeyframesForCurrentPositions()] *)
Definition updateKeyframesForCurrentPositions (w : World) : World :=
  if negb (isRecording (data w)) && (length (keyframes (data w)) =? 0)%nat
  then w
  else
    let '(w, currentPositions) := captureBubblePositions w in
    with_data (set_keyframes
                 (map (set_positions currentPositions) (keyframes (data w)))
                 (data w)) w.

(** [Math.abs(keyframe.time - currentTime)] *)
Definition distance (currentTime : float) (keyframe : Keyframe.t) : float :=
  abs (Keyframe.time keyframe - currentTime).

(** The [forEach] of [autoUpdateKeyframes] over the remaining keyframes
    [ks], which start at [index]; [closestKeyframe] is the index of the
    keyframe object held by the variable of that name ([None] for
    [null]). *)
Fixpoint closestLoop (currentTime : float) (ks : list Keyframe.t)
    (index : nat) (closestKeyframe : option nat) (minDistance : float)
  : option nat * float :=
  match ks with
  | [] => (closestKeyframe, minDistance)
  | keyframe :: rest =>
      if distance currentTime keyframe <? minDistance
      then closestLoop currentTime rest (S index) (Some index)
             (distance currentTime keyframe)
      else closestLoop currentTime rest (S index) closestKeyframe minDistance
  end.

(** [autoUpdateKeyframes()]; [slider] is [parseFloat(timelineSlider.value)],
    or [None] when the page has no timeline slider. *)
Definition autoUpdateKeyframes (slider : option float) (w : World) : World :=
  if (0 <? length (keyframes (data w)))%nat then
    match slider with
    | Some progress =>
        let currentTime := progress * (duration (data w) / 1000) in
        let '(closestKeyframe, minDistance) :=
          closestLoop currentTime (keyframes (data w)) 0 None infinity in
        match closestKeyframe with
        | Some index =>
            if minDistance <? 0.5 then
              let '(w, currentPositions) := captureBubblePositions w in
              with_data (set_keyframes
                           (alter (set_positions currentPositions) index
                              (keyframes (data w)))
                           (data w)) w
            else w
        | None => w
        end
    | None => w
    end
  else w.

(** [testBubbleCapture()] *)
Definition testBubbleCapture (w : World) : World :=
  if (length (ideas w) =? 0)%nat then w
  else
    let '(w, positions) := captureBubblePositions w in
    if (0 <? length (Heap.read_array (heap w) positions))%nat then
      let w := reset w in
      let w := with_data (set_outPoint (Some 10)
                            (set_inPoint (Some 0) (data w))) w in
      with_data (set_keyframes
                   [ Keyframe.mk 0 positions; Keyframe.mk 10 positions ]
                   (data w)) w
    else w.

(** The events of the page together with the operations that other scripts
    and the console reach through [window]. *)
Inductive action :=
| AEvent (ev : event)
| ADurationChange (value : float)
| AUpdateKeyframes
| AAutoUpdate (slider : option float)
| ATestCapture.

Section Act.

Variable ToNumber_other : json -> float.

Definition act (a : action) (w : World) : World :=
  match a with
  | AEvent ev => step ToNumber_other ev w
  | ADurationChange value => durationChange value w
  | AUpdateKeyframes => updateKeyframesForCurrentPositions w
  | AAutoUpdate slider => autoUpdateKeyframes slider w
  | ATestCapture => testBubbleCapture w
  end.

Definition perform (acts : list action) (w : World) : World :=
  fold_left (fun w a => act a w) acts w.

End Act.

(** What holds of the recorder's bookkeeping in every state the program
    reaches: the in point is [null] or 0, and during a recording the in
    point is 0, the out point is a number and there is a keyframe. *)
Definition recording_ok (d : AnimationData) : Prop :=
  (inPoint d = None \/ inPoint d = Some 0)
  /\ (isRecording d = true ->
      inPoint d = Some 0 /\ is_Some (outPoint d) /\ keyframes d <> []).

(** The events that play or inspect an animation without recording. *)
Definition playback_event (ev : event) : bool :=
  match ev with
  | EStartPlayback _ _ | EStopPlayback | EFrame _ | EScrub _
  | ESave _ _ | ELoad _ _ _ => true
  | ERecord _ _ | ESliderChange _ => false
  end.

(** The markers have pairwise distinct types, among the three the program
    uses. *)
Definition markers_ok (timelineMarkers : list Marker.t) : Prop :=
  NoDup (map Marker.type timelineMarkers)
  /\ Forall (fun m => Marker.type m ∈ marker_types) timelineMarkers.

(** The keyframe [kf] at [index] is the first of the keyframes nearest to
    [currentTime]: none is strictly nearer, and none before it is as
    near. *)
Definition nearest (currentTime : float) (ks : list Keyframe.t) (index : nat)
    (kf : Keyframe.t) : Prop :=
  ks !! index = Some kf
  /\ (forall j kf', (j < index)%nat -> ks !! j = Some kf' ->
        (distance currentTime kf' <=? distance currentTime kf) = false)
  /\ (forall j kf', (index < j)%nat -> ks !! j = Some kf' ->
        (distance currentTime kf' <? distance currentTime kf) = false).

(** The operations that store the current positions in keyframes that exist
    already. *)
Definition recapture (a : action) : bool :=
  match a with
  | AEvent (ESliderChange _) | AUpdateKeyframes | AAutoUpdate _ => true
  | _ => false
  end.

(** What the search of [autoUpdateKeyframes] holds in [r], its two
    variables, after the keyframes [pre]. *)
Definition closest_inv (currentTime : float) (pre : list Keyframe.t)
    (r : option nat * float) : Prop :=
  is_nan r.2 = false
  /\ Forall (fun kf => (distance currentTime kf <? r.2) = false) pre
  /\ match r.1 with
     | None => r.2 = infinity
     | Some index =>
         exists kf, nearest currentTime pre index kf
                    /\ r.2 = distance currentTime kf
     end.

(** A keyframe [kf'] after a re-capture in the state [w], against the
    keyframe [kf] it was: the same time, and either the same snapshot array
    or an array that did not exist and holds, in the new heap [h'], the live
    entities as they are in [w]. *)
Definition kept_or_current (w : World) (h' : Heap.t) (kf kf' : Keyframe.t)
  : Prop :=
  Keyframe.time kf' = Keyframe.time kf
  /\ (Keyframe.positions kf' = Keyframe.positions kf
      \/ (Heap.arrays (heap w) !! Keyframe.positions kf' = None
          /\ snapshot h' (Keyframe.positions kf')
             = map (Heap.read (heap w)) (ideas w))).

(** [w'] is [w] but for keyframes that were re-captured: only the keyframe
    list and the heap differ, keyframe by keyframe the time stays and the
    snapshot is the old array or a new one of the current positions, and
    the objects and arrays of [w] are as they were. *)
Definition recaptured (w w' : World) : Prop :=
  w' = with_heap (heap w')
         (with_data (set_keyframes (keyframes (data w')) (data w)) w)
  /\ Forall2 (kept_or_current w (heap w'))
       (keyframes (data w)) (keyframes (data w'))
  /\ (forall l, allocated (heap w) l ->
        Heap.read (heap w') l = Heap.read (heap w) l)
  /\ (forall b, (b < length (Heap.arrays (heap w)))%nat ->
        Heap.read_array (heap w') b = Heap.read_array (heap w) b).

(** The test of the search of [interpolateBubblePositions] on two adjacent
    keyframes:
    [currentTime >= currentKeyframe.time && currentTime <= nextKeyframe.time]. *)
Definition encloses (currentTime : float) (a b : Keyframe.t) : bool :=
  JS.ge currentTime (Keyframe.time a) && (currentTime <=? Keyframe.time b).

(** What [replace(/:/g, '-')] does to a character. *)
Definition colon_to_dash (c : ascii) : ascii :=
  if Ascii.eqb c ":" then "-"%char else c.

(** ** Video playlists *)

(** The playlist variables of the video player: the playlists uploaded or
    pre-loaded, the index of the current one, the URLs of the playlist being
    played and the index of the current video, the flag that guards
    uploads, and the alerts raised.  The indices are JavaScript numbers that
    hold integers.  The player's frame, the title cache that the display
    refills and the rest of the DOM are not modelled. *)
Module Video.
Record Playlist := mkPlaylist {
  name : string;
  urls : list string
}.

(** What an [alert] of the playlist upload says: to select a .txt file,
    that the file holds no YouTube URL, or that the playlist of the given
    name was uploaded with the given number of videos. *)
Inductive notice :=
| SelectTxt
| NoYouTubeUrls
| Uploaded (playlistName : string) (videos : nat).

Record t := mk {
  uploadedPlaylists : list Playlist;
  currentPlaylistIndex : Z;
  videoPlaylist : list string;
  videoCurrentIndex : Z;
  isUploadingPlaylist : bool;
  alerts : list notice
}.

Definition set_videoCurrentIndex (i : Z) (v : t) : t :=
  mk (uploadedPlaylists v) (currentPlaylistIndex v) (videoPlaylist v) i
    (isUploadingPlaylist v) (alerts v).
Definition set_isUploadingPlaylist (b : bool) (v : t) : t :=
  mk (uploadedPlaylists v) (currentPlaylistIndex v) (videoPlaylist v)
    (videoCurrentIndex v) b (alerts v).
Definition alert (n : notice) (v : t) : t :=
  mk (uploadedPlaylists v) (currentPlaylistIndex v) (videoPlaylist v)
    (videoCurrentIndex v) (isUploadingPlaylist v) (alerts v ++ [n]).
End Video.

(** [l.length] and [l[i]] for an integer [i]; [None] is [undefined]. *)
Definition len {A : Type} (l : list A) : Z := Z.of_nat (length l).
Definition at_index {A : Type} (l : list A) (i : Z) : option A :=
  if (i <? 0)%Z then None else l !! Z.to_nat i.

(** The statements that [nextPlaylist], [previousPlaylist] and
    [loadUploadedPlaylist] share: [currentPlaylistIndex = index],
    [videoPlaylist = uploadedPlaylists[index].urls], [videoCurrentIndex = 0].
    Reading [urls] of [undefined] throws, once the index is assigned. *)
Definition selectPlaylist (index : Z) (v : Video.t) : Video.t :=
  match at_index (Video.uploadedPlaylists v) index with
  | Some playlist =>
      Video.mk (Video.uploadedPlaylists v) index (Video.urls playlist) 0
        (Video.isUploadingPlaylist v) (Video.alerts v)
  | None =>
      Video.mk (Video.uploadedPlaylists v) index (Video.videoPlaylist v)
        (Video.videoCurrentIndex v) (Video.isUploadingPlaylist v)
        (Video.alerts v)
  end.

(** The index that [nextPlaylist] and [previousPlaylist] start from: an
    index out of range is replaced by 0. *)
Definition initializedIndex (v : Video.t) : Z :=
  if (Video.currentPlaylistIndex v <? 0)%Z
     || (len (Video.uploadedPlaylists v) <=? Video.currentPlaylistIndex v)%Z
  then 0%Z
  else Video.currentPlaylistIndex v.

(** [nextPlaylist()], up to the redrawing of the list; [%] on integers is
    the remainder of the truncated division. *)
Definition nextPlaylist (v : Video.t) : Video.t :=
  if (len (Video.uploadedPlaylists v) =? 0)%Z then v
  else
    let currentPlaylistIndex := initializedIndex v in
    let newIndex :=
      Z.rem (currentPlaylistIndex + 1) (len (Video.uploadedPlaylists v)) in
    selectPlaylist newIndex v.

(** [previousPlaylist()], up to the redrawing of the list. *)
Definition previousPlaylist (v : Video.t) : Video.t :=
  if (len (Video.uploadedPlaylists v) =? 0)%Z then v
  else
    let currentPlaylistIndex := initializedIndex v in
    let newIndex :=
      if (currentPlaylistIndex =? 0)%Z
      then (len (Video.uploadedPlaylists v) - 1)%Z
      else (currentPlaylistIndex - 1)%Z in
    selectPlaylist newIndex v.

(** [loadUploadedPlaylist(index)] *)
Definition loadUploadedPlaylist (index : Z) (v : Video.t) : Video.t :=
  if (index <? 0)%Z || (len (Video.uploadedPlaylists v) <=? index)%Z then v
  else selectPlaylist index v.

(** [videoPlayVideo(index)], on the playlist variables. *)
Definition videoPlayVideo (index : Z) (v : Video.t) : Video.t :=
  if (index <? 0)%Z || (len (Video.videoPlaylist v) <=? index)%Z then v
  else Video.set_videoCurrentIndex index v.

(** [videoNext()] *)
Definition videoNext (v : Video.t) : Video.t :=
  if (0 <? len (Video.videoPlaylist v))%Z then
    let v := Video.set_videoCurrentIndex
               (Z.rem (Video.videoCurrentIndex v + 1)
                  (len (Video.videoPlaylist v))) v in
    videoPlayVideo (Video.videoCurrentIndex v) v
  else v.

(** [videoPrev()] *)
Definition videoPrev (v : Video.t) : Video.t :=
  if (0 <? len (Video.videoPlaylist v))%Z then
    let v := Video.set_videoCurrentIndex
               (if (Video.videoCurrentIndex v =? 0)%Z
                then (len (Video.videoPlaylist v) - 1)%Z
                else (Video.videoCurrentIndex v - 1)%Z) v in
    videoPlayVideo (Video.videoCurrentIndex v) v
  else v.

(** [s.toLowerCase()] on the letters A to Z, the only characters whose
    lower case is a letter of [".txt"]. *)
Definition lower (c : ascii) : ascii :=
  let n := nat_of_ascii c in
  if (65 <=? n)%nat && (n <=? 90)%nat then ascii_of_nat (n + 32) else c.
Fixpoint toLowerCase (s : string) : string :=
  match s with
  | EmptyString => EmptyString
  | String c rest => String (lower c) (toLowerCase rest)
  end.

(** [s.endsWith(suffix)] *)
Definition endsWith (suffix s : string) : bool :=
  (String.length suffix <=? String.length s)%nat
  && String.eqb
       (substring (String.length s - String.length suffix)
          (String.length suffix) s)
       suffix.

(** [s.includes(sub)] *)
Fixpoint includes (sub s : string) : bool :=
  String.prefix sub s
  || match s with
     | EmptyString => false
     | String _ rest => includes sub rest
     end.

(** [s.replace(pattern, '')] for a string [pattern]: the first occurrence
    is removed. *)
Fixpoint removeFirst (pattern s : string) : string :=
  if String.prefix pattern s
  then substring (String.length pattern)
         (String.length s - String.length pattern) s
  else match s with
       | EmptyString => EmptyString
       | String c rest => String c (removeFirst pattern rest)
       end.

(** [[...new Set(l)]]: the elements of [l] in the order of their first
    occurrence; [seen] holds the elements met so far. *)
Fixpoint uniqueFrom (seen l : list string) : list string :=
  match l with
  | [] => []
  | x :: rest =>
      if existsb (String.eqb x) seen then uniqueFrom seen rest
      else x :: uniqueFrom (x :: seen) rest
  end.
Definition unique (l : list string) : list string := uniqueFrom [] l.

(** [uploadPlaylist()] up to the start of the reading; [file] is the name
    of [fileInput.files[0]], [None] when no file is selected. *)
Definition uploadPlaylist (file : option string) (v : Video.t) : Video.t :=
  if Video.isUploadingPlaylist v then v
  else
    let v := Video.set_isUploadingPlaylist true v in
    match file with
    | None => Video.alert Video.SelectTxt v
    | Some name =>
        if negb (endsWith ".txt" (toLowerCase name))
        then Video.alert Video.SelectTxt v
        else Video.set_isUploadingPlaylist false v
    end.

(** [line.includes('youtube.com') || line.includes('youtu.be')] *)
Definition isYouTube (line : string) : bool :=
  includes "youtube.com" line || includes "youtu.be" line.

(** The [reader.onload] handler of [uploadPlaylist()]; [fileName] is
    [file.name] and [lines] is
    [content.split('\n').filter(line => line.trim() !== '')]. *)
Definition playlistRead (fileName : string) (lines : list string)
    (v : Video.t) : Video.t :=
  let youtubeUrls := List.filter isYouTube lines in
  if (length youtubeUrls =? 0)%nat then Video.alert Video.NoYouTubeUrls v
  else
    let uniqueUrls := unique youtubeUrls in
    let playlistName := removeFirst ".txt" fileName in
    let stored := Video.mkPlaylist playlistName youtubeUrls in
    let uploaded := Video.Uploaded playlistName (length youtubeUrls) in
    match findIndex (fun p => String.eqb (Video.name p) playlistName)
            (Video.uploadedPlaylists v) with
    | None =>
        Video.mk (Video.uploadedPlaylists v ++ [stored])
          (len (Video.uploadedPlaylists v ++ [stored]) - 1)%Z
          uniqueUrls 0 (Video.isUploadingPlaylist v)
          (Video.alerts v ++ [uploaded])
    | Some existingIndex =>
        Video.mk (<[existingIndex := stored]> (Video.uploadedPlaylists v))
          (Z.of_nat existingIndex)
          uniqueUrls 0 (Video.isUploadingPlaylist v)
          (Video.alerts v ++ [uploaded])
    end.

(** The operations on the playlists, for sequences of them. *)
Inductive playlist_op :=
| NextPlaylist
| PreviousPlaylist
| LoadUploadedPlaylist (index : Z)
| VideoNext
| VideoPrev
| VideoPlayVideo (index : Z)
| UploadPlaylist (file : option string)
| PlaylistRead (fileName : string) (lines : list string).

Definition playlist_step (op : playlist_op) (v : Video.t) : Video.t :=
  match op with
  | NextPlaylist => nextPlaylist v
  | PreviousPlaylist => previousPlaylist v
  | LoadUploadedPlaylist index => loadUploadedPlaylist index v
  | VideoNext => videoNext v
  | VideoPrev => videoPrev v
  | VideoPlayVideo index => videoPlayVideo index v
  | UploadPlaylist file => uploadPlaylist file v
  | PlaylistRead fileName lines => playlistRead fileName lines v
  end.

(** The page as [media.js] starts it: no playlist, index -1. *)
Definition initialVideo (videoPlaylist : list string) (videoCurrentIndex : Z)
  : Video.t :=
  Video.mk [] (-1) videoPlaylist videoCurrentIndex false [].

(** The current playlist is selected: the index designates an uploaded
    playlist, whose URLs are the ones being played, from the first. *)
Definition selected (v : Video.t) : Prop :=
  exists playlist,
    at_index (Video.uploadedPlaylists v) (Video.currentPlaylistIndex v)
    = Some playlist
    /\ Video.videoPlaylist v = Video.urls playlist
    /\ Video.videoCurrentIndex v = 0%Z.

Definition playlist_run (ops : list playlist_op) (v : Video.t) : Video.t :=
  fold_left (fun v op => playlist_step op v) ops v.

(** A recording begun with duration [D]: the list starts with the two
    keyframes that "start" stores, at times 0 and [D / 1000]; [rest] holds
    the keyframes added since. *)
Definition begun_with (D : float) (ks : list Keyframe.t) : Prop :=
  exists a b rest,
    ks = Keyframe.mk 0 a :: Keyframe.mk (D / 1000) b :: rest.

(** What happens between "start" and "end": a "keyframe" call with the
    slider at the given position, or the script that owns the entities
    overwriting the live entity at the given index of [ideas]. *)
Inductive session_op :=
| SKeyframe (slider : float)
| SMove (index : nat) (o : Idea.t).

Definition move (index : nat) (o : Idea.t) (w : World) : World :=
  match ideas w !! index with
  | Some l => with_heap (Heap.write (heap w) l o) w
  | None => w
  end.

Definition session_step (D : float) (op : session_op) (w : World) : World :=
  match op with
  | SKeyframe slider => recordState "keyframe" (mkControls D slider) w
  | SMove index o => move index o w
  end.

(** A recording session: "start", then keyframes added and entities moved
    in any order, then "end" or not; the duration selector stays at [D]. *)
Definition session (D : float) (startSlider : float) (ops : list session_op)
    (endSlider : option float) (w : World) : World :=
  let w := recordState "start" (mkControls D startSlider) w in
  let w := fold_left (fun w op => session_step D op w) ops w in
  match endSlider with
  | Some slider => recordState "end" (mkControls D slider) w
  | None => w
  end.

(** As [begun_with], with the two keyframes of "start" still referring to
    one and the same snapshot array [a], as "start" leaves them. *)
Definition begun_same (D : float) (a : loc) (ks : list Keyframe.t) : Prop :=
  exists rest,
    ks = Keyframe.mk 0 a :: Keyframe.mk (D / 1000) a :: rest.

(** The snapshot array [a] is settled in [w]: it exists, its objects are
    allocated and none is a live entity, and it holds [snap]. *)
Definition frozen (w : World) (a : loc) (snap : list Idea.t) : Prop :=
  (a < length (Heap.arrays (heap w)))%nat
  /\ Forall (fun l => allocated (heap w) l /\ l ∉ ideas w)
       (Heap.read_array (heap w) a)
  /\ snapshot (heap w) a = snap.

(** ** Loading *)

(** The markers other than keyframe markers all have a number as time. *)
Definition numeric_but_keyframe (timelineMarkers : list Marker.t) : bool :=
  forallb (fun m => String.eqb (Marker.type m) "keyframe"
                    || is_number (Marker.time m))
    timelineMarkers.

(** Whether the loading handler gets through the statements that follow the
    assignment of [animationData], for the keyframes [els], the out point
    and the duration it has stored there: the page has the duration
    selector, the duration converts to a string, no keyframe is [null], and
    the time of every keyframe and the out point convert to a number; and,
    on a page with the timeline slider, the time of every keyframe and the
    out point are numbers, and so are the times of the markers that the
    handler finds, keyframe markers apart. *)
Definition drawable (page : Page) (timelineMarkers : list Marker.t)
    (els : list json) (outPoint duration : json) : bool :=
  durationSelect page && convertible duration
  && forallb (fun keyframe => negb (is_null keyframe)
                              && convertible_value (getProp keyframe "time"))
       els
  && convertible outPoint
  && (negb (timeline page)
      || (forallb (fun keyframe => is_number (getProp keyframe "time")) els
          && is_number (Some outPoint)
          && numeric_but_keyframe timelineMarkers)).
(** * Properties *)

Local Close Scope string_scope.

(** ** Binary64 arithmetic *)

Lemma SFcompare_refl x : SF_nan x = false -> SFcompare x x = Some Eq.
Proof.
  destruct x as [s|s| |s m e]; simpl; try done; intros _.
  - by destruct s.
  - destruct s; rewrite Z.compare_refl, Pos.compare_cont_refl; reflexivity.
Qed.

Lemma is_nan_spec f : is_nan f = SF_nan (Prim2SF f).
Proof.
  unfold is_nan. rewrite FloatAxioms.eqb_spec. unfold SFeqb.
  destruct (SF_nan (Prim2SF f)) eqn:E.
  - destruct (Prim2SF f); try discriminate. reflexivity.
  - rewrite SFcompare_refl by assumption. reflexivity.
Qed.

Lemma is_zero_spec f : is_zero f = SF_zero (Prim2SF f).
Proof.
  unfold is_zero. rewrite FloatAxioms.eqb_spec. unfold SFeqb.
  change (Prim2SF zero) with (S754_zero false).
  destruct (Prim2SF f) as [s|s| |s m e]; simpl; try reflexivity;
    destruct s; reflexivity.
Qed.

Lemma is_infinity_spec f : is_infinity f = SF_infinite (Prim2SF f).
Proof.
  unfold is_infinity. rewrite FloatAxioms.eqb_spec, abs_spec. unfold SFeqb.
  change (Prim2SF infinity) with (S754_infinity false).
  destruct (Prim2SF f) as [s|s| |s m e]; simpl; reflexivity.
Qed.

Lemma is_finite_spec f : is_finite f = SF_finite (Prim2SF f).
Proof.
  unfold is_finite. rewrite is_nan_spec, is_infinity_spec.
  destruct (Prim2SF f); reflexivity.
Qed.

(** Propagation of NaN and the infinities. *)
Lemma SFdiv_by_zero n d : SF_zero d = true -> SF_finite (SF64div n d) = false.
Proof. destruct n as [?|?| |? ? ?], d as [?|?| |? ? ?]; simpl; done. Qed.

Lemma SFmul_not_finite a f :
  SF_finite f = false -> SF_finite (SF64mul a f) = false.
Proof. destruct a as [?|?| |? ? ?], f as [?|?| |? ? ?]; simpl; done. Qed.

Lemma SFadd_not_finite a g :
  SF_finite g = false -> SF_finite (SF64add a g) = false.
Proof.
  destruct a as [[]|[]| |? ? ?], g as [[]|[]| |? ? ?]; simpl; done.
Qed.

Section Rounding.

Local Open Scope Z_scope.

(** Number of binary digits. *)
Lemma digits2_pos_bounds (m : positive) :
  2 ^ (Zpos (digits2_pos m) - 1) <= Zpos m < 2 ^ Zpos (digits2_pos m).
Proof.
  induction m as [m IH|m IH|]; simpl digits2_pos.
  - rewrite Pos2Z.inj_succ, Z.pow_succ_r by lia.
    replace (Z.succ (Zpos (digits2_pos m)) - 1) with (Zpos (digits2_pos m)) by lia.
    assert (2 ^ Zpos (digits2_pos m) = 2 * 2 ^ (Zpos (digits2_pos m) - 1)).
    { rewrite <- Z.pow_succ_r by lia. f_equal. lia. }
    lia.
  - rewrite Pos2Z.inj_succ, Z.pow_succ_r by lia.
    replace (Z.succ (Zpos (digits2_pos m)) - 1) with (Zpos (digits2_pos m)) by lia.
    assert (2 ^ Zpos (digits2_pos m) = 2 * 2 ^ (Zpos (digits2_pos m) - 1)).
    { rewrite <- Z.pow_succ_r by lia. f_equal. lia. }
    lia.
  - simpl. lia.
Qed.

(** The binade of a positive integer is unique. *)
Lemma binade_unique (v a b : Z) :
  2 ^ (a - 1) <= v < 2 ^ a -> 2 ^ (b - 1) <= v < 2 ^ b ->
  0 < a -> 0 < b -> a = b.
Proof.
  intros Ha Hb Hpa Hpb.
  destruct (Z.lt_trichotomy a b) as [Hlt|[Heq|Hgt]]; [|done|].
  - assert (2 ^ a <= 2 ^ (b - 1)) by (apply Z.pow_le_mono_r; lia). lia.
  - assert (2 ^ b <= 2 ^ (a - 1)) by (apply Z.pow_le_mono_r; lia). lia.
Qed.

Lemma iter_xO_spec (m d : positive) :
  Zpos (Pos.iter xO m d) = Zpos m * 2 ^ Zpos d.
Proof.
  induction d as [|d IH] using Pos.peano_ind.
  - simpl. lia.
  - rewrite Pos.iter_succ, Pos2Z.inj_succ, Z.pow_succ_r by lia.
    rewrite Pos2Z.inj_xO, IH. lia.
Qed.

(** Right shifts of the rounding record. *)
Lemma shr_1_m (r : shr_record) :
  0 <= shr_m r -> shr_m (shr_1 r) = shr_m r / 2.
Proof.
  destruct r as [m rb sb]; simpl. intros Hm.
  destruct m as [|[p|p|]|p]; try lia; cbn [shr_m].
  - reflexivity.
  - apply Z.div_unique with 1; lia.
  - apply Z.div_unique with 0; lia.
  - reflexivity.
Qed.

Lemma pow2_xI (p : positive) : 2 ^ Zpos p~1 = 2 * 2 ^ Zpos p * 2 ^ Zpos p.
Proof.
  replace (Zpos p~1) with (1 + Zpos p + Zpos p) by lia.
  rewrite !Z.pow_add_r by lia. reflexivity.
Qed.

Lemma pow2_xO (p : positive) : 2 ^ Zpos p~0 = 2 ^ Zpos p * 2 ^ Zpos p.
Proof.
  replace (Zpos p~0) with (Zpos p + Zpos p) by lia.
  rewrite !Z.pow_add_r by lia. reflexivity.
Qed.

Lemma iter_shr_1_m (p : positive) : forall r,
  0 <= shr_m r -> shr_m (SpecFloat.iter_pos shr_1 p r) = shr_m r / 2 ^ Zpos p.
Proof.
  induction p as [p IH|p IH|]; intros r Hr; simpl SpecFloat.iter_pos.
  - assert (H1 : 0 <= shr_m (shr_1 r)).
    { rewrite shr_1_m by done. apply Z.div_pos; lia. }
    assert (H2 : 0 <= shr_m (SpecFloat.iter_pos shr_1 p (shr_1 r))).
    { rewrite IH by done. apply Z.div_pos; lia. }
    rewrite IH, IH, shr_1_m by done.
    rewrite !Z.div_div by lia. f_equal. rewrite pow2_xI. lia.
  - assert (H2 : 0 <= shr_m (SpecFloat.iter_pos shr_1 p r)).
    { rewrite IH by done. apply Z.div_pos; lia. }
    rewrite IH, IH by done.
    rewrite !Z.div_div by lia. f_equal. rewrite pow2_xO. lia.
  - rewrite shr_1_m by done. reflexivity.
Qed.

Lemma fexp64_eq (k : Z) : fexp prec emax k = Z.max (k - 53) (-1074).
Proof. reflexivity. Qed.

Lemma shr_record_of_loc_m (m : Z) (l : location) :
  shr_m (shr_record_of_loc m l) = m.
Proof. by destruct l as [|[]]. Qed.

(** Shifting a positive mantissa down to its canonical exponent never
    empties it, and the exponent stays at or above the least one. *)
Lemma shr_fexp_pos (m e : Z) (l : location) :
  0 < m -> -1074 <= e ->
  0 < shr_m (shr_fexp prec emax m e l).1
  /\ -1074 <= (shr_fexp prec emax m e l).2.
Proof.
  intros Hm He. unfold shr_fexp, shr. rewrite fexp64_eq.
  destruct m as [|p|p]; try lia. simpl Zdigits2.
  pose proof (digits2_pos_bounds p) as Hd.
  set (d := Zpos (digits2_pos p)) in *.
  destruct (Z.max (d + e - 53) (-1074) - e) as [|q|q] eqn:En; simpl;
    rewrite ?shr_record_of_loc_m; try lia.
  rewrite iter_shr_1_m by (rewrite shr_record_of_loc_m; lia).
  rewrite shr_record_of_loc_m. split; [|lia].
  apply Z.div_str_pos. split; [lia|].
  transitivity (2 ^ (d - 1)); [|lia].
  apply Z.pow_le_mono_r; lia.
Qed.

Lemma round_nearest_even_ge (m : Z) (l : location) :
  m <= round_nearest_even m l.
Proof.
  destruct l as [|[]]; simpl; try lia. destruct (Z.even m); lia.
Qed.

(** Rounding a positive integer mantissa yields a non-zero number of the
    given sign: a finite one or, on overflow, an infinity. *)
Lemma binary_round_aux_class (s : bool) (m e : Z) (l : location) :
  0 < m -> -1074 <= e ->
  match binary_round_aux prec emax s m e l with
  | S754_finite s' _ _ | S754_infinity s' => s' = s
  | _ => False
  end.
Proof.
  intros Hm He. unfold binary_round_aux.
  destruct (shr_fexp_pos m e l Hm He) as [Hm1 He1].
  destruct (shr_fexp prec emax m e l) as [mrs' e']; simpl in Hm1, He1.
  pose proof (round_nearest_even_ge (shr_m mrs') (loc_of_shr_record mrs')) as Hr.
  set (m1 := round_nearest_even (shr_m mrs') (loc_of_shr_record mrs')) in *.
  destruct (shr_fexp_pos m1 e' loc_Exact ltac:(lia) He1) as [Hm2 He2].
  destruct (shr_fexp prec emax m1 e' loc_Exact) as [mrs'' e'']; simpl in Hm2, He2.
  destruct (shr_m mrs''); try lia.
  by destruct (e'' <=? emax - prec).
Qed.

Lemma shl_align_spec (m : positive) (e e' : Z) :
  Zpos (shl_align m e e').1 = Zpos m * 2 ^ (e - (shl_align m e e').2)
  /\ (shl_align m e e').2 = Z.min e e'.
Proof.
  unfold shl_align. destruct (e' - e) as [|d|d] eqn:Ed; simpl.
  - rewrite Z.sub_diag. split; lia.
  - rewrite Z.sub_diag. split; lia.
  - rewrite iter_xO_spec. split; [|lia]. f_equal. f_equal. lia.
Qed.

Lemma binary_round_class (s : bool) (m : positive) (e : Z) :
  -1074 <= e ->
  match binary_round prec emax s m e with
  | S754_finite s' _ _ | S754_infinity s' => s' = s
  | _ => False
  end.
Proof.
  intros He. unfold binary_round.
  pose proof (shl_align_spec m e (fexp prec emax (Zpos (digits2_pos m) + e)))
    as [_ H2].
  destruct (shl_align m e _) as [mz ez]; simpl in H2.
  apply binary_round_aux_class; [lia|].
  rewrite H2, fexp64_eq. lia.
Qed.

Lemma bounded_inv (m : positive) (e : Z) :
  bounded prec emax m e = true ->
  Z.max (Zpos (digits2_pos m) + e - 53) (-1074) = e /\ e <= 971.
Proof.
  unfold bounded, canonical_mantissa. rewrite fexp64_eq.
  intros [H1 H2]%andb_prop. apply Z.eqb_eq in H1. apply Z.leb_le in H2.
  split; [exact H1 | exact H2].
Qed.

(** Two canonical mantissas that denote the same number once aligned are
    the same representation. *)
Lemma aligned_eq (mx my : positive) (ex ey : Z) :
  bounded prec emax mx ex = true -> bounded prec emax my ey = true ->
  Zpos mx * 2 ^ (ex - Z.min ex ey) = Zpos my * 2 ^ (ey - Z.min ex ey) ->
  mx = my /\ ex = ey.
Proof.
  intros [Hx _]%bounded_inv [Hy _]%bounded_inv Heq.
  pose proof (digits2_pos_bounds mx) as Bx.
  pose proof (digits2_pos_bounds my) as By.
  set (dx := Zpos (digits2_pos mx)) in *.
  set (dy := Zpos (digits2_pos my)) in *.
  set (ez := Z.min ex ey) in *.
  assert (Hdx : 0 < dx) by (subst dx; lia).
  assert (Hdy : 0 < dy) by (subst dy; lia).
  assert (Hkx : 0 <= ex - ez) by lia.
  assert (Hky : 0 <= ey - ez) by lia.
  assert (Px : 0 < 2 ^ (ex - ez)) by (apply Z.pow_pos_nonneg; lia).
  assert (Py : 0 < 2 ^ (ey - ez)) by (apply Z.pow_pos_nonneg; lia).
  assert (HX : 2 ^ (dx + (ex - ez) - 1) <= Zpos mx * 2 ^ (ex - ez)
               < 2 ^ (dx + (ex - ez))).
  { replace (dx + (ex - ez) - 1) with ((dx - 1) + (ex - ez)) by lia.
    rewrite !Z.pow_add_r by lia. nia. }
  assert (HY : 2 ^ (dy + (ey - ez) - 1) <= Zpos my * 2 ^ (ey - ez)
               < 2 ^ (dy + (ey - ez))).
  { replace (dy + (ey - ez) - 1) with ((dy - 1) + (ey - ez)) by lia.
    rewrite !Z.pow_add_r by lia. nia. }
  rewrite Heq in HX.
  assert (Hd : dx + (ex - ez) = dy + (ey - ez))
    by (eapply binade_unique; [exact HX | exact HY | lia | lia]).
  assert (He : ex = ey) by lia.
  split; [|exact He].
  subst ey. replace (ex - ez) with 0 in Heq by lia.
  simpl in Heq. lia.
Qed.

(** The difference of two finite numbers that are not [==] is neither zero
    nor NaN: with gradual underflow a subtraction cannot cancel to zero. *)
Lemma SFsub_nonzero (x y : spec_float) :
  valid_binary x = true -> valid_binary y = true ->
  SF_finite x = true -> SF_finite y = true ->
  SFeqb x y = false ->
  SF_zero (SF64sub x y) = false /\ SF_nan (SF64sub x y) = false.
Proof.
  intros Vx Vy Fx Fy Hne.
  destruct x as [sx|sx| |sx mx ex], y as [sy|sy| |sy my ey];
    try discriminate; try done.
  unfold valid_binary in Vx, Vy.
  unfold SF64sub, SFsub.
  {
    pose proof (shl_align_spec mx ex (Z.min ex ey)) as [HX HXe].
    pose proof (shl_align_spec my ey (Z.min ex ey)) as [HY HYe].
    rewrite HXe in HX. rewrite HYe in HY.
    replace (Z.min ex (Z.min ex ey)) with (Z.min ex ey) in HX by lia.
    replace (Z.min ey (Z.min ex ey)) with (Z.min ex ey) in HY by lia.
    destruct (bounded_inv _ _ Vx) as [Hcx _], (bounded_inv _ _ Vy) as [Hcy _].
    set (X := (shl_align mx ex (Z.min ex ey)).1) in *.
    set (Y := (shl_align my ey (Z.min ex ey)).1) in *.
    change (fst (shl_align mx ex (Z.min ex ey))) with X.
    change (fst (shl_align my ey (Z.min ex ey))) with Y.
    destruct (cond_Zopp sx (Zpos X) - cond_Zopp sy (Zpos Y)) as [|M|M] eqn:EM;
      simpl binary_normalize.
    + exfalso.
      destruct sx, sy; simpl in EM; try lia.
      * assert (Heq : Zpos mx * 2 ^ (ex - Z.min ex ey)
                      = Zpos my * 2 ^ (ey - Z.min ex ey)) by lia.
        destruct (aligned_eq _ _ _ _ Vx Vy Heq) as [-> ->].
        unfold SFeqb in Hne.
        rewrite (SFcompare_refl (S754_finite true my ey)) in Hne; done.
      * assert (Heq : Zpos mx * 2 ^ (ex - Z.min ex ey)
                      = Zpos my * 2 ^ (ey - Z.min ex ey)) by lia.
        destruct (aligned_eq _ _ _ _ Vx Vy Heq) as [-> ->].
        unfold SFeqb in Hne.
        rewrite (SFcompare_refl (S754_finite false my ey)) in Hne; done.
    + pose proof (binary_round_class false M (Z.min ex ey) ltac:(lia)) as Hc.
      destruct (binary_round prec emax false M (Z.min ex ey)); done.
    + pose proof (binary_round_class true M (Z.min ex ey) ltac:(lia)) as Hc.
      destruct (binary_round prec emax true M (Z.min ex ey)); done.
  }
Qed.

Lemma SFcompare_Eq_finite s1 m1 e1 s2 m2 e2 :
  SFcompare (S754_finite s1 m1 e1) (S754_finite s2 m2 e2) = Some Eq ->
  s1 = s2 /\ m1 = m2 /\ e1 = e2.
Proof.
  simpl. destruct s1, s2; try discriminate;
    destruct (e1 ?= e2) eqn:Ee; try discriminate; intros [= Hm];
    apply Z.compare_eq in Ee; subst.
  - destruct (Pos.compare_cont Eq m1 m2) eqn:Em; try discriminate.
    apply Pcompare_Eq_eq in Em. by subst.
  - apply Pcompare_Eq_eq in Hm. by subst.
Qed.

(** The difference of two finite numbers that are [==] is a zero. *)
Lemma SFsub_eq_zero (x y : spec_float) :
  SF_finite x = true -> SFeqb x y = true -> SF_zero (SF64sub y x) = true.
Proof.
  intros Fx Heq. unfold SFeqb in Heq.
  destruct (SFcompare x y) as [[]|] eqn:E; try discriminate. clear Heq.
  destruct x as [sx|sx| |sx mx ex], y as [sy|sy| |sy my ey];
    try discriminate;
    try (simpl in E; destruct sx; discriminate);
    try (simpl in E; destruct sy; discriminate).
  - by destruct sx, sy.
  - apply SFcompare_Eq_finite in E as (-> & -> & ->).
    unfold SF64sub, SFsub. by rewrite Z.sub_diag.
Qed.

Lemma SFzero_div (n d : spec_float) :
  SF_zero n = true -> SF_zero d = false -> SF_nan d = false ->
  SF_zero (SF64div n d) = true.
Proof. destruct n as [?|?| |? ? ?], d as [?|?| |? ? ?]; simpl; done. Qed.

Lemma SFmul_zero (a z : spec_float) :
  SF_finite a = true -> SF_zero z = true -> SF_zero (SF64mul a z) = true.
Proof. destruct a as [?|?| |? ? ?], z as [?|?| |? ? ?]; simpl; done. Qed.

Lemma SFadd_zero (a z : spec_float) :
  SF_nan a = false -> SF_zero z = true -> SFeqb (SF64add a z) a = true.
Proof.
  destruct a as [[]|[]| |sa ma ea], z as [[]|?| |? ? ?]; simpl; try done;
    intros _ _; unfold SFeqb;
    by rewrite (SFcompare_refl (S754_finite sa ma ea)).
Qed.

Lemma SFsub_finite (a b : spec_float) :
  SF_finite (SF64sub a b) = true -> SF_finite a = true /\ SF_finite b = true.
Proof.
  destruct a as [[]|[]| |? ? ?], b as [[]|[]| |? ? ?]; simpl; done.
Qed.

(** Exact right shifts. *)
Lemma iter_shr_exact (p : positive) : forall q : positive,
  SpecFloat.iter_pos shr_1 p (Build_shr_record (Zpos q * 2 ^ Zpos p) false false)
  = Build_shr_record (Zpos q) false false.
Proof.
  assert (Hpos : forall (q k : positive), exists r, Zpos q * 2 ^ Zpos k = Zpos r).
  { intros q k. assert (0 < Zpos q * 2 ^ Zpos k) by
      (apply Z.mul_pos_pos; [lia | apply Z.pow_pos_nonneg; lia]).
    destruct (Zpos q * 2 ^ Zpos k) as [|r|r]; try lia. by exists r. }
  induction p as [p IH|p IH|]; intros q.
  - destruct (Hpos q p) as [r Hr].
    destruct (Hpos r p) as [r' Hr'].
    replace (Zpos q * 2 ^ Zpos p~1) with (Zpos r'~0)
      by (rewrite pow2_xI; lia).
    cbn [SpecFloat.iter_pos shr_1 orb].
    rewrite <- Hr', IH, <- Hr, IH. reflexivity.
  - destruct (Hpos q p) as [r Hr].
    replace (Zpos q * 2 ^ Zpos p~0) with (Zpos r * 2 ^ Zpos p)
      by (rewrite pow2_xO; lia).
    cbn [SpecFloat.iter_pos].
    rewrite IH, <- Hr, IH. reflexivity.
  - replace (Zpos q * 2 ^ 1) with (Zpos q~0) by lia. reflexivity.
Qed.

Lemma digits2_iter_xO (m k : positive) :
  Zpos (digits2_pos (Pos.iter xO m k)) = Zpos (digits2_pos m) + Zpos k.
Proof.
  induction k as [|k IH] using Pos.peano_ind.
  - simpl. lia.
  - rewrite Pos.iter_succ. simpl digits2_pos. lia.
Qed.

(** Rounding is the identity on a canonical number written with [k] extra
    low zero bits. *)
Lemma binary_round_aux_scaled (s : bool) (m k : positive) (e : Z) :
  bounded prec emax m e = true ->
  binary_round_aux prec emax s (Zpos (Pos.iter xO m k)) (e - Zpos k) loc_Exact
  = S754_finite s m e.
Proof.
  intros Hb. destruct (bounded_inv m e Hb) as [Hc Hle].
  unfold binary_round_aux.
  assert (H1 : shr_fexp prec emax (Zpos (Pos.iter xO m k)) (e - Zpos k) loc_Exact
               = (Build_shr_record (Zpos m) false false, e)).
  { unfold shr_fexp. simpl Zdigits2. rewrite digits2_iter_xO, fexp64_eq.
    replace (Zpos (digits2_pos m) + Zpos k + (e - Zpos k) - 53)
      with (Zpos (digits2_pos m) + e - 53) by lia.
    rewrite Hc. replace (e - (e - Zpos k)) with (Zpos k) by lia.
    unfold shr. simpl shr_record_of_loc.
    rewrite iter_xO_spec, iter_shr_exact. f_equal. lia. }
  rewrite H1. simpl shr_m. simpl loc_of_shr_record. simpl round_nearest_even.
  assert (H2 : shr_fexp prec emax (Zpos m) e loc_Exact
               = (Build_shr_record (Zpos m) false false, e)).
  { unfold shr_fexp. simpl Zdigits2. rewrite fexp64_eq, Hc, Z.sub_diag.
    reflexivity. }
  rewrite H2. simpl shr_m.
  replace (e <=? emax - prec) with true; [reflexivity|].
  symmetry. apply Z.leb_le. exact Hle.
Qed.


Lemma SFmul_one (x : spec_float) :
  valid_binary x = true -> SF64mul x SF_one = x.
Proof.
  intros V. destruct x as [s|s| |s m e]; simpl; rewrite ?xorb_false_r; try done.
  rewrite Pos.mul_comm.
  change (4503599627370496 * m)%positive with (Pos.iter xO m 52).
  replace (e + -52) with (e - 52) by lia.
  by apply binary_round_aux_scaled.
Qed.

Lemma SFdiv_self (x : spec_float) :
  SF_finite x = true -> SF_zero x = false -> SF64div x x = SF_one.
Proof.
  destruct x as [s|s| |s m e]; try done. intros _ _.
  unfold SF64div, SFdiv, SFdiv_core_binary.
  rewrite !Z.sub_diag, xorb_nilpotent.
  replace (Z.min (fexp prec emax 0) 0) with (-53) by reflexivity.
  replace (0 - -53) with 53 by reflexivity.
  cbv iota.
  rewrite (Z.shiftl_mul_pow2 (Zpos m) 53) by lia.
  assert (Hq : Z.div_eucl (Zpos m * 2 ^ 53) (Zpos m) = (2 ^ 53, 0)).
  { transitivity ((Zpos m * 2 ^ 53) / Zpos m, (Zpos m * 2 ^ 53) mod Zpos m).
    - unfold Z.div, Z.modulo.
      by destruct (Z.div_eucl (Zpos m * 2 ^ 53) (Zpos m)).
    - rewrite (Z.mul_comm (Zpos m)), Z.div_mul, Z.mod_mul by lia.
      reflexivity. }
  rewrite Hq.
  assert (Hl : new_location (Zpos m) 0 = loc_Exact).
  { unfold new_location. by destruct (Z.even (Zpos m)). }
  rewrite Hl. reflexivity.
Qed.

(** *** Division by a smaller positive number *)

Lemma digits_lower (m : positive) (t : Z) :
  2 ^ t <= Zpos m -> 0 <= t -> t + 1 <= Zpos (digits2_pos m).
Proof.
  intros Hm Ht. pose proof (digits2_pos_bounds m) as [_ Hu].
  destruct (Z_lt_le_dec t (Zpos (digits2_pos m))) as [|Hge]; [lia|].
  assert (2 ^ Zpos (digits2_pos m) <= 2 ^ t) by (apply Z.pow_le_mono_r; lia).
  lia.
Qed.

(** On a mantissa of at least 53 bits the alignment shift is by the excess
    digits, and at least 53 bits remain. *)
Lemma shr_fexp_normal (m : positive) (e : Z) (l : location) :
  2 ^ 52 <= Zpos m -> -1074 <= e ->
  shr_m (shr_fexp prec emax (Zpos m) e l).1
    = Zpos m / 2 ^ (Zpos (digits2_pos m) - 53)
  /\ (shr_fexp prec emax (Zpos m) e l).2 = e + Zpos (digits2_pos m) - 53
  /\ 2 ^ 52 <= Zpos m / 2 ^ (Zpos (digits2_pos m) - 53).
Proof.
  intros Hm He.
  pose proof (digits_lower m 52 Hm ltac:(lia)) as Hd.
  pose proof (digits2_pos_bounds m) as [Hlo _].
  set (d := Zpos (digits2_pos m)) in *.
  assert (Hq : 2 ^ 52 <= Zpos m / 2 ^ (d - 53)).
  { apply Z.div_le_lower_bound; [apply Z.pow_pos_nonneg; lia|].
    rewrite <- Z.pow_add_r by lia.
    replace (d - 53 + 52) with (d - 1) by lia. exact Hlo. }
  unfold shr_fexp, shr. rewrite fexp64_eq. simpl Zdigits2. fold d.
  replace (Z.max (d + e - 53) (-1074) - e) with (d - 53) by lia.
  destruct (d - 53) as [|p|p] eqn:Ep; try lia; simpl fst; simpl snd.
  - rewrite shr_record_of_loc_m, Z.div_1_r. repeat split; lia.
  - rewrite iter_shr_1_m by (rewrite shr_record_of_loc_m; lia).
    rewrite shr_record_of_loc_m. repeat split; lia.
Qed.

Lemma SFleb_one_finite (m : positive) (e : Z) :
  2 ^ 52 <= Zpos m -> -52 <= e -> SFleb SF_one (S754_finite false m e) = true.
Proof.
  intros Hm He. unfold SFleb, SF_one. cbv beta iota delta [SFcompare].
  destruct (Z.compare_spec (-52) e) as [Ee|Ee|Ee]; [|reflexivity|lia].
  destruct (Pos.compare_cont Eq 4503599627370496 m) eqn:Ep;
    [reflexivity | reflexivity |].
  change (Pos.compare_cont Eq 4503599627370496 m)
    with (4503599627370496 ?= m)%positive in Ep.
  apply Pos.compare_gt_iff, Pos2Z.pos_lt_pos in Ep.
  change (2 ^ 52) with 4503599627370496 in Hm. lia.
Qed.

(** Rounding a mantissa of at least 53 bits whose value is at least 1. *)
Lemma binary_round_aux_ge_one (q : positive) (e : Z) (l : location) :
  2 ^ 52 <= Zpos q -> -1074 <= e -> 1 <= Zpos (digits2_pos q) + e ->
  SFleb SF_one (binary_round_aux prec emax false (Zpos q) e l) = true.
Proof.
  intros Hq He Hv. unfold binary_round_aux.
  destruct (shr_fexp_normal q e l Hq He) as (Hm1 & He1 & Hb1).
  destruct (shr_fexp prec emax (Zpos q) e l) as [mrs' e1]; simpl in Hm1, He1.
  pose proof (round_nearest_even_ge (shr_m mrs') (loc_of_shr_record mrs')) as Hr.
  destruct (round_nearest_even (shr_m mrs') (loc_of_shr_record mrs'))
    as [|m1|m1] eqn:Em1; try lia.
  assert (Hm1' : 2 ^ 52 <= Zpos m1) by lia.
  destruct (shr_fexp_normal m1 e1 loc_Exact Hm1' ltac:(lia)) as (Hm2 & He2 & Hb2).
  pose proof (digits_lower m1 52 Hm1' ltac:(lia)) as Hd1.
  destruct (shr_fexp prec emax (Zpos m1) e1 loc_Exact) as [mrs'' e2];
    simpl in Hm2, He2.
  rewrite Hm2.
  destruct (Zpos m1 / 2 ^ (Zpos (digits2_pos m1) - 53)) as [|m2|m2] eqn:Em2;
    try lia.
  destruct (e2 <=? emax - prec); [|reflexivity].
  apply SFleb_one_finite; lia.
Qed.

(** The quotient of the division core, for positive canonical operands of
    which the first is at least the second. *)
Lemma SFdiv_core_ge_one (mx my : positive) (ex ey : Z) :
  bounded prec emax mx ex = true -> bounded prec emax my ey = true ->
  (ey < ex \/ (ey = ex /\ Zpos my <= Zpos mx)) ->
  exists (q : positive) (e' : Z) (l : location),
    SFdiv_core_binary prec emax (Zpos mx) ex (Zpos my) ey = (Zpos q, e', l)
    /\ 2 ^ 52 <= Zpos q /\ -1074 <= e' /\ 1 <= Zpos (digits2_pos q) + e'.
Proof.
  intros [Hcx _]%bounded_inv [Hcy _]%bounded_inv Hge.
  pose proof (digits2_pos_bounds mx) as [Hxl Hxu].
  pose proof (digits2_pos_bounds my) as [Hyl Hyu].
  unfold SFdiv_core_binary. simpl Zdigits2. rewrite fexp64_eq.
  set (dx := Zpos (digits2_pos mx)) in *.
  set (dy := Zpos (digits2_pos my)) in *.
  assert (Hdx : 1 <= dx <= 53) by (subst dx; lia).
  assert (Hdy : 1 <= dy <= 53) by (subst dy; lia).
  assert (Hd : dy <= dx /\ ey <= ex).
  { destruct Hge as [Hlt | [-> Hm]]; [lia|]. split; [|lia].
    destruct (Z_lt_le_dec dx dy) as [Hlt|]; [|lia].
    assert (2 ^ dx <= 2 ^ (dy - 1)) by (apply Z.pow_le_mono_r; lia). lia. }
  destruct Hd as [Hd He].
  (* A = mx * 2^(ex - ey) is at least my *)
  assert (HA : Zpos my <= Zpos mx * 2 ^ (ex - ey)).
  { destruct Hge as [Hlt | [-> Hm]].
    - assert (dx = 53) by lia.
      assert (2 ^ 1 <= 2 ^ (ex - ey)) by (apply Z.pow_le_mono_r; lia).
      assert (2 ^ dy <= 2 ^ 53) by (apply Z.pow_le_mono_r; lia).
      replace (dx - 1) with 52 in Hxl by lia.
      change (2 ^ 1) with 2 in *.
      change (2 ^ 53) with (2 * 2 ^ 52) in *. nia.
    - rewrite Z.sub_diag. simpl. lia. }
  set (e' := dx + ex - (dy + ey) - 53).
  replace (Z.min (Z.max e' (-1074)) (ex - ey)) with e' by (subst e'; lia).
  replace (ex - ey - e') with (53 + dy - dx) by (subst e'; lia).
  destruct (53 + dy - dx) as [|sp|sp] eqn:Es; try lia.
  rewrite Z.shiftl_mul_pow2 by lia. rewrite <- Es.
  set (m' := Zpos mx * 2 ^ (53 + dy - dx)).
  assert (Hm'l : 2 ^ (52 + dy) <= m').
  { subst m'. replace (52 + dy) with ((dx - 1) + (53 + dy - dx)) by lia.
    rewrite Z.pow_add_r by lia.
    apply Z.mul_le_mono_nonneg_r; [apply Z.pow_nonneg; lia | exact Hxl]. }
  assert (Hq52 : 2 ^ 52 <= m' / Zpos my).
  { apply Z.div_le_lower_bound; [lia|].
    transitivity (2 ^ (52 + dy)); [|exact Hm'l].
    rewrite Z.pow_add_r by lia.
    assert (0 < 2 ^ 52) by (apply Z.pow_pos_nonneg; lia). nia. }
  assert (Hqe : Z.div_eucl m' (Zpos my) = (m' / Zpos my, m' mod Zpos my)).
  { unfold Z.div, Z.modulo. by destruct (Z.div_eucl m' (Zpos my)). }
  rewrite Hqe.
  destruct (m' / Zpos my) as [|q|q] eqn:Eq;
    try (assert (0 < 2 ^ 52) by (apply Z.pow_pos_nonneg; lia); lia).
  exists q, e', (new_location (Zpos my) (m' mod Zpos my)).
  split; [reflexivity|]. split; [exact Hq52|]. split; [subst e'; lia|].
  destruct (Z_le_gt_dec e' 0) as [Hle|Hgt].
  - (* the quotient is at least 2^(-e') *)
    assert (Hql : 2 ^ (- e') <= Zpos q).
    { rewrite <- Eq. apply Z.div_le_lower_bound; [lia|].
      subst m'.
      replace (53 + dy - dx) with ((ex - ey) + (- e')) by (subst e'; lia).
      rewrite Z.pow_add_r, Z.mul_assoc by lia.
      apply Z.mul_le_mono_nonneg_r; [apply Z.pow_nonneg; lia | exact HA]. }
    pose proof (digits_lower q (- e') Hql ltac:(lia)). lia.
  - pose proof (digits_lower q 52 Hq52 ltac:(lia)). lia.
Qed.

(** A positive finite divisor and a dividend at least as large give a
    quotient of at least 1. *)
Lemma SFdiv_ge_one (x y : spec_float) :
  valid_binary x = true -> valid_binary y = true ->
  SFltb (S754_zero false) y = true -> SF_finite y = true ->
  SFleb y x = true ->
  SFleb SF_one (SF64div x y) = true.
Proof.
  intros Vx Vy Hpos Hfin Hle.
  destruct y as [sy|sy| |sy my ey]; try discriminate.
  destruct sy; [discriminate|].
  destruct x as [sx|sx| |sx mx ex]; try discriminate.
  - by destruct sx.
  - destruct sx; [discriminate|].
    assert (Hge : ey < ex \/ (ey = ex /\ Zpos my <= Zpos mx)).
    { unfold SFleb in Hle. cbv beta iota delta [SFcompare] in Hle.
      destruct (Z.compare_spec ey ex) as [Ee|Ee|Ee]; [|by left|discriminate].
      right. split; [exact Ee|].
      destruct (Pos.compare_cont Eq my mx) eqn:Ep; try discriminate.
      - apply Pcompare_Eq_eq in Ep. subst. lia.
      - change (Pos.compare_cont Eq my mx) with (my ?= mx)%positive in Ep.
        apply Pos.compare_lt_iff, Pos2Z.pos_lt_pos in Ep. lia. }
    destruct (SFdiv_core_ge_one mx my ex ey Vx Vy Hge)
      as (q & e' & l & Hcore & Hq & He' & Hv).
    unfold SF64div, SFdiv. rewrite Hcore. simpl xorb.
    by apply binary_round_aux_ge_one.
Qed.

(** *** The midpoint of a segment that starts at zero *)

(** Rounding is the identity on a canonical number. *)
Lemma binary_round_aux_canonical (s : bool) (m : positive) (e : Z) :
  bounded prec emax m e = true ->
  binary_round_aux prec emax s (Zpos m) e loc_Exact = S754_finite s m e.
Proof.
  intros Hb. destruct (bounded_inv m e Hb) as [Hc Hle].
  unfold binary_round_aux.
  assert (H2 : shr_fexp prec emax (Zpos m) e loc_Exact
               = (Build_shr_record (Zpos m) false false, e)).
  { unfold shr_fexp. simpl Zdigits2. rewrite fexp64_eq, Hc, Z.sub_diag.
    reflexivity. }
  rewrite H2. simpl shr_m. simpl loc_of_shr_record. simpl round_nearest_even.
  rewrite H2. simpl shr_m.
  replace (e <=? emax - prec) with true; [reflexivity|].
  symmetry. apply Z.leb_le. exact Hle.
Qed.

Lemma div_eucl_exact (a b : Z) :
  0 < b -> Z.div_eucl (b * a) b = (a, 0).
Proof.
  intros Hb.
  transitivity ((b * a) / b, (b * a) mod b).
  - unfold Z.div, Z.modulo. by destruct (Z.div_eucl (b * a) b).
  - rewrite (Z.mul_comm b a), Z.div_mul, Z.mod_mul by lia. reflexivity.
Qed.

Lemma new_location_exact (n : Z) : new_location n 0 = loc_Exact.
Proof. unfold new_location. by destruct (Z.even n). Qed.

(** Halving a number whose mantissa has 53 bits and whose half is not
    below the least normal number is exact. *)
Lemma SFdiv_two (s : bool) (m : positive) (e : Z) :
  bounded prec emax m e = true -> -1073 <= e ->
  SF64div (S754_finite s m e) SF_two = S754_finite s m (e - 1)
  /\ bounded prec emax m (e - 1) = true.
Proof.
  intros Hb He. destruct (bounded_inv m e Hb) as [Hc Hle].
  assert (Hd : Zpos (digits2_pos m) = 53) by lia.
  assert (Hb' : bounded prec emax m (e - 1) = true).
  { unfold bounded, canonical_mantissa. rewrite fexp64_eq, Hd.
    apply andb_true_intro. split.
    - apply Z.eqb_eq. lia.
    - apply Z.leb_le. change (emax - prec) with 971. lia. }
  split; [|exact Hb'].
  unfold SF64div, SFdiv, SF_two, SFdiv_core_binary. rewrite xorb_false_r.
  change (Zdigits2 (Zpos 4503599627370496)) with 53.
  change (Zdigits2 (Zpos m)) with (Zpos (digits2_pos m)).
  rewrite Hd, fexp64_eq.
  destruct (Z.eq_dec e (-1073)) as [->|Hne].
  - change (Z.min (Z.max (53 + -1073 - (53 + -51) - 53) (-1074)) (-1073 - -51))
      with (-1074).
    change (-1073 - -51 - -1074) with 52. cbv iota.
    rewrite Z.shiftl_mul_pow2 by lia.
    change 4503599627370496%positive with (Z.to_pos (2 ^ 52)).
    rewrite Z2Pos.id by (apply Z.pow_pos_nonneg; lia).
    rewrite (Z.mul_comm (Zpos m)), div_eucl_exact
      by (apply Z.pow_pos_nonneg; lia).
    rewrite new_location_exact.
    by apply binary_round_aux_canonical.
  - replace (Z.min (Z.max (53 + e - (53 + -51) - 53) (-1074)) (e - -51))
      with (e - 2) by lia.
    replace (e - -51 - (e - 2)) with 53 by lia. cbv iota.
    rewrite Z.shiftl_mul_pow2 by lia.
    change 4503599627370496%positive with (Z.to_pos (2 ^ 52)).
    rewrite Z2Pos.id by (apply Z.pow_pos_nonneg; lia).
    replace (Zpos m * 2 ^ 53) with (2 ^ 52 * Zpos m~0)
      by (change (2 ^ 53) with (2 ^ 52 * 2); lia).
    rewrite div_eucl_exact by (apply Z.pow_pos_nonneg; lia).
    rewrite new_location_exact.
    change (m~0)%positive with (Pos.iter xO m 1).
    replace (e - 2) with (e - 1 - 1) by lia.
    by apply binary_round_aux_scaled.
Qed.

(** A number divided by its double is one half. *)
Lemma SFdiv_by_double (m : positive) (e : Z) :
  SF64div (S754_finite false m (e - 1)) (S754_finite false m e) = SF_half.
Proof.
  unfold SF64div, SFdiv, SFdiv_core_binary. simpl xorb.
  replace (Zdigits2 (Zpos m) + (e - 1) - (Zdigits2 (Zpos m) + e)) with (-1)
    by lia.
  replace (e - 1 - e) with (-1) by lia.
  change (Z.min (fexp prec emax (-1)) (-1)) with (-54).
  change (-1 - -54) with 53. cbv iota.
  rewrite Z.shiftl_mul_pow2 by lia.
  rewrite div_eucl_exact by lia.
  rewrite new_location_exact. reflexivity.
Qed.

(** The fraction computed at the midpoint of a segment that starts at
    zero. *)
Lemma SF_midpoint_fraction (z t : spec_float) :
  valid_binary t = true -> SF_zero z = true ->
  SFleb (S754_finite false 4503599627370496 (-1073)) t = true ->
  SF_finite t = true ->
  SF64div (SF64sub (SF64div (SF64add z t) SF_two) z) (SF64sub t z)
  = SF_half.
Proof.
  intros Vt Hz Hle Hfin.
  destruct z as [sz| | |]; try discriminate.
  destruct t as [st|st| |st m e]; try discriminate.
  destruct st; [discriminate|].
  assert (He : -1073 <= e).
  { unfold SFleb in Hle. cbv beta iota delta [SFcompare] in Hle.
    destruct (Z.compare_spec (-1073) e); [lia | lia | discriminate]. }
  destruct (SFdiv_two false m e Vt He) as [Hhalf Hb].
  change (SF64add (S754_zero sz) (S754_finite false m e))
    with (S754_finite false m e).
  rewrite Hhalf.
  change (SF64sub (S754_finite false m (e - 1)) (S754_zero sz))
    with (S754_finite false m (e - 1)).
  change (SF64sub (S754_finite false m e) (S754_zero sz))
    with (S754_finite false m e).
  apply SFdiv_by_double.
Qed.

(** *** Division by a greater positive number *)

Lemma Zdigits2_le (q k : Z) : 0 <= q < 2 ^ k -> 0 <= k -> Zdigits2 q <= k.
Proof.
  intros [Hq Hlt] Hk. destruct q as [|p|p]; simpl; [lia| |lia].
  pose proof (digits2_pos_bounds p) as [Hlo _].
  destruct (Z_le_gt_dec (Zpos (digits2_pos p)) k) as [|Hgt]; [done|].
  assert (2 ^ k <= 2 ^ (Zpos (digits2_pos p) - 1))
    by (apply Z.pow_le_mono_r; lia).
  lia.
Qed.

Lemma round_nearest_even_le (m : Z) (l : location) :
  round_nearest_even m l <= m + 1.
Proof.
  destruct l as [|[]]; simpl; try lia. destruct (Z.even m); lia.
Qed.

Lemma loc_of_shr_record_of_loc (m : Z) (l : location) :
  loc_of_shr_record (shr_record_of_loc m l) = l.
Proof. by destruct l as [|[]]. Qed.

(** The mantissa and the exponent that the alignment shift leaves. *)
Lemma shr_fexp_m (m e : Z) (l : location) :
  0 <= m ->
  shr_m (shr_fexp prec emax m e l).1
    = m / 2 ^ Z.max 0 (fexp prec emax (Zdigits2 m + e) - e)
  /\ (shr_fexp prec emax m e l).2
     = e + Z.max 0 (fexp prec emax (Zdigits2 m + e) - e).
Proof.
  intros Hm. unfold shr_fexp, shr.
  destruct (fexp prec emax (Zdigits2 m + e) - e) as [|p|p]; simpl fst; simpl snd.
  - rewrite shr_record_of_loc_m. change (Z.max 0 0) with 0.
    rewrite Z.div_1_r. split; lia.
  - rewrite iter_shr_1_m by (rewrite shr_record_of_loc_m; lia).
    rewrite shr_record_of_loc_m. by replace (Z.max 0 (Zpos p)) with (Zpos p) by lia.
  - rewrite shr_record_of_loc_m.
    replace (Z.max 0 (Zneg p)) with 0 by lia.
    rewrite Z.div_1_r. split; lia.
Qed.

Lemma SFltb_finite_one (m : positive) (e : Z) :
  e <= -53 -> SFltb (S754_finite false m e) SF_one = true.
Proof.
  intros He. unfold SFltb, SF_one. cbv beta iota delta [SFcompare].
  destruct (Z.compare_spec e (-52)); [lia | reflexivity | lia].
Qed.

(** The result of rounding, from the mantissa and the exponent left by the
    two alignment shifts. *)
Lemma binary_round_aux_result (s : bool) (q e : Z) (l : location) :
  0 <= q ->
  exists q1 l1 e1 q3 e3,
    0 <= q1 /\ 0 <= q3
    /\ shr_m (shr_fexp prec emax q e l).1 = q1
    /\ loc_of_shr_record (shr_fexp prec emax q e l).1 = l1
    /\ e1 = e + Z.max 0 (fexp prec emax (Zdigits2 q + e) - e)
    /\ q1 = q / 2 ^ Z.max 0 (fexp prec emax (Zdigits2 q + e) - e)
    /\ q3 = round_nearest_even q1 l1
            / 2 ^ Z.max 0 (fexp prec emax
                             (Zdigits2 (round_nearest_even q1 l1) + e1) - e1)
    /\ e3 = e1 + Z.max 0 (fexp prec emax
                            (Zdigits2 (round_nearest_even q1 l1) + e1) - e1)
    /\ binary_round_aux prec emax s q e l
       = match q3 with
         | 0 => S754_zero s
         | Zpos m => if e3 <=? emax - prec then S754_finite s m e3
                     else S754_infinity s
         | Zneg _ => S754_nan
         end.
Proof.
  intros Hq. unfold binary_round_aux.
  destruct (shr_fexp_m q e l Hq) as [Hm1 He1].
  destruct (shr_fexp prec emax q e l) as [mrs' e1]; simpl in Hm1, He1.
  assert (Hq1 : 0 <= shr_m mrs').
  { rewrite Hm1. apply Z.div_pos; [lia|]. apply Z.pow_pos_nonneg; lia. }
  pose proof (round_nearest_even_ge (shr_m mrs') (loc_of_shr_record mrs')) as Hr.
  set (q2 := round_nearest_even (shr_m mrs') (loc_of_shr_record mrs')) in *.
  destruct (shr_fexp_m q2 e1 loc_Exact ltac:(lia)) as [Hm2 He2].
  destruct (shr_fexp prec emax q2 e1 loc_Exact) as [mrs'' e2]; simpl in Hm2, He2.
  exists (shr_m mrs'), (loc_of_shr_record mrs'), e1, (shr_m mrs''), e2.
  split; [done|]. split.
  { rewrite Hm2. apply Z.div_pos; [lia|]. apply Z.pow_pos_nonneg; lia. }
  simpl fst. fold q2.
  repeat split; try done.
Qed.

(** Rounding a negative number yields a number below 1. *)
Lemma binary_round_aux_negative (q e : Z) (l : location) :
  0 <= q -> SFltb (binary_round_aux prec emax true q e l) SF_one = true.
Proof.
  intros Hq.
  destruct (binary_round_aux_result true q e l Hq)
    as (q1 & l1 & e1 & q3 & e3 & _ & Hq3 & _ & _ & _ & _ & _ & _ & ->).
  destruct q3 as [|m|m]; [reflexivity| |lia].
  by destruct (e3 <=? emax - prec).
Qed.

(** Rounding a number of at most one half. *)
Lemma binary_round_aux_small (q e : Z) (l : location) :
  0 <= q -> e <= -53 -> 2 * (q + 1) <= 2 ^ (- e) ->
  SFltb (binary_round_aux prec emax false q e l) SF_one = true.
Proof.
  intros Hq He Hsmall.
  destruct (binary_round_aux_result false q e l Hq)
    as (q1 & l1 & e1 & q3 & e3 & Hq1 & Hq3 & _ & _ & He1 & Hq1e & Hq3e & He3
        & ->).
  assert (Hpow : 2 ^ (- e) = 2 * 2 ^ (- e - 1)).
  { rewrite <- Z.pow_succ_r by lia. f_equal. lia. }
  assert (Hdq : Zdigits2 q <= - e - 1) by (apply Zdigits2_le; lia).
  rewrite fexp64_eq in He1, Hq1e.
  set (n1 := Z.max 0 (Z.max (Zdigits2 q + e - 53) (-1074) - e)) in *.
  assert (Hn1 : 0 <= n1 <= - e - 1) by (subst n1; lia).
  assert (He1' : e1 <= -53) by (subst n1; lia).
  assert (Hq1b : q1 + 1 <= 2 ^ (- e1 - 1)).
  { assert (q1 < 2 ^ (- e1 - 1)); [|lia].
    rewrite Hq1e. apply Z.div_lt_upper_bound; [apply Z.pow_pos_nonneg; lia|].
    rewrite <- Z.pow_add_r by lia.
    replace (n1 + (- e1 - 1)) with (- e - 1) by lia. lia. }
  pose proof (round_nearest_even_le q1 l1) as Hr.
  pose proof (round_nearest_even_ge q1 l1) as Hr'.
  set (q2 := round_nearest_even q1 l1) in *.
  assert (Hpow1 : 2 ^ (- e1) = 2 * 2 ^ (- e1 - 1)).
  { rewrite <- Z.pow_succ_r by lia. f_equal. lia. }
  assert (Hpos1 : 0 < 2 ^ (- e1 - 1)) by (apply Z.pow_pos_nonneg; lia).
  assert (Hdq2 : Zdigits2 q2 <= - e1) by (apply Zdigits2_le; lia).
  rewrite fexp64_eq in He3.
  assert (He3' : e3 <= -53) by lia.
  destruct q3 as [|m|m]; [reflexivity| |lia].
  replace (e3 <=? emax - prec) with true
    by (symmetry; apply Z.leb_le; change (emax - prec) with 971; lia).
  by apply SFltb_finite_one.
Qed.

(** Rounding a number of the binade just below 1 that is at most the
    greatest binary64 below 1. *)
Lemma binary_round_aux_below_one (q : positive) (e : Z) (l : location) :
  e <= -53 -> Zpos (digits2_pos q) = - e ->
  Zpos q <= 2 ^ (- e) - 2 ^ (- e - 53) ->
  (Zpos q = 2 ^ (- e) - 2 ^ (- e - 53) -> l = loc_Exact) ->
  SFltb (binary_round_aux prec emax false (Zpos q) e l) SF_one = true.
Proof.
  intros He Hd Hle Hex.
  destruct (binary_round_aux_result false (Zpos q) e l ltac:(lia))
    as (q1 & l1 & e1 & q3 & e3 & Hq1 & Hq3 & Hm1 & Hl1 & He1 & Hq1e & Hq3e
        & He3 & ->).
  simpl Zdigits2 in He1, Hq1e. rewrite Hd, fexp64_eq in He1, Hq1e.
  replace (Z.max 0 (Z.max (- e + e - 53) (-1074) - e)) with (- 53 - e)
    in He1, Hq1e by lia.
  assert (He1' : e1 = -53) by lia.
  pose proof (digits2_pos_bounds q) as [Hlo Hhi]. rewrite Hd in Hlo, Hhi.
  assert (Hp : 0 < 2 ^ (- 53 - e)) by (apply Z.pow_pos_nonneg; lia).
  assert (Hsplit : 2 ^ (- e) = 2 ^ 53 * 2 ^ (- 53 - e)).
  { rewrite <- Z.pow_add_r by lia. f_equal. lia. }
  assert (Hsplit' : 2 ^ (- e - 1) = 2 ^ 52 * 2 ^ (- 53 - e)).
  { rewrite <- Z.pow_add_r by lia. f_equal. lia. }
  replace (- e - 53) with (- 53 - e) in Hle, Hex by lia.
  assert (Hq1lo : 2 ^ 52 <= q1).
  { rewrite Hq1e. apply Z.div_le_lower_bound; [lia|]. lia. }
  assert (Hq1hi : q1 <= 2 ^ 53 - 1).
  { rewrite Hq1e. apply Z.div_le_upper_bound; [lia|]. nia. }
  (* the rounded mantissa stays below 2^53 *)
  assert (Hq2 : 2 ^ 52 <= round_nearest_even q1 l1 <= 2 ^ 53 - 1).
  { pose proof (round_nearest_even_ge q1 l1) as Hge.
    pose proof (round_nearest_even_le q1 l1) as Hup.
    split; [lia|].
    destruct (Z.eq_dec q1 (2 ^ 53 - 1)) as [Heq|Hneq]; [|lia].
    (* the quotient is the greatest mantissa: the division was exact *)
    assert (Hqe : Zpos q = 2 ^ (- e) - 2 ^ (- 53 - e)).
    { assert (q1 * 2 ^ (- 53 - e) <= Zpos q).
      { rewrite Hq1e, Z.mul_comm. apply Z.mul_div_le. lia. }
      nia. }
    specialize (Hex Hqe). subst l.
    assert (Hl1' : l1 = loc_Exact).
    { rewrite <- Hl1. unfold shr_fexp, shr. simpl Zdigits2.
      rewrite Hd, fexp64_eq.
      replace (Z.max (- e + e - 53) (-1074) - e) with (- 53 - e) by lia.
      destruct (- 53 - e) as [|p|p] eqn:Ep; try lia; simpl fst.
      - reflexivity.
      - simpl shr_record_of_loc.
        replace (Zpos q) with (Zpos (Z.to_pos (2 ^ 53 - 1)) * 2 ^ Zpos p)
          by (rewrite Z2Pos.id by lia; lia).
        by rewrite iter_shr_exact. }
    rewrite Hl1'. simpl. lia. }
  set (q2 := round_nearest_even q1 l1) in *.
  assert (Hd2 : Zdigits2 q2 = 53).
  { destruct q2 as [|p|p] eqn:Eq2; try lia. simpl.
    pose proof (digits2_pos_bounds p) as Hb.
    symmetry. apply (binade_unique (Zpos p)); [lia | exact Hb | lia | lia]. }
  rewrite Hd2, He1', fexp64_eq in He3, Hq3e.
  change (Z.max 0 (Z.max (53 + -53 - 53) (-1074) - -53)) with 0 in He3, Hq3e.
  rewrite Z.div_1_r in Hq3e.
  destruct q3 as [|m|m]; [reflexivity| |lia].
  replace (e3 <=? emax - prec) with true
    by (symmetry; apply Z.leb_le; change (emax - prec) with 971; lia).
  apply SFltb_finite_one. lia.
Qed.

(** The quotient of the division core, for positive canonical operands of
    which the first is below the second. *)
Lemma SFdiv_core_lt_one (mx my : positive) (ex ey : Z) :
  bounded prec emax mx ex = true -> bounded prec emax my ey = true ->
  (ex < ey \/ (ex = ey /\ Zpos mx < Zpos my)) ->
  exists (q e' : Z) (l : location),
    SFdiv_core_binary prec emax (Zpos mx) ex (Zpos my) ey = (q, e', l)
    /\ 0 <= q /\ e' <= -53
    /\ q <= 2 ^ (- e') - 2 ^ (- e' - 53)
    /\ (q = 2 ^ (- e') - 2 ^ (- e' - 53) -> l = loc_Exact).
Proof.
  intros [Hcx _]%bounded_inv [Hcy _]%bounded_inv Hlt.
  pose proof (digits2_pos_bounds mx) as [Hxl Hxu].
  pose proof (digits2_pos_bounds my) as [Hyl Hyu].
  unfold SFdiv_core_binary. simpl Zdigits2. rewrite fexp64_eq.
  set (dx := Zpos (digits2_pos mx)) in *.
  set (dy := Zpos (digits2_pos my)) in *.
  assert (Hdx : 1 <= dx <= 53) by (subst dx; lia).
  assert (Hdy : 1 <= dy <= 53) by (subst dy; lia).
  assert (Hmx : Zpos mx < 2 ^ 53).
  { assert (2 ^ dx <= 2 ^ 53) by (apply Z.pow_le_mono_r; lia). lia. }
  assert (Hmy : Zpos my < 2 ^ 53).
  { assert (2 ^ dy <= 2 ^ 53) by (apply Z.pow_le_mono_r; lia). lia. }
  assert (HD : dx + ex - (dy + ey) <= 0 /\ ex <= ey).
  { destruct Hlt as [Hlt | [-> Hm]]; [lia|]. split; [|lia].
    destruct (Z_lt_le_dec dy dx) as [Hgt|]; [|lia].
    assert (2 ^ dy <= 2 ^ (dx - 1)) by (apply Z.pow_le_mono_r; lia). lia. }
  destruct HD as [HD Hee].
  (* x * 2^53 <= y * (2^53 - 1) *)
  assert (HK : Zpos mx * 2 ^ 53 <= Zpos my * (2 ^ 53 - 1) * 2 ^ (ey - ex)).
  { destruct Hlt as [Hlt | [-> Hm]].
    - assert (dy = 53) by lia.
      assert (2 ^ 1 <= 2 ^ (ey - ex)) by (apply Z.pow_le_mono_r; lia).
      replace (dy - 1) with 52 in Hyl by lia.
      change (2 ^ 1) with 2 in *.
      change (2 ^ 53) with 9007199254740992 in *.
      change (2 ^ 52) with 4503599627370496 in *. nia.
    - rewrite Z.sub_diag. change (2 ^ 0) with 1.
      change (2 ^ 53) with 9007199254740992 in *. lia. }
  set (e' := Z.min (Z.max (dx + ex - (dy + ey) - 53) (-1074)) (ex - ey)).
  assert (He' : e' <= -53) by (subst e'; lia).
  assert (Hs : 0 <= ex - ey - e') by (subst e'; lia).
  set (s := ex - ey - e') in *.
  set (m' := match s with
             | 0 => Zpos mx
             | Zpos _ => Z.shiftl (Zpos mx) s
             | Zneg _ => 0
             end).
  assert (Hm' : m' = Zpos mx * 2 ^ s).
  { subst m'. destruct s as [|p|p] eqn:Es; [simpl; lia| |lia].
    by rewrite Z.shiftl_mul_pow2 by lia. }
  assert (Hqe : Z.div_eucl m' (Zpos my) = (m' / Zpos my, m' mod Zpos my)).
  { unfold Z.div, Z.modulo. by destruct (Z.div_eucl m' (Zpos my)). }
  rewrite Hqe.
  exists (m' / Zpos my), e', (new_location (Zpos my) (m' mod Zpos my)).
  split; [reflexivity|].
  assert (Hps : 0 < 2 ^ s) by (apply Z.pow_pos_nonneg; lia).
  assert (Hm'0 : 0 <= m') by (rewrite Hm'; lia).
  split; [apply Z.div_pos; lia|]. split; [exact He'|].
  assert (HE : 2 ^ (- e') = 2 ^ 53 * 2 ^ (- e' - 53)).
  { rewrite <- Z.pow_add_r by lia. f_equal. lia. }
  assert (HE' : 2 ^ (- e') = 2 ^ (ey - ex) * 2 ^ s).
  { rewrite <- Z.pow_add_r by lia. f_equal. subst s. lia. }
  assert (Hpe : 0 < 2 ^ (- e' - 53)) by (apply Z.pow_pos_nonneg; lia).
  assert (Hpee : 0 < 2 ^ (ey - ex)) by (apply Z.pow_pos_nonneg; lia).
  set (c := 2 ^ (- e') - 2 ^ (- e' - 53)).
  (* m' <= my * c *)
  assert (Hbound : m' <= Zpos my * c).
  { assert (H53 : m' * 2 ^ 53 <= Zpos my * c * 2 ^ 53).
    { replace (Zpos my * c * 2 ^ 53)
        with (Zpos my * (2 ^ 53 - 1) * 2 ^ (- e')) by (subst c; nia).
      rewrite HE', Hm'.
      replace (Zpos mx * 2 ^ s * 2 ^ 53) with (Zpos mx * 2 ^ 53 * 2 ^ s) by lia.
      replace (Zpos my * (2 ^ 53 - 1) * (2 ^ (ey - ex) * 2 ^ s))
        with (Zpos my * (2 ^ 53 - 1) * 2 ^ (ey - ex) * 2 ^ s) by lia.
      apply Z.mul_le_mono_nonneg_r; lia. }
    change (2 ^ 53) with 9007199254740992 in H53. lia. }
  split.
  - apply Z.div_le_upper_bound; lia.
  - intros Heq.
    pose proof (Z.div_mod m' (Zpos my) ltac:(lia)) as Hdm.
    pose proof (Z.mod_pos_bound m' (Zpos my) ltac:(lia)) as Hmb.
    assert (Hr : m' mod Zpos my = 0).
    { fold c in Heq. rewrite Heq in Hdm. lia. }
    rewrite Hr. apply new_location_exact.
Qed.

(** A positive finite divisor and a dividend below it give a quotient
    below 1. *)
Lemma SFdiv_lt_one (x y : spec_float) :
  valid_binary x = true -> valid_binary y = true ->
  SFltb (S754_zero false) y = true -> SF_finite y = true ->
  SFltb x y = true ->
  SFltb (SF64div x y) SF_one = true.
Proof.
  intros Vx Vy Hpos Hfin Hlt.
  destruct y as [sy|sy| |sy my ey]; try discriminate.
  destruct sy; [discriminate|].
  destruct x as [sx|sx| |sx mx ex]; try discriminate.
  - by destruct sx.
  - by destruct sx.
  - destruct sx.
    + unfold SF64div, SFdiv.
      destruct (SFdiv_core_binary prec emax (Zpos mx) ex (Zpos my) ey)
        as [[q e'] l] eqn:Ecore.
      simpl xorb. apply binary_round_aux_negative.
      unfold SFdiv_core_binary in Ecore.
      destruct (Z.div_eucl _ (Zpos my)) as [q0 r0] eqn:Ed in Ecore.
      injection Ecore as <- _ _.
      match type of Ed with
      | Z.div_eucl ?a _ = _ =>
          assert (Ha : 0 <= a);
          [| pose proof (Z.div_pos a (Zpos my) Ha ltac:(lia)) as Hdiv;
             unfold Z.div in Hdiv; rewrite Ed in Hdiv; exact Hdiv ]
      end.
      destruct (_ - _ - _) as [|p|p]; [lia| |lia].
      rewrite Z.shiftl_mul_pow2 by lia.
      apply Z.mul_nonneg_nonneg; [lia|]. apply Z.pow_nonneg. lia.
    + assert (Hcmp : ex < ey \/ (ex = ey /\ Zpos mx < Zpos my)).
      { unfold SFltb in Hlt. cbv beta iota delta [SFcompare] in Hlt.
        destruct (Z.compare_spec ex ey) as [Ee|Ee|Ee]; [|by left|discriminate].
        right. split; [exact Ee|].
        destruct (Pos.compare_cont Eq mx my) eqn:Ep; try discriminate.
        change (Pos.compare_cont Eq mx my) with (mx ?= my)%positive in Ep.
        apply Pos.compare_lt_iff, Pos2Z.pos_lt_pos in Ep. lia. }
      destruct (SFdiv_core_lt_one mx my ex ey Vx Vy Hcmp)
        as (q & e' & l & Hcore & Hq & He' & Hle & Hex).
      unfold SF64div, SFdiv. rewrite Hcore. simpl xorb.
      assert (Hpow : 2 ^ (- e') = 2 * 2 ^ (- e' - 1)).
      { rewrite <- Z.pow_succ_r by lia. f_equal. lia. }
      assert (Hp53 : 0 < 2 ^ (- e' - 53)) by (apply Z.pow_pos_nonneg; lia).
      destruct (Z_le_gt_dec (2 * (q + 1)) (2 ^ (- e'))) as [Hsmall|Hbig].
      * by apply binary_round_aux_small.
      * assert (Hp1 : 1 < 2 ^ (- e' - 1)).
        { apply (Z.lt_le_trans _ (2 ^ 1)); [reflexivity|].
          apply Z.pow_le_mono_r; lia. }
        destruct q as [|qp|qp]; [lia| |lia].
        apply binary_round_aux_below_one; try done.
        pose proof (digits2_pos_bounds qp) as Hb.
        apply (binade_unique (Zpos qp)); [exact Hb | lia | lia | lia].
Qed.

End Rounding.

(** *** Comparison *)

Lemma SFcompare_swap (x y : spec_float) :
  SFcompare y x = option_map CompOpp (SFcompare x y).
Proof.
  destruct x as [[]|[]| |sx mx ex], y as [[]|[]| |sy my ey]; try reflexivity;
    try (by destruct sx); try (by destruct sy).
  simpl. rewrite (Z.compare_antisym ex ey), (ZC4 my mx).
  destruct sx, sy; simpl; try reflexivity;
    destruct (ex ?= ey)%Z; simpl; reflexivity.
Qed.

Lemma SFltb_not_eqb (x y : spec_float) :
  SFltb x y = true -> SFeqb y x = false.
Proof.
  unfold SFltb, SFeqb. rewrite (SFcompare_swap x y).
  by destruct (SFcompare x y) as [[]|].
Qed.

Lemma SFleb_not_ltb (x y : spec_float) :
  SFleb x y = true -> SFltb y x = false.
Proof.
  unfold SFltb, SFleb. rewrite (SFcompare_swap x y).
  by destruct (SFcompare x y) as [[]|].
Qed.

(** Numbers that are not [==] have a non-zero difference, whatever their
    class. *)
Lemma SFsub_not_zero (x y : spec_float) :
  valid_binary x = true -> valid_binary y = true ->
  SFeqb x y = false -> SF_zero (SF64sub x y) = false.
Proof.
  intros Vx Vy Hne.
  destruct (SF_finite x) eqn:Fx, (SF_finite y) eqn:Fy.
  - by apply SFsub_nonzero.
  - by destruct x as [[]|[]| |? ? ?], y as [[]|[]| |? ? ?].
  - by destruct x as [[]|[]| |? ? ?], y as [[]|[]| |? ? ?].
  - by destruct x as [[]|[]| |? ? ?], y as [[]|[]| |? ? ?].
Qed.

(** Numbers that are [==] have a difference that is a zero or NaN, and
    dividing by it yields NaN or an infinity. *)
Lemma SFdiv_by_eq_difference (n x y : spec_float) :
  SFeqb x y = true -> SF_finite (SF64div n (SF64sub y x)) = false.
Proof.
  intros Heq.
  destruct (SF_finite x) eqn:Fx.
  - apply SFdiv_by_zero. by apply SFsub_eq_zero.
  - unfold SFeqb in Heq.
    destruct x as [[]|[]| |? ? ?], y as [[]|[]| |? ? ?]; try discriminate;
      by destruct n.
Qed.

(** *** Facts on primitive floats *)

Lemma eqb_refl (a : float) : is_nan a = false -> (a =? a) = true.
Proof.
  rewrite is_nan_spec, FloatAxioms.eqb_spec. intros H. unfold SFeqb.
  by rewrite SFcompare_refl.
Qed.

(** Distinct finite numbers have a difference that is a non-zero number. *)
Lemma sub_nonzero (a b : float) :
  is_finite a = true -> is_finite b = true -> (a =? b) = false ->
  is_zero (a - b) = false /\ is_nan (a - b) = false.
Proof.
  rewrite !is_finite_spec, FloatAxioms.eqb_spec, is_zero_spec, is_nan_spec,
    sub_spec.
  apply SFsub_nonzero; apply Prim2SF_valid.
Qed.

(** Equal finite numbers have a zero difference. *)
Lemma sub_eq_zero (a b : float) :
  is_finite a = true -> (a =? b) = true -> is_zero (b - a) = true.
Proof.
  rewrite is_finite_spec, FloatAxioms.eqb_spec, is_zero_spec, sub_spec.
  apply SFsub_eq_zero.
Qed.

Lemma sub_finite (a b : float) :
  is_finite (a - b) = true -> is_finite a = true /\ is_finite b = true.
Proof. rewrite !is_finite_spec, sub_spec. apply SFsub_finite. Qed.

(** A division by zero yields NaN or an infinity. *)
Lemma div_by_zero (n d : float) :
  is_zero d = true -> is_finite (n / d) = false.
Proof. rewrite is_zero_spec, is_finite_spec, div_spec. apply SFdiv_by_zero. Qed.

Lemma zero_div (n d : float) :
  is_zero n = true -> is_zero d = false -> is_nan d = false ->
  is_zero (n / d) = true.
Proof. rewrite !is_zero_spec, is_nan_spec, div_spec. apply SFzero_div. Qed.

Lemma mul_one (a : float) : a * 1 = a.
Proof.
  apply Prim2SF_inj. rewrite mul_spec.
  change (Prim2SF 1) with SF_one. apply SFmul_one, Prim2SF_valid.
Qed.

Lemma div_self (d : float) :
  is_finite d = true -> is_zero d = false -> d / d = 1.
Proof.
  rewrite is_finite_spec, is_zero_spec. intros Hf Hz.
  apply Prim2SF_inj. rewrite div_spec.
  change (Prim2SF 1) with SF_one. by apply SFdiv_self.
Qed.

(** [a + (b - a) * f] is NaN or infinite as soon as [f] is. *)
Lemma lerp_not_finite (a b f : float) :
  is_finite f = false -> is_finite (lerp a b f) = false.
Proof.
  unfold lerp. rewrite !is_finite_spec, add_spec, mul_spec. intros Hf.
  by apply SFadd_not_finite, SFmul_not_finite.
Qed.

(** With a zero fraction and a finite difference, [a + (b - a) * f] is
    [a] (up to the sign of a zero). *)
Lemma lerp_at_zero (a b f : float) :
  is_zero f = true -> is_finite (b - a) = true -> (lerp a b f =? a) = true.
Proof.
  intros Hz Hd. destruct (sub_finite _ _ Hd) as [_ Ha].
  revert Hz Hd Ha. unfold lerp.
  rewrite is_zero_spec, !is_finite_spec, FloatAxioms.eqb_spec, add_spec,
    mul_spec.
  intros Hz Hd Ha. apply SFadd_zero.
  - by destruct (Prim2SF a).
  - by apply SFmul_zero.
Qed.

Lemma sub_not_zero (a b : float) :
  (a =? b) = false -> is_zero (a - b) = false.
Proof.
  rewrite FloatAxioms.eqb_spec, is_zero_spec, sub_spec.
  apply SFsub_not_zero; apply Prim2SF_valid.
Qed.

Lemma div_by_eq_difference (n a b : float) :
  (a =? b) = true -> is_finite (n / (b - a)) = false.
Proof.
  rewrite FloatAxioms.eqb_spec, is_finite_spec, div_spec, sub_spec.
  apply SFdiv_by_eq_difference.
Qed.

Lemma ltb_not_eqb (a b : float) : (a <? b) = true -> (b =? a) = false.
Proof. rewrite ltb_spec, FloatAxioms.eqb_spec. apply SFltb_not_eqb. Qed.

Lemma leb_not_ltb (a b : float) : (a <=? b) = true -> (b <? a) = false.
Proof. rewrite ltb_spec, leb_spec. apply SFleb_not_ltb. Qed.

Lemma leb_not_nan (a b : float) :
  (a <=? b) = true -> is_nan a = false /\ is_nan b = false.
Proof.
  rewrite leb_spec, !is_nan_spec. unfold SFleb.
  by destruct (Prim2SF a) as [?|?| |? ? ?], (Prim2SF b) as [?|?| |? ? ?].
Qed.

(** A number that is [<=] and not [<] another is [==] to it. *)
Lemma leb_ltb_eqb (a b : float) :
  (a <=? b) = true -> (a <? b) = false -> (a =? b) = true.
Proof.
  rewrite leb_spec, ltb_spec, FloatAxioms.eqb_spec.
  unfold SFleb, SFltb, SFeqb.
  by destruct (SFcompare (Prim2SF a) (Prim2SF b)) as [[]|].
Qed.

(** Being [==] to 1 is being 1. *)
Lemma eqb_one (a : float) : (1 =? a) = true -> a = 1.
Proof.
  rewrite FloatAxioms.eqb_spec. unfold SFeqb. intros H.
  apply Prim2SF_inj. change (Prim2SF 1) with SF_one in *.
  destruct (SFcompare SF_one (Prim2SF a)) as [[]|] eqn:E; try discriminate.
  destruct (Prim2SF a) as [[]|[]| |s m e]; try discriminate.
  unfold SF_one in E. by apply SFcompare_Eq_finite in E as (<- & <- & <-).
Qed.

(** A positive finite divisor and a dividend at least as large give a
    quotient of at least 1. *)
Lemma div_ge_one (a b : float) :
  (0 <? b) = true -> is_finite b = true -> (b <=? a) = true ->
  (1 <=? a / b) = true.
Proof.
  rewrite ltb_spec, is_finite_spec, !leb_spec, div_spec.
  change (Prim2SF 0) with (S754_zero false).
  change (Prim2SF 1) with SF_one.
  apply SFdiv_ge_one; apply Prim2SF_valid.
Qed.

(** A positive finite divisor and a dividend below it give a quotient
    below 1. *)
Lemma div_lt_one (a b : float) :
  (0 <? b) = true -> is_finite b = true -> (a <? b) = true ->
  (a / b <? 1) = true.
Proof.
  rewrite !ltb_spec, is_finite_spec, div_spec.
  change (Prim2SF 0) with (S754_zero false).
  change (Prim2SF 1) with SF_one.
  apply SFdiv_lt_one; apply Prim2SF_valid.
Qed.

(** At the midpoint of a segment that starts at zero and ends at a finite
    time of at least 2^-1021, the fraction computed is exactly one half. *)
Lemma midpoint_fraction_from_zero (t0 t1 : float) :
  is_zero t0 = true -> is_finite t1 = true -> (0x1p-1021 <=? t1) = true ->
  ((t0 + t1) / 2 - t0) / (t1 - t0) = 0.5.
Proof.
  rewrite is_zero_spec, is_finite_spec, leb_spec. intros Hz Hf Hle.
  apply Prim2SF_inj. rewrite !div_spec, !sub_spec, div_spec, add_spec.
  change (Prim2SF 2) with SF_two. change (Prim2SF 0.5) with SF_half.
  apply SF_midpoint_fraction; [apply Prim2SF_valid | done | exact Hle | done].
Qed.

(** ** Position capture *)

Section Capture.

Lemma read_alloc_old h o l :
  allocated h l -> Heap.read (Heap.alloc h o).1 l = Heap.read h l.
Proof.
  intros Hl. unfold Heap.read, Heap.alloc; simpl.
  by apply lookup_total_app_l.
Qed.

(** Copying allocates one object per source element, in order, after the
    objects that exist already, and touches nothing else. *)
Lemma copyEach_spec src : forall h,
  Forall (allocated h) src ->
  Heap.objects (copyEach h src).1 = Heap.objects h ++ map (Heap.read h) src
  /\ Heap.arrays (copyEach h src).1 = Heap.arrays h
  /\ (copyEach h src).2 = seq (length (Heap.objects h)) (length src).
Proof.
  induction src as [|l rest IH]; intros h Hok; simpl.
  - by rewrite app_nil_r.
  - inversion Hok as [|? ? Hl Hrest]; subst.
    set (h1 := Heap.mk (Heap.objects h ++ [Heap.read h l]) (Heap.arrays h)).
    assert (Hrest1 : Forall (allocated h1) rest).
    { eapply Forall_impl; [exact Hrest|]. unfold allocated; simpl.
      intros; rewrite length_app; simpl; lia. }
    destruct (IH h1 Hrest1) as (Ho & Ha & Hl').
    destruct (copyEach h1 rest) as [h2 ls] eqn:E; simpl in *.
    split; [|split].
    + rewrite Ho, <- app_assoc; simpl. do 2 f_equal.
      apply map_ext_Forall. eapply Forall_impl; [exact Hrest|].
      intros a Ha'. apply (read_alloc_old h (Heap.read h l) a Ha').
    + exact Ha.
    + rewrite Hl', length_app; simpl. f_equal. f_equal. lia.
Qed.

Lemma snapshot_fresh_block (objs : list Idea.t) (new : list Idea.t) arrs a :
  arrs !! a = Some (seq (length objs) (length new)) ->
  snapshot (Heap.mk (objs ++ new) arrs) a = new.
Proof.
  intros Ha. unfold snapshot, Heap.read_array, Heap.read; simpl.
  rewrite (list_lookup_total_correct _ _ _ Ha).
  apply list_eq; intros i.
  rewrite list_lookup_fmap.
  destruct (decide (i < length new)%nat) as [Hi|Hi].
  - rewrite lookup_seq_lt by done. simpl.
    rewrite lookup_total_app_r by lia.
    replace (length objs + i - length objs)%nat with i by lia.
    destruct (new !! i) eqn:E.
    + by rewrite (list_lookup_total_correct _ _ _ E).
    + apply lookup_ge_None in E; lia.
  - rewrite lookup_seq_ge by lia. simpl.
    symmetry; apply lookup_ge_None; lia.
Qed.

End Capture.

(** C8. Capture fidelity: on a live list of length N whose references are
    allocated, [captureBubblePositions] returns a new array of N new
    objects; the snapshot it denotes equals, object by object (hence field by
    field), the live entities; the live entities are left as they were; and
    overwriting afterwards any object that existed at capture time (a source
    entity in particular) leaves the snapshot unchanged. *)
Theorem capture_fidelity (w : World) :
  live_ok w ->
  let w' := (captureBubblePositions w).1 in
  let a := (captureBubblePositions w).2 in
  Heap.arrays (heap w) !! a = None
  /\ length (Heap.read_array (heap w') a) = length (ideas w)
  /\ Forall (fun l => ~ allocated (heap w) l) (Heap.read_array (heap w') a)
  /\ snapshot (heap w') a = map (Heap.read (heap w)) (ideas w)
  /\ ideas w' = ideas w
  /\ (forall l, allocated (heap w) l ->
        Heap.read (heap w') l = Heap.read (heap w) l)
  /\ (forall l o, allocated (heap w) l ->
        snapshot (Heap.write (heap w') l o) a = snapshot (heap w') a).
Proof.
  intros Hok w' a. subst w' a.
  unfold captureBubblePositions, deepCopyIdeas.
  destruct (copyEach_spec (ideas w) (heap w) Hok) as (Ho & Ha & Hl).
  destruct (copyEach (heap w) (ideas w)) as [h1 ls] eqn:E; simpl in *.
  assert (Hlook : (Heap.arrays h1 ++ [ls]) !! length (Heap.arrays h1) = Some ls).
  { rewrite lookup_app_r by lia. by rewrite Nat.sub_diag. }
  assert (Hra : Heap.read_array (Heap.mk (Heap.objects h1) (Heap.arrays h1 ++ [ls]))
                  (length (Heap.arrays h1)) = ls).
  { unfold Heap.read_array; simpl. by apply list_lookup_total_correct. }
  repeat split.
  - rewrite Ha. apply lookup_ge_None; lia.
  - rewrite Hra, Hl. by rewrite length_seq.
  - rewrite Hra, Hl. apply Forall_forall. intros l Hin.
    apply elem_of_seq in Hin. unfold allocated. lia.
  - rewrite Ho. apply snapshot_fresh_block. by rewrite length_map, <- Hl.
  - intros l Hl'. unfold Heap.read; simpl. rewrite Ho.
    by apply lookup_total_app_l.
  - intros l o Hl'. unfold Heap.write; simpl. rewrite Ho.
    rewrite insert_app_l by exact Hl'.
    rewrite !snapshot_fresh_block; try done.
    + by rewrite length_map, <- Hl.
    + by rewrite length_insert, length_map, <- Hl.
Qed.

Lemma capture_fidelity_witness :
  live_ok Sample.fresh
  /\ snapshot (heap (captureBubblePositions Sample.fresh).1)
       (captureBubblePositions Sample.fresh).2 = [Sample.idea_a].
Proof.
  assert (H : live_ok Sample.fresh).
  { repeat constructor. }
  split; [exact H|].
  exact (proj1 (proj2 (proj2 (proj2 (capture_fidelity Sample.fresh H))))).
Defined.

(** ** Recorder *)

Lemma findIndex_Some {A : Type} (p : A -> bool) (l : list A) (i : nat) :
  findIndex p l = Some i ->
  exists a, l !! i = Some a /\ p a = true
            /\ forall j b, (j < i)%nat -> l !! j = Some b -> p b = false.
Proof.
  revert i. induction l as [|a l IH]; intros i; simpl; [done|].
  destruct (p a) eqn:Hp.
  - intros [= <-]. exists a. repeat split; [done|]. intros; lia.
  - destruct (findIndex p l) as [k|]; [|done]. simpl. intros [= <-].
    destruct (IH k eq_refl) as (b & Hb & Hpb & Hfirst).
    exists b. repeat split; [done..|].
    intros [|j] c Hj; simpl; [by intros [= <-]|].
    apply Hfirst; lia.
Qed.

Lemma findIndex_None {A : Type} (p : A -> bool) (l : list A) :
  findIndex p l = None <-> Forall (fun a => p a = false) l.
Proof.
  induction l as [|a l IH]; simpl; [by split|].
  destruct (p a) eqn:Hp.
  - split; [done|]. intros H. inversion H; congruence.
  - destruct (findIndex p l); simpl; split; try done.
    + intros H. inversion H as [|? ? _ Hl]; subst. by apply IH in Hl.
    + intros _. constructor; [done|]. by apply IH.
Qed.

(** C2, as amended. The Begin invariant: after "start" with duration D the
    state holds exactly two keyframes, at times 0 and D/1000, and both
    refer to one and the same snapshot array, the one captured by this
    operation (so they are value-equal because they are pointer-equal);
    inPoint is 0, outPoint is D/1000, the recording flag is set and the
    playing flag cleared. *)
Theorem begin_invariant (D slider : float) (w : World) :
  let w' := recordState "start" (mkControls D slider) w in
  let a := (captureBubblePositions w).2 in
  keyframes (data w') = [Keyframe.mk 0 a; Keyframe.mk (D / 1000) a]
  /\ heap w' = heap (captureBubblePositions w).1
  /\ inPoint (data w') = Some 0
  /\ outPoint (data w') = Some (D / 1000)
  /\ duration (data w') = D
  /\ isRecording (data w') = true
  /\ isPlaying (data w') = false.
Proof.
  unfold recordState, captureBubblePositions, deepCopyIdeas; simpl.
  destruct (copyEach (heap w) (ideas w)) as [h1 ls]; simpl.
  repeat split.
Qed.

(** C2, as stated, fails: the two keyframes created by "start" do not hold
    pointer-distinct snapshots. *)
Lemma begin_invariant_counterexample :
  ~ (exists k0 k1,
       keyframes (data (recordState "start" (Sample.ten_seconds 1) Sample.fresh))
         = [k0; k1]
       /\ Keyframe.time k0 = 0
       /\ Keyframe.time k1 = 10000 / 1000
       /\ Keyframe.positions k0 <> Keyframe.positions k1
       /\ snapshot (heap (recordState "start" (Sample.ten_seconds 1) Sample.fresh))
            (Keyframe.positions k0)
          = snapshot (heap (recordState "start" (Sample.ten_seconds 1) Sample.fresh))
              (Keyframe.positions k1)).
Proof.
  intros (k0 & k1 & Hks & _ & _ & Hne & _).
  vm_compute in Hks. injection Hks as <- <-. by apply Hne.
Qed.

(** C3, as amended. "end" during a recording stores the scrubber-derived
    time in outPoint and then looks for the first keyframe whose time is
    [===] to that NEW outPoint: if there is one its positions are replaced
    by the fresh capture, otherwise a keyframe at the new time holding the
    fresh capture is appended. *)
Theorem end_updates_out_keyframe (ui : Controls) (w : World) :
  isRecording (data w) = true ->
  let w' := recordState "end" ui w in
  let endTime := sliderValue ui * (durationValue ui / 1000) in
  let endPositions := (captureBubblePositions w).2 in
  outPoint (data w') = Some endTime
  /\ isRecording (data w') = false
  /\ heap w' = heap (captureBubblePositions w).1
  /\ alerts w' = alerts w
  /\ keyframes (data w') =
       match findIndex (fun kf => JS.strict_eq (Keyframe.time kf) endTime)
               (keyframes (data w)) with
       | Some i => alter (set_positions endPositions) i (keyframes (data w))
       | None => keyframes (data w) ++ [Keyframe.mk endTime endPositions]
       end.
Proof.
  intros Hrec. unfold recordState, captureBubblePositions, deepCopyIdeas; simpl.
  rewrite Hrec; simpl.
  destruct (copyEach (heap w) (ideas w)) as [h1 ls]; simpl.
  unfold time_is.
  destruct (findIndex _ (keyframes (data w))); simpl; by repeat split.
Qed.

Lemma end_updates_out_keyframe_witness :
  isRecording (data Sample.moved) = true
  /\ keyframes (data (recordState "end" (Sample.ten_seconds 1) Sample.moved))
     = [Keyframe.mk 0 0%nat; Keyframe.mk 10 1%nat].
Proof.
  split; [reflexivity|].
  exact (proj2 (proj2 (proj2 (proj2
           (end_updates_out_keyframe (Sample.ten_seconds 1) Sample.moved
              eq_refl))))).
Defined.

(** C3, as stated, fails: with outPoint 10 and the slider at one half, the
    keyframe whose time equals the OLD outPoint (index 1) keeps its
    positions, and a keyframe is appended although that one exists. *)
Lemma end_updates_old_out_keyframe_counterexample :
  ~ (isRecording (data Sample.moved) = true ->
     let w' := recordState "end" (Sample.ten_seconds 0.5) Sample.moved in
     let endPositions := (captureBubblePositions Sample.moved).2 in
     keyframes (data w') =
       match findIndex (time_is (outPoint (data Sample.moved)))
               (keyframes (data Sample.moved)) with
       | Some i => alter (set_positions endPositions) i
                     (keyframes (data Sample.moved))
       | None => keyframes (data Sample.moved)
                 ++ [Keyframe.mk (0.5 * (10000 / 1000)) endPositions]
       end).
Proof.
  intros H. specialize (H eq_refl). vm_compute in H. discriminate H.
Qed.

(** C4, as amended. "keyframe" with a scrubber-derived time at or below 0,
    or at or above the timeline length duration/1000 (not outPoint),
    reports an error and captures nothing; it has by then stored the
    selected duration and cleared the playing flag, and changes nothing
    else. *)
Theorem add_keyframe_bounds (ui : Controls) (w : World) :
  let keyframeTime := sliderValue ui * (durationValue ui / 1000) in
  let maxTime := durationValue ui / 1000 in
  (keyframeTime <=? 0) || JS.ge keyframeTime maxTime = true ->
  let w' := recordState "keyframe" ui w in
  alerts w' = alerts w ++ [msg_keyframe_bounds]
  /\ keyframes (data w') = keyframes (data w)
  /\ inPoint (data w') = inPoint (data w)
  /\ outPoint (data w') = outPoint (data w)
  /\ isRecording (data w') = isRecording (data w)
  /\ currentTime (data w') = currentTime (data w)
  /\ startTime (data w') = startTime (data w)
  /\ duration (data w') = durationValue ui
  /\ isPlaying (data w') = false
  /\ heap w' = heap w /\ ideas w' = ideas w.
Proof.
  intros kt mt Hout. subst kt mt.
  unfold recordState; simpl.
  destruct (isPlaying (data w)) eqn:Hp; simpl; rewrite Hout; simpl;
    by repeat split.
Qed.

Lemma add_keyframe_bounds_witness :
  (1 * (10000 / 1000) <=? 0) || JS.ge (1 * (10000 / 1000)) (10000 / 1000) = true
  /\ alerts (recordState "keyframe" (Sample.ten_seconds 1) Sample.begun)
     = [msg_keyframe_bounds].
Proof.
  split; [reflexivity|].
  exact (proj1 (add_keyframe_bounds (Sample.ten_seconds 1) Sample.begun eq_refl)).
Defined.

(** C4, as stated, fails: with outPoint 5 and a timeline of 10 s, a
    keyframe time of 7.5 is beyond outPoint, yet no error is reported and
    the keyframe list is replaced. *)
Lemma add_keyframe_bounds_counterexample :
  ~ (let ui := Sample.ten_seconds 0.75 in
     let w := Sample.ended_half in
     let keyframeTime := sliderValue ui * (durationValue ui / 1000) in
     (keyframeTime <=? 0)
     || JS.ge keyframeTime (JS.ToNumber_nullable (outPoint (data w))) = true ->
     alerts (recordState "keyframe" ui w) = alerts w ++ [msg_keyframe_bounds]
     /\ data (recordState "keyframe" ui w) = data w).
Proof.
  intros H. destruct (H eq_refl) as [Ha _]. vm_compute in Ha. discriminate Ha.
Qed.

(** A rejected "keyframe" is not without effect: issued during playback
    with the selector at 5000 ms and the slider at the far right, it alerts,
    and [duration] has gone from 10000 to 5000 and the playing flag is
    cleared. *)
Example rejected_keyframe_changes_state :
  let w' := recordState "keyframe" (mkControls 5000 1) Sample.playing_full in
  alerts w' = [msg_keyframe_bounds]
  /\ duration (data Sample.playing_full) = 10000
  /\ duration (data w') = 5000
  /\ isPlaying (data Sample.playing_full) = true
  /\ isPlaying (data w') = false.
Proof. split; [|split; [|split; [|split]]]; vm_compute; reflexivity. Qed.

(** ** Rejected operations *)

Lemma set_isPlaying_false_id (d : AnimationData) :
  isPlaying d = false -> set_isPlaying false d = d.
Proof. destruct d; simpl; by intros ->. Qed.

(** C5, as amended. Each precondition violation surfaces one alert and
    aborts.  Playback start and save with fewer than two keyframes, and a
    load of a document whose [keyframes] property is missing or is an array
    of fewer than two entries (or of the document [null]), leave the whole
    state as it was.  The two
    recorder operations have by then stored the selected duration in
    [duration], and "keyframe" has also cleared the playing flag; they
    change nothing else. *)
Theorem precondition_violations (ToNumber_other : json -> float)
    (ui : Controls) (now now' : float) (iso : string)
    (page : Page) (timelineMarkers : list Marker.t)
    (doc : json) (w : World) :
  (isRecording (data w) = false ->
     recordState "end" ui w
     = alert msg_start_first (updateDuration (durationValue ui) w))
  /\ ((length (keyframes (data w)) < 2)%nat ->
        startPlayback now now' w = alert msg_need_keyframes w)
  /\ ((length (keyframes (data w)) < 2)%nat ->
        saveAnimation now iso w = alert msg_record_first w)
  /\ ((sliderValue ui * (durationValue ui / 1000) <=? 0)
      || JS.ge (sliderValue ui * (durationValue ui / 1000))
               (durationValue ui / 1000) = true ->
        recordState "keyframe" ui w
        = alert msg_keyframe_bounds
            (with_data (set_isPlaying false
                          (set_duration (durationValue ui) (data w))) w))
  /\ (getProp doc "keyframes" = None
      \/ (exists els, getProp doc "keyframes" = Some (JArr els)
                      /\ (length els < 2)%nat) ->
        loadAnimation ToNumber_other page timelineMarkers (Some doc) w
        = alert (if is_null doc then msg_load_error else msg_missing_keyframes)
            w).
Proof.
  repeat split.
  - intros Hrec. unfold recordState; simpl. by rewrite Hrec.
  - intros Hlen. unfold startPlayback.
    by rewrite (proj2 (Nat.ltb_lt _ _) Hlen).
  - intros Hlen. unfold saveAnimation.
    by rewrite (proj2 (Nat.ltb_lt _ _) Hlen).
  - intros Hout. unfold recordState; simpl.
    destruct (isPlaying (data w)) eqn:Hp; simpl; rewrite Hout; [done|].
    f_equal. unfold updateDuration. f_equal.
    symmetry. by apply set_isPlaying_false_id.
  - intros [Hnone | (els & Hsome & Hlen)];
      unfold loadAnimation, loadAnimation_onload.
    + rewrite Hnone. by destruct doc.
    + rewrite Hsome.
      destruct els as [|e1 [|e2 els]]; simpl in Hlen; try lia;
        by destruct doc.
Qed.

Lemma precondition_violations_witness :
  recordState "end" (Sample.ten_seconds 1) Sample.fresh
  = alert msg_start_first (updateDuration 10000 Sample.fresh)
  /\ startPlayback 0 0 Sample.fresh = alert msg_need_keyframes Sample.fresh
  /\ saveAnimation 0 EmptyString Sample.fresh
     = alert msg_record_first Sample.fresh
  /\ recordState "keyframe" (Sample.ten_seconds 1) Sample.fresh
     = alert msg_keyframe_bounds
         (with_data (set_isPlaying false (set_duration 10000 (data Sample.fresh)))
            Sample.fresh)
  /\ loadAnimation (fun _ => nan) Sample.page [] (Some (JObj [])) Sample.fresh
     = alert msg_missing_keyframes Sample.fresh.
Proof.
  pose proof (precondition_violations (fun _ => nan) (Sample.ten_seconds 1)
                0 0 EmptyString Sample.page [] (JObj []) Sample.fresh)
    as (H1 & H2 & H3 & H4 & H5).
  assert (Hlen : (length (keyframes (data Sample.fresh)) < 2)%nat)
    by (simpl; lia).
  exact (conj (H1 eq_refl) (conj (H2 Hlen) (conj (H3 Hlen)
           (conj (H4 eq_refl) (H5 (or_introl eq_refl)))))).
Defined.

(** C5, as stated, fails: "end" without an active recording, with the
    selector at 5000 ms while the state holds 10000 ms, alerts and aborts
    but has changed [duration]. *)
Lemma precondition_violations_counterexample :
  ~ (isRecording (data Sample.fresh) = false ->
     let w' := recordState "end" (mkControls 5000 1) Sample.fresh in
     alerts w' = alerts Sample.fresh ++ [msg_start_first]
     /\ data w' = data Sample.fresh).
Proof.
  intros H. destruct (H eq_refl) as [_ Hd].
  apply (f_equal (fun d => duration d =? 10000)) in Hd.
  vm_compute in Hd. discriminate Hd.
Qed.

(** ** Interpolation *)

Lemma read_write_ne h l' o l :
  l' <> l -> Heap.read (Heap.write h l' o) l = Heap.read h l.
Proof.
  intros Hne. unfold Heap.read, Heap.write; simpl.
  by apply list_lookup_total_insert_ne.
Qed.

Section Loop.
Variables (f : float) (startPositions endPositions : list loc).

Local Abbreviation loop := (interpolateLoop f startPositions endPositions).

Lemma loop_arrays live : forall index h,
  Heap.arrays (loop index live h) = Heap.arrays h.
Proof.
  induction live as [|idea rest IH]; intros index h; simpl; [done|].
  rewrite IH.
  by destruct (startPositions !! index), (endPositions !! index).
Qed.

Lemma loop_length live : forall index h,
  length (Heap.objects (loop index live h)) = length (Heap.objects h).
Proof.
  induction live as [|idea rest IH]; intros index h; simpl; [done|].
  rewrite IH.
  destruct (startPositions !! index), (endPositions !! index); simpl;
    by rewrite ?length_insert.
Qed.

(** Objects that are not in the live list are not written. *)
Lemma loop_frame live : forall index h l,
  l ∉ live -> Heap.read (loop index live h) l = Heap.read h l.
Proof.
  induction live as [|idea rest IH]; intros index h l Hl; simpl; [done|].
  apply not_elem_of_cons in Hl as [Hne Hrest].
  rewrite IH by done.
  destruct (startPositions !! index), (endPositions !! index); try done.
  unfold Heap.read, Heap.write; simpl.
  by apply list_lookup_total_insert_ne.
Qed.

(** What the loop leaves in the entity at position [k] of the remaining
    list, when no snapshot object is a live entity. *)
Lemma loop_at live : forall index h k l,
  NoDup live ->
  live !! k = Some l ->
  allocated h l ->
  Forall (fun a => a ∉ live) startPositions ->
  Forall (fun a => a ∉ live) endPositions ->
  Heap.read (loop index live h) l =
    match startPositions !! (index + k)%nat, endPositions !! (index + k)%nat with
    | Some startPos, Some endPos =>
        interpolated f (Heap.read h startPos) (Heap.read h endPos)
          (Heap.read h l)
    | _, _ => Heap.read h l
    end.
Proof.
  induction live as [|idea rest IH]; intros index h k l Hnd Hk Hal Hs He;
    [done|].
  apply NoDup_cons in Hnd as [Hfresh Hnd].
  assert (Hs' : Forall (fun a => a ∉ rest) startPositions).
  { eapply Forall_impl; [exact Hs|]. intros a Ha Hin. apply Ha. by right. }
  assert (He' : Forall (fun a => a ∉ rest) endPositions).
  { eapply Forall_impl; [exact He|]. intros a Ha Hin. apply Ha. by right. }
  destruct k as [|k]; simpl in Hk.
  - injection Hk as ->. simpl. rewrite loop_frame by done.
    rewrite Nat.add_0_r.
    destruct (startPositions !! index), (endPositions !! index); try done.
    unfold Heap.read at 1, Heap.write; simpl.
    by apply list_lookup_total_insert_eq.
  - simpl.
    assert (Hne : idea <> l).
    { intros ->. apply Hfresh. by eapply list_elem_of_lookup_2. }
    rewrite Nat.add_succ_r.
    destruct (startPositions !! index) as [sl0|] eqn:Es0,
             (endPositions !! index) as [el0|] eqn:Ee0;
      try exact (IH (S index) h k l Hnd Hk Hal Hs' He').
    rewrite (IH (S index) _ k l Hnd Hk); try done.
    + rewrite (read_write_ne h idea _ l Hne).
      change (S index + k)%nat with (S (index + k)).
      destruct (startPositions !! S (index + k)) as [sl|] eqn:Es; [|done].
      destruct (endPositions !! S (index + k)) as [el|] eqn:Ee; [|done].
      rewrite !read_write_ne; [done| |].
      * intros ->. rewrite Forall_forall in He.
        apply (He el); [by eapply list_elem_of_lookup_2 | by left].
      * intros ->. rewrite Forall_forall in Hs.
        apply (Hs sl); [by eapply list_elem_of_lookup_2 | by left].
    + unfold allocated, Heap.write; simpl. by rewrite length_insert.
Qed.

End Loop.

Lemma scanPairs_elem currentTime ks s e :
  scanPairs currentTime ks = Some (s, e) -> s ∈ ks /\ e ∈ ks.
Proof.
  induction ks as [|k0 [|k1 rest] IH]; simpl; try done.
  destruct (JS.ge currentTime (Keyframe.time k0)
            && (currentTime <=? Keyframe.time k1)).
  - intros [= <- <-]. split; [by left | right; by left].
  - intros H. destruct (IH H); split; by right.
Qed.

Lemma last_elem {A : Type} (l : list A) (d : A) :
  l <> [] -> List.last l d ∈ l.
Proof.
  induction l as [|a [|b l] IH]; intros Hne; simpl; [done | by left |].
  right. by apply IH.
Qed.

Lemma selectKeyframes_elem currentTime ks s e :
  selectKeyframes currentTime ks = Some (s, e) -> s ∈ ks /\ e ∈ ks.
Proof.
  unfold selectKeyframes. destruct ks as [|k0 rest]; [done|].
  destruct (scanPairs currentTime (k0 :: rest)) as [[s' e']|] eqn:E.
  - intros [= <- <-]. by apply scanPairs_elem in E.
  - intros [= <- <-]. split; [by left | by apply (last_elem (k0 :: rest) k0)].
Qed.

(** A non-empty keyframe list always yields a pair. *)
Lemma selectKeyframes_total currentTime ks :
  ks <> [] -> exists s e, selectKeyframes currentTime ks = Some (s, e).
Proof.
  unfold selectKeyframes. destruct ks as [|k0 rest]; [done|]. intros _.
  destruct (scanPairs currentTime (k0 :: rest)) as [[s e]|]; eauto.
Qed.

(** The fields that the loop body assigns. *)
Lemma interpolated_fields f s e o :
  let o' := interpolated f s e o in
  Idea.x o' = lerp (Idea.x s) (Idea.x e) f
  /\ Idea.y o' = lerp (Idea.y s) (Idea.y e) f
  /\ match Idea.vx s, Idea.vx e with
     | Some svx, Some evx =>
         Idea.vx o' = Some (lerp svx evx f)
         /\ Idea.vy o' = Some (lerp (JS.ToNumber_optional (Idea.vy s))
                                    (JS.ToNumber_optional (Idea.vy e)) f)
     | _, _ => Idea.vx o' = Idea.vx o /\ Idea.vy o' = Idea.vy o
     end
  /\ match Idea.radius s, Idea.radius e with
     | Some sr, Some er => Idea.radius o' = Some (lerp sr er f)
     | _, _ => Idea.radius o' = Idea.radius o
     end
  /\ Idea.extra o' = Idea.extra o.
Proof.
  unfold interpolated.
  destruct (Idea.vx s), (Idea.vx e), (Idea.radius s), (Idea.radius e);
    simpl; by repeat split.
Qed.

(** What [interpolateBubblePositions] does to the heap, on a state with at
    least two keyframes and no aliasing. *)
Lemma interpolateBubblePositions_spec (progress : float) (w : World)
    (startKeyframe endKeyframe : Keyframe.t) :
  (2 <= length (keyframes (data w)))%nat ->
  separated w ->
  selectKeyframes (progress * (duration (data w) / 1000)) (keyframes (data w))
    = Some (startKeyframe, endKeyframe) ->
  let currentTime := progress * (duration (data w) / 1000) in
  let f := segmentProgress currentTime startKeyframe endKeyframe in
  let startPositions :=
    Heap.read_array (heap w) (Keyframe.positions startKeyframe) in
  let endPositions :=
    Heap.read_array (heap w) (Keyframe.positions endKeyframe) in
  let w' := interpolateBubblePositions progress w in
  (forall index l, ideas w !! index = Some l ->
     Heap.read (heap w') l =
       match startPositions !! index, endPositions !! index with
       | Some startPos, Some endPos =>
           interpolated f (Heap.read (heap w) startPos)
             (Heap.read (heap w) endPos) (Heap.read (heap w) l)
       | _, _ => Heap.read (heap w) l
       end)
  /\ (forall l, l ∉ ideas w -> Heap.read (heap w') l = Heap.read (heap w) l)
  /\ data w' = data w
  /\ ideas w' = ideas w.
Proof.
  intros Hlen (Hnd & Hlive & Hsnap) Hsel.
  unfold interpolateBubblePositions.
  rewrite (proj2 (Nat.ltb_ge _ _) Hlen), Hsel. simpl.
  apply selectKeyframes_elem in Hsel as [Hs He].
  rewrite Forall_forall in Hsnap.
  destruct (Hsnap _ Hs) as [_ Hsa], (Hsnap _ He) as [_ Hea].
  repeat split.
  - intros index l Hl.
    assert (Hal : allocated (heap w) l).
    { unfold live_ok in Hlive. rewrite Forall_forall in Hlive.
      apply Hlive. by eapply list_elem_of_lookup_2. }
    by rewrite (loop_at _ _ _ (ideas w) 0 (heap w) index l Hnd Hl Hal Hsa Hea).
  - intros l Hl. by apply loop_frame.
Qed.

(** C7, as amended. Per-field gating of the interpolation step, on a state
    with at least two keyframes and no aliasing between the live list and
    the snapshots.  For every index of the live list that is in range of
    both selected snapshot lists, the live entity receives the linearly
    interpolated x and y; it receives interpolated vx and vy exactly when
    both snapshots define vx (vy itself is not tested and enters the
    arithmetic as it is); it receives an interpolated radius exactly when
    both snapshots define radius; its other fields stay.  A live entity
    whose index is out of range of either snapshot list, and every object
    that is not a live entity, is left untouched, and so is the animation
    state. *)
Theorem interpolation_gating (progress : float) (w : World) :
  (2 <= length (keyframes (data w)))%nat ->
  separated w ->
  exists startKeyframe endKeyframe,
    let currentTime := progress * (duration (data w) / 1000) in
    selectKeyframes currentTime (keyframes (data w))
      = Some (startKeyframe, endKeyframe)
    /\ let f := segmentProgress currentTime startKeyframe endKeyframe in
       let startPositions :=
         Heap.read_array (heap w) (Keyframe.positions startKeyframe) in
       let endPositions :=
         Heap.read_array (heap w) (Keyframe.positions endKeyframe) in
       let w' := interpolateBubblePositions progress w in
       (forall index l, ideas w !! index = Some l ->
          match startPositions !! index, endPositions !! index with
          | Some startPos, Some endPos =>
              let s := Heap.read (heap w) startPos in
              let e := Heap.read (heap w) endPos in
              let o := Heap.read (heap w) l in
              let o' := Heap.read (heap w') l in
              Idea.x o' = lerp (Idea.x s) (Idea.x e) f
              /\ Idea.y o' = lerp (Idea.y s) (Idea.y e) f
              /\ match Idea.vx s, Idea.vx e with
                 | Some svx, Some evx =>
                     Idea.vx o' = Some (lerp svx evx f)
                     /\ Idea.vy o'
                        = Some (lerp (JS.ToNumber_optional (Idea.vy s))
                                     (JS.ToNumber_optional (Idea.vy e)) f)
                 | _, _ => Idea.vx o' = Idea.vx o /\ Idea.vy o' = Idea.vy o
                 end
              /\ match Idea.radius s, Idea.radius e with
                 | Some sr, Some er => Idea.radius o' = Some (lerp sr er f)
                 | _, _ => Idea.radius o' = Idea.radius o
                 end
              /\ Idea.extra o' = Idea.extra o
          | _, _ => Heap.read (heap w') l = Heap.read (heap w) l
          end)
       /\ (forall l, l ∉ ideas w -> Heap.read (heap w') l = Heap.read (heap w) l)
       /\ data w' = data w
       /\ ideas w' = ideas w.
Proof.
  intros Hlen Hsep.
  destruct (selectKeyframes_total (progress * (duration (data w) / 1000))
              (keyframes (data w))) as (s & e & Hsel).
  { intros E. rewrite E in Hlen. simpl in Hlen. lia. }
  exists s, e. split; [exact Hsel|].
  destruct (interpolateBubblePositions_spec progress w s e Hlen Hsep Hsel)
    as (Hat & Hframe & Hdata & Hideas).
  repeat split; try done.
  intros index l Hl. rewrite (Hat index l Hl).
  repeat match goal with
         | |- context [match ?t !! index with _ => _ end] =>
             destruct (t !! index)
         end; try done.
  apply interpolated_fields.
Qed.

#[local] Instance separated_dec (w : World) : Decision (separated w).
Proof. unfold separated, live_ok, snapshot_apart, allocated. apply _. Defined.

Lemma interpolation_gating_witness :
  (2 <= length (keyframes (data Sample.ended_full)))%nat
  /\ separated Sample.ended_full
  /\ Idea.x (Heap.read (heap (interpolateBubblePositions 0.5 Sample.ended_full))
               0%nat)
     = lerp 10 50 (segmentProgress (0.5 * (10000 / 1000))
                     (Keyframe.mk 0 0%nat) (Keyframe.mk 10 1%nat)).
Proof.
  assert (Hlen : (2 <= length (keyframes (data Sample.ended_full)))%nat)
    by (simpl; lia).
  assert (Hsep : separated Sample.ended_full)
    by (apply (bool_decide_unpack _); vm_compute; exact I).
  split; [exact Hlen|]. split; [exact Hsep|].
  destruct (interpolation_gating 0.5 Sample.ended_full Hlen Hsep)
    as (s & e & Hsel & Hat & _).
  injection Hsel as <- <-.
  exact (proj1 (Hat 0%nat 0%nat eq_refl)).
Defined.

(** C7, as stated, fails: when both snapshots of an entity define vx but
    not vy, the step nevertheless assigns the entity's vy (which becomes
    NaN). *)
Lemma interpolation_gating_counterexample :
  ~ (let w := Sample.begun_vx_only in
     let w' := interpolateBubblePositions 0 w in
     let startPos := Heap.read (heap w) 1%nat in
     let endPos := Heap.read (heap w) 1%nat in
     Idea.vy (Heap.read (heap w') 0%nat) <> Idea.vy (Heap.read (heap w) 0%nat) ->
     is_Some (Idea.vx startPos) /\ is_Some (Idea.vy startPos)
     /\ is_Some (Idea.vx endPos) /\ is_Some (Idea.vy endPos)).
Proof.
  intros H. destruct H as (_ & [v Hv] & _).
  - vm_compute. discriminate.
  - vm_compute in Hv. discriminate Hv.
Qed.

(** ** Persistence *)

(** What [loadAnimation] can change: the two globals it assigns and the
    alerts, of which it raises at most one. *)
Lemma loadAnimation_shape (ToNumber_other : json -> float) (page : Page)
    (timelineMarkers : list Marker.t) (parsed : option json) (w : World) :
  exists a g msgs,
    loadAnimation ToNumber_other page timelineMarkers parsed w
    = mkWorld (data w) (playbackStartTime w) (playbackDuration w)
        (currentPlaybackTime w) (ideas w) (heap w) a g (alerts w ++ msgs)
        (frames w) (downloads w)
    /\ (length msgs <= 1)%nat.
Proof.
  assert (Hw : w = mkWorld (data w) (playbackStartTime w) (playbackDuration w)
                 (currentPlaybackTime w) (ideas w) (heap w) (animationData w)
                 (global_timelineMarkers w) (alerts w ++ []) (frames w)
                 (downloads w)).
  { rewrite app_nil_r. by destruct w. }
  unfold loadAnimation, loadAnimation_onload.
  repeat match goal with
         | |- context [let '(_, _) := ?t in _] => destruct t as [? []]
         | |- context [match ?t with _ => _ end] => destruct t
         | |- context [if ?t then _ else _] => destruct t
         end; simpl;
    first [ by (eexists _, _, [_]; split; [reflexivity | simpl; lia])
          | by (eexists _, _, [];
                split; [by rewrite app_nil_r | simpl; lia])
          | by (eexists _, _, []; split; [exact Hw | simpl; lia]) ].
Qed.

(** [loadAnimation] never assigns [AnimationState.data], the live list or
    the heap: whatever the document, it only sets the globals
    [animationData] and [timelineMarkers] and may alert. *)
Lemma loadAnimation_leaves_state (ToNumber_other : json -> float)
    (page : Page) (timelineMarkers : list Marker.t)
    (parsed : option json) (w : World) :
  data (loadAnimation ToNumber_other page timelineMarkers parsed w) = data w
  /\ heap (loadAnimation ToNumber_other page timelineMarkers parsed w) = heap w
  /\ ideas (loadAnimation ToNumber_other page timelineMarkers parsed w)
     = ideas w.
Proof.
  destruct (loadAnimation_shape ToNumber_other page timelineMarkers parsed w)
    as (a & g & msgs & -> & _).
  done.
Qed.

(** C1. The round trip as the code runs it: saving the recorded animation
    [Sample.ended_full] (inPoint 0, outPoint 10, duration 10000, two
    keyframes) offers [Sample.saved_doc]; loading that document in a newly
    started page passes the validation and raises no alert, yet
    [AnimationState.data] still has no keyframes and [null] in/out points:
    the loaded values are in the global [animationData] only. *)
Theorem save_load_round_trip_lost (ToNumber_other : json -> float) :
  let saved := saveAnimation 1700000000000 "2023-11-14T22:13:20.000Z"
                 Sample.ended_full in
  let loaded := loadAnimation ToNumber_other Sample.page []
                  (Some Sample.saved_doc) Sample.fresh in
  downloads saved = [("Animation_2023-11-14T22-13-20.json"%string, Sample.saved_doc)]
  /\ (inPoint (data Sample.ended_full) = Some 0
      /\ outPoint (data Sample.ended_full) = Some 10
      /\ duration (data Sample.ended_full) = 10000
      /\ length (keyframes (data Sample.ended_full)) = 2%nat)
  /\ alerts loaded = []
  /\ (exists ks,
        animationData loaded = Some (mkLoaded (JNum 0) (JNum 10) (JArr ks) (JNum 10000))
        /\ length ks = 2%nat)
  /\ inPoint (data loaded) = None
  /\ outPoint (data loaded) = None
  /\ keyframes (data loaded) = [].
Proof.
  split; [|split; [|split; [|split; [|split; [|split]]]]].
  - vm_compute; reflexivity.
  - by vm_compute.
  - vm_compute; reflexivity.
  - eexists. split; vm_compute; reflexivity.
  - vm_compute; reflexivity.
  - vm_compute; reflexivity.
  - vm_compute; reflexivity.
Qed.

(** C10. The segment fraction is the unguarded quotient
    [(currentTime - start.time) / (end.time - start.time)] of the selected
    keyframes, and it is what every in-range live entity is interpolated
    with.  When the two times are distinct ([!==]) the divisor is not zero.
    When they are the same ([===]) the divisor is zero (for a finite time),
    the fraction is NaN or an infinity, and so are the x and y written into
    every live entity that both snapshots cover. *)
Theorem segment_fraction_divisor (progress : float) (w : World)
    (startKeyframe endKeyframe : Keyframe.t) :
  (2 <= length (keyframes (data w)))%nat ->
  separated w ->
  selectKeyframes (progress * (duration (data w) / 1000)) (keyframes (data w))
    = Some (startKeyframe, endKeyframe) ->
  let currentTime := progress * (duration (data w) / 1000) in
  let divisor := Keyframe.time endKeyframe - Keyframe.time startKeyframe in
  let f := (currentTime - Keyframe.time startKeyframe) / divisor in
  let startPositions :=
    Heap.read_array (heap w) (Keyframe.positions startKeyframe) in
  let endPositions :=
    Heap.read_array (heap w) (Keyframe.positions endKeyframe) in
  let w' := interpolateBubblePositions progress w in
  (forall index l a b,
     ideas w !! index = Some l ->
     startPositions !! index = Some a -> endPositions !! index = Some b ->
     Idea.x (Heap.read (heap w') l)
       = lerp (Idea.x (Heap.read (heap w) a)) (Idea.x (Heap.read (heap w) b)) f
     /\ Idea.y (Heap.read (heap w') l)
       = lerp (Idea.y (Heap.read (heap w) a)) (Idea.y (Heap.read (heap w) b)) f)
  /\ ((Keyframe.time endKeyframe =? Keyframe.time startKeyframe) = false ->
        is_zero divisor = false)
  /\ ((Keyframe.time startKeyframe =? Keyframe.time endKeyframe) = true ->
        (is_finite (Keyframe.time startKeyframe) = true ->
           is_zero divisor = true)
        /\ JS.isFinite f = false
        /\ forall index l a b,
             ideas w !! index = Some l ->
             startPositions !! index = Some a ->
             endPositions !! index = Some b ->
             JS.isFinite (Idea.x (Heap.read (heap w') l)) = false
             /\ JS.isFinite (Idea.y (Heap.read (heap w') l)) = false).
Proof.
  intros Hlen Hsep Hsel ct divisor f sp ep w'.
  destruct (interpolateBubblePositions_spec progress w _ _ Hlen Hsep Hsel)
    as (Hat & _).
  assert (Hxy : forall index l a b,
     ideas w !! index = Some l -> sp !! index = Some a -> ep !! index = Some b ->
     Idea.x (Heap.read (heap w') l)
       = lerp (Idea.x (Heap.read (heap w) a)) (Idea.x (Heap.read (heap w) b)) f
     /\ Idea.y (Heap.read (heap w') l)
       = lerp (Idea.y (Heap.read (heap w) a)) (Idea.y (Heap.read (heap w) b)) f).
  { intros index l a b Hl Ha Hb. subst w'.
    rewrite (Hat index l Hl). fold sp ep. rewrite Ha, Hb.
    destruct (interpolated_fields
                (segmentProgress ct startKeyframe endKeyframe)
                (Heap.read (heap w) a) (Heap.read (heap w) b)
                (Heap.read (heap w) l)) as (Hx & Hy & _).
    split; [exact Hx | exact Hy]. }
  split; [exact Hxy|]. split.
  - apply sub_not_zero.
  - intros Heq.
    assert (Hf : JS.isFinite f = false) by by apply div_by_eq_difference.
    split; [|split; [exact Hf|]].
    + intros Hfin. by apply sub_eq_zero.
    + intros index l a b Hl Ha Hb.
      destruct (Hxy index l a b Hl Ha Hb) as [-> ->].
      split; by apply lerp_not_finite.
Qed.

Lemma segment_fraction_divisor_witness :
  (2 <= length (keyframes (data Sample.doubled)))%nat
  /\ separated Sample.doubled
  /\ selectKeyframes (0.5 * (10000 / 1000)) (keyframes (data Sample.doubled))
     = Some (Keyframe.mk 5 0%nat, Keyframe.mk 5 1%nat)
  /\ JS.isFinite
       (Idea.x (Heap.read (heap (interpolateBubblePositions 0.5 Sample.doubled))
                  0%nat)) = false.
Proof.
  assert (Hlen : (2 <= length (keyframes (data Sample.doubled)))%nat)
    by (simpl; lia).
  assert (Hsep : separated Sample.doubled)
    by (apply (bool_decide_unpack _); vm_compute; exact I).
  assert (Hsel : selectKeyframes
                   (0.5 * (duration (data Sample.doubled) / 1000))
                   (keyframes (data Sample.doubled))
                 = Some (Keyframe.mk 5 0%nat, Keyframe.mk 5 1%nat))
    by reflexivity.
  split; [exact Hlen|]. split; [exact Hsep|]. split; [exact Hsel|].
  destruct (segment_fraction_divisor 0.5 Sample.doubled _ _ Hlen Hsep Hsel)
    as (_ & _ & Hshared).
  destruct (Hshared eq_refl) as (_ & _ & Hw).
  exact (proj1 (Hw 0%nat 0%nat 1%nat 2%nat eq_refl eq_refl eq_refl)).
Defined.

(** C6, as amended. Interpolation at the boundaries of a segment whose
    keyframe times satisfy t0 < t1 with a finite difference, for a live
    entity that both snapshots cover, at positions (x0,y0) and (x1,y1).
    At currentTime = t0 the fraction is zero and the written x is [===] to
    x0 provided x1 - x0 is finite (no overflow), and likewise for y.  At
    currentTime = t1 the fraction is exactly 1 and the written x is the
    binary64 value of x0 + (x1 - x0), likewise for y.  At the midpoint the
    written x is x0 + (x1 - x0) * f for the binary64 fraction
    f = ((t0 + t1) / 2 - t0) / (t1 - t0), likewise for y; when t0 is a zero
    and t1 is at least 2^-1021 that fraction is exactly one half. *)
Theorem interpolation_boundary (progress : float) (w : World)
    (k0 k1 : Keyframe.t) (index : nat) (l a b : loc) :
  (2 <= length (keyframes (data w)))%nat ->
  separated w ->
  selectKeyframes (progress * (duration (data w) / 1000)) (keyframes (data w))
    = Some (k0, k1) ->
  ideas w !! index = Some l ->
  Heap.read_array (heap w) (Keyframe.positions k0) !! index = Some a ->
  Heap.read_array (heap w) (Keyframe.positions k1) !! index = Some b ->
  (Keyframe.time k0 <? Keyframe.time k1) = true ->
  JS.isFinite (Keyframe.time k1 - Keyframe.time k0) = true ->
  let currentTime := progress * (duration (data w) / 1000) in
  let t0 := Keyframe.time k0 in
  let t1 := Keyframe.time k1 in
  let x0 := Idea.x (Heap.read (heap w) a) in
  let y0 := Idea.y (Heap.read (heap w) a) in
  let x1 := Idea.x (Heap.read (heap w) b) in
  let y1 := Idea.y (Heap.read (heap w) b) in
  let x' := Idea.x (Heap.read (heap (interpolateBubblePositions progress w)) l) in
  let y' := Idea.y (Heap.read (heap (interpolateBubblePositions progress w)) l) in
  (currentTime = t0 ->
     (JS.isFinite (x1 - x0) = true -> JS.strict_eq x' x0 = true)
     /\ (JS.isFinite (y1 - y0) = true -> JS.strict_eq y' y0 = true))
  /\ (currentTime = t1 -> x' = x0 + (x1 - x0) /\ y' = y0 + (y1 - y0))
  /\ (currentTime = (t0 + t1) / 2 ->
        (x' = x0 + (x1 - x0) * (((t0 + t1) / 2 - t0) / (t1 - t0))
         /\ y' = y0 + (y1 - y0) * (((t0 + t1) / 2 - t0) / (t1 - t0)))
        /\ (is_zero t0 = true -> (0x1p-1021 <=? t1) = true ->
              ((t0 + t1) / 2 - t0) / (t1 - t0) = 0.5
              /\ x' = x0 + (x1 - x0) * 0.5
              /\ y' = y0 + (y1 - y0) * 0.5)).
Proof.
  intros Hlen Hsep Hsel Hl Ha Hb Hlt Hfin ct t0 t1 x0 y0 x1 y1 x' y'.
  destruct (interpolateBubblePositions_spec progress w _ _ Hlen Hsep Hsel)
    as (Hat & _).
  assert (Hx : x' = lerp x0 x1 (segmentProgress ct k0 k1)
               /\ y' = lerp y0 y1 (segmentProgress ct k0 k1)).
  { subst x' y'. rewrite (Hat index l Hl), Ha, Hb.
    destruct (interpolated_fields (segmentProgress ct k0 k1)
                (Heap.read (heap w) a) (Heap.read (heap w) b)
                (Heap.read (heap w) l)) as (Hx & Hy & _).
    split; [exact Hx | exact Hy]. }
  destruct Hx as [Hx Hy].
  destruct (sub_finite _ _ Hfin) as [Hf1 Hf0].
  assert (Hne : (t1 =? t0) = false) by by apply ltb_not_eqb.
  destruct (sub_nonzero t1 t0 Hf1 Hf0 Hne) as [Hnz Hnn].
  assert (Hzero : forall u v, JS.isFinite (v - u) = true ->
            JS.strict_eq (lerp u v (segmentProgress t0 k0 k1)) u = true).
  { intros u v Hd. unfold JS.strict_eq.
    apply lerp_at_zero; [|exact Hd].
    unfold segmentProgress. apply zero_div; [|done..].
    apply sub_eq_zero; [done|]. apply eqb_refl.
    unfold is_finite in Hf0. fold t0 in Hf0. by destruct (is_nan t0). }
  assert (Hone : segmentProgress t1 k0 k1 = 1).
  { unfold segmentProgress. fold t0 t1. by apply div_self. }
  split; [|split]; intros Hct; rewrite Hx, Hy, Hct.
  - split; apply Hzero.
  - rewrite Hone. unfold lerp. by rewrite !mul_one.
  - split; [done|]. intros Hz Hle.
    pose proof (midpoint_fraction_from_zero t0 t1 Hz Hf1 Hle) as Hhalf.
    split; [exact Hhalf|].
    unfold lerp, segmentProgress. fold t0 t1. by rewrite Hhalf.
Qed.

Lemma interpolation_boundary_witness :
  (2 <= length (keyframes (data Sample.ended_full)))%nat
  /\ separated Sample.ended_full
  /\ JS.strict_eq
       (Idea.x (Heap.read (heap (interpolateBubblePositions 0 Sample.ended_full))
                  0%nat)) 10 = true
  /\ Idea.x (Heap.read (heap (interpolateBubblePositions 1 Sample.ended_full))
               0%nat) = 10 + (50 - 10)
  /\ Idea.x (Heap.read (heap (interpolateBubblePositions 0.5 Sample.ended_full))
               0%nat) = 10 + (50 - 10) * (((0 + 10) / 2 - 0) / (10 - 0))
  /\ ((0 + 10) / 2 - 0) / (10 - 0) = 0.5
  /\ Idea.x (Heap.read (heap (interpolateBubblePositions 0.5 Sample.ended_full))
               0%nat) = 10 + (50 - 10) * 0.5.
Proof.
  assert (Hlen : (2 <= length (keyframes (data Sample.ended_full)))%nat)
    by (simpl; lia).
  assert (Hsep : separated Sample.ended_full)
    by (apply (bool_decide_unpack _); vm_compute; exact I).
  pose proof (fun p Hsel =>
    interpolation_boundary p Sample.ended_full (Keyframe.mk 0 0%nat)
      (Keyframe.mk 10 1%nat) 0%nat 0%nat 1%nat 2%nat
      Hlen Hsep Hsel eq_refl eq_refl eq_refl eq_refl eq_refl) as H.
  split; [exact Hlen|]. split; [exact Hsep|].
  split; [|split; [|split; [|split]]].
  - exact (proj1 (proj1 (H 0 eq_refl) eq_refl) eq_refl).
  - exact (proj1 (proj1 (proj2 (H 1 eq_refl)) eq_refl)).
  - exact (proj1 (proj1 (proj2 (proj2 (H 0.5 eq_refl)) eq_refl))).
  - exact (proj1 (proj2 (proj2 (proj2 (H 0.5 eq_refl)) eq_refl)
                    eq_refl eq_refl)).
  - exact (proj1 (proj2 (proj2 (proj2 (proj2 (H 0.5 eq_refl)) eq_refl)
                           eq_refl eq_refl))).
Defined.

(** C6, as stated, fails: with the entity recorded at x = 10 at time 0 and
    at x = 0.1 at time 10, interpolating at currentTime = 10 writes
    10 + (0.1 - 10) * 1 = 0.09999999999999964, which is not 0.1. *)
Lemma interpolation_boundary_counterexample :
  ~ (let w := Sample.ended_tenth in
     1 * (duration (data w) / 1000) = 10 ->
     selectKeyframes 10 (keyframes (data w))
       = Some (Keyframe.mk 0 0%nat, Keyframe.mk 10 1%nat) ->
     Idea.x (Heap.read (heap w) 1%nat) = 10 ->
     Idea.x (Heap.read (heap w) 2%nat) = Sample.tenth ->
     Idea.x (Heap.read (heap (interpolateBubblePositions 1 w)) 0%nat)
       = Sample.tenth).
Proof.
  intros H. specialize (H eq_refl eq_refl eq_refl eq_refl).
  apply (f_equal (fun v => v =? Sample.tenth)) in H.
  vm_compute in H. discriminate H.
Qed.

(** At the midpoint the fraction need not be one half.  Between two
    keyframes at time 1 and at the next binary64 after 1, the midpoint
    (1 + 1.0000000000000002) / 2 rounds to 1, the fraction is 0, and the
    entity recorded at x = 10 and at x = 50 is put at x = 10, not at 30. *)
Example midpoint_fraction_can_be_zero :
  let w := Sample.adjacent in
  let x' := Idea.x (Heap.read (heap (interpolateBubblePositions 0.5 w)) 0%nat) in
  selectKeyframes (0.5 * (duration (data w) / 1000)) (keyframes (data w))
    = Some (Keyframe.mk 1 0%nat, Keyframe.mk 0x1.0000000000001p+0 1%nat)
  /\ (1 <? 0x1.0000000000001p+0) = true
  /\ 0.5 * (duration (data w) / 1000) = (1 + 0x1.0000000000001p+0) / 2
  /\ Idea.x (Heap.read (heap w) 1%nat) = 10
  /\ Idea.x (Heap.read (heap w) 2%nat) = 50
  /\ ((1 + 0x1.0000000000001p+0) / 2 - 1) / (0x1.0000000000001p+0 - 1) = 0
  /\ x' = 10.
Proof. repeat split; vm_compute; reflexivity. Qed.

(** With the fraction one half rounding shows as well: from x = 0.1 to
    x = 0.7 over [0, 10], the value written at currentTime = 5 is 0.4, while
    the arithmetic mean (0.1 + 0.7) / 2 is 0.39999999999999997. *)
Example midpoint_is_not_the_mean :
  let x' := Idea.x (Heap.read
                      (heap (interpolateBubblePositions 0.5 Sample.ended_tenths))
                      0%nat) in
  0.5 * (duration (data Sample.ended_tenths) / 1000) = (0 + 10) / 2
  /\ x' = 0x1.999999999999ap-2
  /\ (Sample.tenth + Sample.seven_tenths) / 2 = 0x1.9999999999999p-2
  /\ (x' =? (Sample.tenth + Sample.seven_tenths) / 2) = false.
Proof. split; [|split; [|split]]; vm_compute; reflexivity. Qed.

(** At currentTime = t0 an overflowing difference spoils the result: from
    x = -2^1023 to x = 2^1023 the difference is infinite and the value
    written at currentTime = 0 is NaN. *)
Example start_with_overflowing_difference :
  is_nan (Idea.x (Heap.read
                    (heap (interpolateBubblePositions 0 Sample.ended_far))
                    0%nat)) = true.
Proof. vm_compute; reflexivity. Qed.

(** The example scenario of the specification: recorded at (10, 20) at time
    0 and at (50, 20) at time 10, sampled at progress one half. *)
Example scenario_sampled_at_half :
  Heap.read (heap (interpolateBubblePositions 0.5 Sample.ended_full)) 0%nat
  = Idea.mk 30 20 None None None [].
Proof. reflexivity. Qed.

(** ** Playback *)

Lemma Math_min_ge_one (q : float) : (1 <=? q) = true -> JS.Math_min q 1 = 1.
Proof.
  intros Hle. unfold JS.Math_min.
  destruct (leb_not_nan _ _ Hle) as [_ Hq]. rewrite Hq.
  change (is_nan 1) with false. simpl.
  rewrite (leb_not_ltb _ _ Hle).
  destruct (1 <? q) eqn:Hlt; [reflexivity|].
  rewrite (eqb_one q (leb_ltb_eqb _ _ Hle Hlt)). reflexivity.
Qed.

Lemma Math_min_lt_one (q : float) :
  (JS.Math_min q 1 <? 1) = true -> JS.Math_min q 1 = q /\ (q <? 1) = true.
Proof.
  unfold JS.Math_min.
  destruct (is_nan q) eqn:Hn; simpl; [by intros [=]|].
  change (is_nan 1) with false. simpl.
  destruct (q <? 1) eqn:Hlt; [done|].
  destruct (1 <? q); [by intros [=]|].
  destruct (get_sign q); [by rewrite Hlt | by intros [=]].
Qed.

Lemma Math_min_below_one (q : float) :
  (q <? 1) = true -> JS.Math_min q 1 = q.
Proof.
  intros Hlt. unfold JS.Math_min. rewrite Hlt.
  assert (Hn : is_nan q = false).
  { revert Hlt. rewrite ltb_spec, is_nan_spec. unfold SFltb.
    by destruct (Prim2SF q). }
  rewrite Hn. reflexivity.
Qed.

(** Interpolation touches the heap only. *)
Lemma interpolateBubblePositions_heap_only (progress : float) (w : World) :
  exists h, interpolateBubblePositions progress w = with_heap h w.
Proof.
  unfold interpolateBubblePositions.
  destruct (length (keyframes (data w)) <? 2)%nat.
  - exists (heap w). by destruct w.
  - destruct (selectKeyframes _ _) as [[s e]|]; [by eexists|].
    exists (heap w). by destruct w.
Qed.

(** C9, as amended. Playback termination.  A successful start (at least
    two keyframes, not yet playing) sets the playing flag, stores the clock
    reading and playbackDuration = (outPoint - inPoint) * 1000, and runs the
    first tick with that duration.  For every tick run while playing, with
    [shown p] the state in which the tick has stored
    inPoint + p * (outPoint - inPoint) as the playback time and
    interpolated the entities at progress p: if playbackDuration is positive
    and finite and the elapsed time reaches or exceeds it, the computed
    progress equals 1 and the tick leaves [shown 1] with the playing flag
    cleared; if the elapsed time is below such a duration, the progress is
    below 1; whenever the computed progress is not below 1 (this includes
    progress 1 and NaN), the tick leaves [shown progress] with the flag
    cleared, so isPlaying becomes false and no further tick is scheduled;
    and a tick whose progress is strictly below 1 has the quotient
    elapsed / playbackDuration itself as progress, leaves [shown] of it,
    with isPlaying set, and schedules exactly one further tick. *)
Theorem playback_termination (c : AnimateClosure) (now now' : float)
    (w : World) :
  ((2 <= length (keyframes (data w)))%nat -> isPlaying (data w) = false ->
     let duration := (JS.ToNumber_nullable (outPoint (data w))
                      - JS.ToNumber_nullable (inPoint (data w))) * 1000 in
     let started := set_playback now duration
                      (with_data (set_isPlaying true (data w)) w) in
     startPlayback now now' w
       = animate (mkClosure duration (inPoint (data w)) (outPoint (data w)))
           now' started
     /\ isPlaying (data started) = true
     /\ playbackStartTime started = now
     /\ playbackDuration started = duration)
  /\ (isPlaying (data w) = true ->
      let elapsed := now - playbackStartTime w in
      let progress := JS.Math_min (elapsed / c_duration c) 1 in
      let shown p :=
        interpolateBubblePositions p
          (set_currentPlaybackTime
             (JS.ToNumber_nullable (c_inPoint c)
              + p * (JS.ToNumber_nullable (c_outPoint c)
                     - JS.ToNumber_nullable (c_inPoint c))) w) in
      let w' := animate c now w in
      ((0 <? c_duration c) = true -> JS.isFinite (c_duration c) = true ->
       (c_duration c <=? elapsed) = true ->
         progress = 1
         /\ w' = with_data (set_isPlaying false (data (shown 1))) (shown 1))
      /\ ((0 <? c_duration c) = true -> JS.isFinite (c_duration c) = true ->
          (elapsed <? c_duration c) = true ->
            (progress <? 1) = true)
      /\ ((progress <? 1) = false ->
            w' = with_data (set_isPlaying false (data (shown progress)))
                   (shown progress)
            /\ isPlaying (data w') = false /\ frames w' = frames w)
      /\ ((progress <? 1) = true ->
            progress = elapsed / c_duration c
            /\ w' = requestAnimationFrame c (shown (elapsed / c_duration c))
            /\ isPlaying (data w') = true /\ frames w' = frames w ++ [c])).
Proof.
  split.
  - intros Hlen Hnot. unfold startPlayback.
    rewrite (proj2 (Nat.ltb_ge _ _) Hlen), Hnot. simpl.
    by repeat split.
  - intros Hplay elapsed progress shown w'.
    assert (Hw' : w' = if progress <? 1
                       then requestAnimationFrame c (shown progress)
                       else with_data (set_isPlaying false
                                         (data (shown progress)))
                              (shown progress)).
    { subst w'. unfold animate. by rewrite Hplay. }
    assert (Hshape : forall p, exists h,
               shown p = with_heap h
                           (set_currentPlaybackTime
                              (JS.ToNumber_nullable (c_inPoint c)
                               + p * (JS.ToNumber_nullable (c_outPoint c)
                                      - JS.ToNumber_nullable (c_inPoint c)))
                              w)).
    { intros p. apply interpolateBubblePositions_heap_only. }
    split; [|split; [|split]].
    + intros Hpos Hfin Hle.
      assert (Hp : progress = 1)
        by (apply Math_min_ge_one; by apply div_ge_one).
      split; [exact Hp|]. rewrite Hw', Hp. reflexivity.
    + intros Hpos Hfin Hlt.
      pose proof (div_lt_one _ _ Hpos Hfin Hlt) as Hq.
      unfold progress. by rewrite (Math_min_below_one _ Hq).
    + intros Hp. rewrite Hw', Hp. split; [reflexivity|].
      destruct (Hshape progress) as [h ->]. by split.
    + intros Hp. rewrite Hw', Hp.
      destruct (Math_min_lt_one _ Hp) as [Hq _]. fold progress in Hq.
      split; [exact Hq|]. rewrite <- Hq. split; [reflexivity|].
      destruct (Hshape progress) as [h ->]. simpl. by rewrite Hplay.
Qed.

Lemma playback_termination_witness :
  startPlayback 1000 1000 Sample.ended_full
    = animate Sample.closure_full 1000 Sample.playing_full
  /\ (JS.Math_min ((11000 - 1000) / 10000) 1 = 1
      /\ animate Sample.closure_full 11000 Sample.playing_full
         = with_data
             (set_isPlaying false
                (data (interpolateBubblePositions 1
                         (set_currentPlaybackTime (0 + 1 * (10 - 0))
                            Sample.playing_full))))
             (interpolateBubblePositions 1
                (set_currentPlaybackTime (0 + 1 * (10 - 0))
                   Sample.playing_full)))
  /\ (isPlaying (data (animate Sample.closure_full 11000 Sample.playing_full))
        = false
      /\ frames (animate Sample.closure_full 11000 Sample.playing_full) = [])
  /\ (animate Sample.closure_full 6000 Sample.playing_full
      = requestAnimationFrame Sample.closure_full
          (interpolateBubblePositions ((6000 - 1000) / 10000)
             (set_currentPlaybackTime (0 + (6000 - 1000) / 10000 * (10 - 0))
                Sample.playing_full))
      /\ isPlaying (data (animate Sample.closure_full 6000 Sample.playing_full))
         = true
      /\ frames (animate Sample.closure_full 6000 Sample.playing_full)
         = [Sample.closure_full]).
Proof.
  assert (Hlen : (2 <= length (keyframes (data Sample.ended_full)))%nat)
    by (simpl; lia).
  pose proof (proj1 (playback_termination Sample.closure_full 1000 1000
                       Sample.ended_full) Hlen eq_refl) as (Hstart & _).
  pose proof (proj2 (playback_termination Sample.closure_full 11000 1000
                       Sample.playing_full) eq_refl) as (Hone & _ & Hstop & _).
  pose proof (proj2 (playback_termination Sample.closure_full 6000 1000
                       Sample.playing_full) eq_refl) as (_ & _ & _ & Hgo).
  exact (conj Hstart (conj (Hone eq_refl eq_refl eq_refl)
                        (conj (proj2 (Hstop eq_refl))
                           (proj2 (Hgo eq_refl))))).
Defined.

(** C9, as stated, fails: after "end" with the slider at the far left,
    playbackDuration is 0; the first tick runs in the same millisecond as the
    start, its elapsed time 0 reaches playbackDuration, and the computed
    progress is NaN, not 1. *)
Lemma playback_termination_counterexample :
  ~ (isPlaying (data Sample.playing_zero) = true ->
     let elapsed := 1000 - playbackStartTime Sample.playing_zero in
     (c_duration Sample.closure_zero <=? elapsed) = true ->
     JS.Math_min (elapsed / c_duration Sample.closure_zero) 1 = 1).
Proof.
  intros H. specialize (H eq_refl eq_refl).
  apply (f_equal is_nan) in H. vm_compute in H. discriminate H.
Qed.

(** That tick is the one [startPlayback] runs, and it leaves NaN in the
    entity's position. *)
Example zero_length_playback :
  startPlayback 1000 1000 Sample.ended_zero
    = animate Sample.closure_zero 1000 Sample.playing_zero
  /\ is_nan (Idea.x (Heap.read
                       (heap (startPlayback 1000 1000 Sample.ended_zero))
                       0%nat)) = true
  /\ isPlaying (data (startPlayback 1000 1000 Sample.ended_zero)) = false
  /\ frames (startPlayback 1000 1000 Sample.ended_zero) = [].
Proof. split; [|split; [|split]]; vm_compute; reflexivity. Qed.

(** ** No aliasing is an invariant *)

Lemma separated_sep (w : World) :
  separated w <->
  sep (ideas w) (length (Heap.objects (heap w))) (Heap.arrays (heap w))
    (keyframes (data w)).
Proof. reflexivity. Qed.

Lemma sep_keyframes ids n arrs ks ks' :
  sep ids n arrs ks -> Forall (apart ids arrs) ks' -> sep ids n arrs ks'.
Proof. intros (H1 & H2 & _) H3. by repeat split. Qed.

(** Allocating a block of new objects and an array of references to them
    keeps the separation, and a keyframe on the new array is apart. *)
Lemma sep_grow ids n arrs ks k :
  sep ids n arrs ks ->
  sep ids (n + k) (arrs ++ [seq n k]) ks
  /\ forall t, apart ids (arrs ++ [seq n k]) (Keyframe.mk t (length arrs)).
Proof.
  intros (Hnd & Hlive & Hks). split; [repeat split|].
  - exact Hnd.
  - eapply Forall_impl; [exact Hlive|]. simpl. intros; lia.
  - eapply Forall_impl; [exact Hks|]. intros kf [Hlt Hap]. split.
    + rewrite length_app. simpl. lia.
    + by rewrite lookup_total_app_l.
  - intros t. split; simpl.
    + rewrite length_app. simpl. lia.
    + rewrite lookup_total_app_r by lia. rewrite Nat.sub_diag. simpl.
      apply Forall_forall. intros l Hl Hin.
      apply elem_of_seq in Hl. rewrite Forall_forall in Hlive.
      specialize (Hlive l Hin). lia.
Qed.

(** The heap after a capture. *)
Lemma capture_heap (w : World) :
  live_ok w ->
  exists k,
    length (Heap.objects (heap (captureBubblePositions w).1))
      = (length (Heap.objects (heap w)) + k)%nat
    /\ Heap.arrays (heap (captureBubblePositions w).1)
       = Heap.arrays (heap w) ++ [seq (length (Heap.objects (heap w))) k]
    /\ (captureBubblePositions w).2 = length (Heap.arrays (heap w))
    /\ ideas (captureBubblePositions w).1 = ideas w
    /\ data (captureBubblePositions w).1 = data w.
Proof.
  intros Hok. unfold captureBubblePositions, deepCopyIdeas.
  destruct (copyEach_spec (ideas w) (heap w) Hok) as (Ho & Ha & Hl).
  destruct (copyEach (heap w) (ideas w)) as [h1 ls]; simpl in *.
  exists (length (ideas w)). rewrite Ho, Ha, Hl, length_app, length_map.
  by repeat split.
Qed.

Lemma capture_with_data (d : AnimationData) (w : World) :
  captureBubblePositions (with_data d w)
  = (with_data d (captureBubblePositions w).1, (captureBubblePositions w).2).
Proof.
  unfold captureBubblePositions, deepCopyIdeas; simpl.
  by destruct (copyEach (heap w) (ideas w)).
Qed.

Lemma capture_separated (w : World) :
  separated w ->
  let w' := (captureBubblePositions w).1 in
  let a := (captureBubblePositions w).2 in
  (forall ks', Forall (apart (ideas w') (Heap.arrays (heap w'))) ks' ->
     sep (ideas w') (length (Heap.objects (heap w')))
       (Heap.arrays (heap w')) ks')
  /\ Forall (apart (ideas w') (Heap.arrays (heap w'))) (keyframes (data w))
  /\ (forall t, apart (ideas w') (Heap.arrays (heap w')) (Keyframe.mk t a)).
Proof.
  intros Hsep w' a.
  destruct (capture_heap w (proj1 (proj2 Hsep))) as (k & Hn & Harr & Ha & Hi & _).
  subst w' a. rewrite Hn, Harr, Ha, Hi.
  destruct (sep_grow _ _ _ _ k (proj1 (separated_sep w) Hsep)) as [Hg Hnew].
  repeat split.
  - apply Hg.
  - apply Hg.
  - done.
  - apply Hg.
  - apply Hnew.
  - apply Hnew.
Qed.

Lemma separated_with_data (d : AnimationData) (w : World) :
  separated (with_data d w) <->
  sep (ideas w) (length (Heap.objects (heap w))) (Heap.arrays (heap w))
    (keyframes d).
Proof. reflexivity. Qed.

Lemma separated_same_keyframes (d : AnimationData) (w : World) :
  keyframes d = keyframes (data w) -> separated w -> separated (with_data d w).
Proof.
  intros Hk Hsep. apply separated_with_data. rewrite Hk. by apply separated_sep.
Qed.

Lemma separated_alert (msg : string) (w : World) :
  separated w -> separated (alert msg w).
Proof. done. Qed.

Lemma Forall_apart_alter ids arrs ks a i :
  Forall (apart ids arrs) ks ->
  (forall t, apart ids arrs (Keyframe.mk t a)) ->
  Forall (apart ids arrs) (alter (set_positions a) i ks).
Proof.
  intros Hks Ha. apply Forall_alter; [exact Hks|].
  intros kf _ _. apply Ha.
Qed.

(** The recorder keeps the live list and the snapshots apart. *)
Lemma recordState_separated (type : string) (ui : Controls) (w : World) :
  separated w -> separated (recordState type ui w).
Proof.
  intros Hsep. unfold recordState.
  destruct (String.eqb type "start"); [|destruct (String.eqb type "end");
    [|destruct (String.eqb type "keyframe")]].
  - unfold reset, updateDuration. rewrite !capture_with_data.
    apply separated_with_data. simpl.
    destruct (capture_separated w Hsep) as (Hmk & _ & Hnew).
    apply Hmk. apply Forall_cons; split; [|apply Forall_singleton]; apply Hnew.
  - unfold updateDuration. simpl.
    destruct (isRecording (data w)); simpl; [|by apply separated_same_keyframes].
    rewrite !capture_with_data. simpl.
    destruct (capture_separated w Hsep) as (Hmk & Hold & Hnew).
    destruct (findIndex _ _); apply separated_with_data; simpl; apply Hmk.
    + by apply Forall_apart_alter.
    + apply Forall_app. split; [exact Hold|]. apply Forall_singleton, Hnew.
  - unfold updateDuration, stopPlayback. simpl.
    set (w1 := if isPlaying (data w) then _ else _).
    assert (Hw1 : exists d, w1 = with_data d w /\ keyframes d = keyframes (data w)).
    { subst w1. destruct (isPlaying (data w)); by eexists. }
    destruct Hw1 as (d & -> & Hd).
    destruct (_ || _); [by apply separated_same_keyframes|].
    rewrite capture_with_data. simpl.
    destruct (capture_separated w Hsep) as (Hmk & Hold & Hnew).
    destruct (isRecording d); simpl; apply separated_with_data; simpl; apply Hmk.
    + rewrite Hd. apply Forall_app. split; [exact Hold|].
      apply Forall_singleton, Hnew.
    + apply Forall_singleton, Hnew.
  - by apply separated_same_keyframes.
Qed.

Lemma interpolateBubblePositions_separated (progress : float) (w : World) :
  separated w -> separated (interpolateBubblePositions progress w).
Proof.
  intros Hsep. unfold interpolateBubblePositions.
  destruct (length (keyframes (data w)) <? 2)%nat; [done|].
  destruct (selectKeyframes _ _) as [[s e]|]; [|done].
  apply separated_sep. simpl. rewrite loop_arrays, loop_length.
  by apply separated_sep.
Qed.

Lemma animate_separated (c : AnimateClosure) (now : float) (w : World) :
  separated w -> separated (animate c now w).
Proof.
  intros Hsep. unfold animate.
  destruct (isPlaying (data w)); simpl; [|done].
  set (w1 := set_currentPlaybackTime _ w).
  assert (H1 : separated w1) by done.
  pose proof (interpolateBubblePositions_separated
                (JS.Math_min ((now - playbackStartTime w) / c_duration c) 1)
                w1 H1) as H2.
  destruct (_ <? 1); [done|].
  by apply separated_same_keyframes.
Qed.

Lemma loadAnimation_separated (ToNumber_other : json -> float)
    (page : Page) (timelineMarkers : list Marker.t)
    (parsed : option json) (w : World) :
  separated w ->
  separated (loadAnimation ToNumber_other page timelineMarkers parsed w).
Proof.
  intros Hsep. apply separated_sep.
  destruct (loadAnimation_leaves_state ToNumber_other page timelineMarkers
              parsed w) as (-> & -> & ->).
  by apply separated_sep.
Qed.

(** Every operation of the animation system keeps the live list and the
    snapshots apart. *)
Lemma step_separated (ToNumber_other : json -> float) (ev : event)
    (w : World) :
  separated w -> separated (step ToNumber_other ev w).
Proof.
  intros Hsep.
  destruct ev as [type ui|now now'| |now|p|p|now iso|page ms parsed]; simpl.
  - by apply recordState_separated.
  - unfold startPlayback.
    destruct (length (keyframes (data w)) <? 2)%nat; [done|].
    destruct (isPlaying (data w)); [done|].
    unfold animateBubbles; simpl. by apply animate_separated.
  - done.
  - unfold runFrame. destruct (frames w); [done|]. by apply animate_separated.
  - unfold scrub. destruct (isPlaying (data w)); [done|].
    cbn [negb].
    destruct (2 <=? length (keyframes (data w)))%nat; [|done].
    by apply interpolateBubblePositions_separated.
  - unfold sliderChange.
    destruct (negb (isPlaying (data w)) && isRecording (data w)); [|done].
    destruct (JS.ge p const_0_95); [|done].
    destruct (capture_separated w Hsep) as (Hmk & Hold & Hnew).
    destruct (capture_heap w (proj1 (proj2 Hsep))) as (k & _ & _ & _ & _ & Hd).
    destruct (captureBubblePositions w) as [w1 a] eqn:E; simpl in *.
    rewrite Hd.
    destruct (findIndex _ _).
    + apply separated_with_data. simpl. apply Hmk.
      by apply Forall_apart_alter.
    + apply separated_sep. rewrite Hd. by apply Hmk.
  - unfold saveAnimation.
    by destruct (length (keyframes (data w)) <? 2)%nat.
  - by apply loadAnimation_separated.
Qed.

Lemma run_separated (ToNumber_other : json -> float) (evs : list event) :
  forall w, separated w -> separated (run ToNumber_other evs w).
Proof.
  induction evs as [|ev evs IH]; intros w Hsep; simpl; [done|].
  apply IH. by apply step_separated.
Qed.

(** A page that starts with distinct, allocated entities and nothing
    recorded never has a snapshot aliasing a live entity. *)
Lemma reachable_separated (ToNumber_other : json -> float)
    (ids : list loc) (h : Heap.t) (evs : list event) :
  NoDup ids -> Forall (allocated h) ids ->
  separated (run ToNumber_other evs (initialWorld ids h)).
Proof.
  intros Hnd Hal. apply run_separated. by repeat split.
Qed.

(** * Further properties *)

(** ** Order of binary64 numbers *)

Lemma SFleb_ltb_trans (x y z : spec_float) :
  SFleb x y = true -> SFltb y z = true -> SFltb x z = true.
Proof.
  unfold SFleb, SFltb.
  destruct x as [sx|sx| |sx mx ex], y as [sy|sy| |sy my ey],
           z as [sz|sz| |sz mz ez]; simpl;
    try destruct sx; try destruct sy; try destruct sz; simpl;
    try discriminate; try reflexivity.
  all: destruct (Z.compare_spec ex ey), (Z.compare_spec ey ez),
         (Z.compare_spec ex ez); subst; try lia; try discriminate;
         try reflexivity.
  all: rewrite ?Pos.compare_cont_spec; simpl.
  all: destruct (Pos.compare_spec mx my), (Pos.compare_spec my mz),
         (Pos.compare_spec mx mz); subst; simpl; try lia; try discriminate;
         try reflexivity.
Qed.

Lemma leb_ltb_trans (a b c : float) :
  (a <=? b) = true -> (b <? c) = true -> (a <? c) = true.
Proof. rewrite leb_spec, !ltb_spec. apply SFleb_ltb_trans. Qed.

Lemma ltb_leb (a b : float) : (a <? b) = true -> (a <=? b) = true.
Proof.
  rewrite leb_spec, ltb_spec. unfold SFleb, SFltb.
  by destruct (SFcompare _ _) as [[| |]|].
Qed.

Lemma ltb_asym (a b : float) : (a <? b) = true -> (b <? a) = false.
Proof. intros H. by apply leb_not_ltb, ltb_leb. Qed.

(** ** Timeline markers *)

Section Markers.

Local Abbreviation other type :=
  (fun m : Marker.t => negb (String.eqb (Marker.type m) type)).
Local Abbreviation same type :=
  (fun m : Marker.t => String.eqb (Marker.type m) type).

Lemma filter_same_other type (ms : list Marker.t) :
  List.filter (same type) (List.filter (other type) ms) = [].
Proof.
  induction ms as [|m ms IH]; simpl; [done|].
  destruct (String.eqb (Marker.type m) type) eqn:E; simpl; [done|].
  by rewrite E.
Qed.

Lemma filter_other_idem type (ms : list Marker.t) :
  List.filter (other type) (List.filter (other type) ms)
  = List.filter (other type) ms.
Proof.
  induction ms as [|m ms IH]; simpl; [done|].
  destruct (String.eqb (Marker.type m) type) eqn:E; simpl; [done|].
  by rewrite E, IH.
Qed.

Lemma filter_types_sub (p : Marker.t -> bool) (ms : list Marker.t) ty :
  ty ∈ map Marker.type (List.filter p ms) -> ty ∈ map Marker.type ms.
Proof.
  induction ms as [|m ms IH]; simpl; [done|].
  destruct (p m); simpl.
  - intros [->|H]%elem_of_cons; [by left | right; by apply IH].
  - intros H. right. by apply IH.
Qed.

Lemma filter_types_NoDup (p : Marker.t -> bool) (ms : list Marker.t) :
  NoDup (map Marker.type ms) -> NoDup (map Marker.type (List.filter p ms)).
Proof.
  induction ms as [|m ms IH]; simpl; [done|].
  intros [Hm Hms]%NoDup_cons. destruct (p m); simpl; [|by apply IH].
  apply NoDup_cons. split; [|by apply IH].
  intros H. apply Hm. by eapply filter_types_sub.
Qed.

Lemma filter_other_types type (ms : list Marker.t) :
  type ∉ map Marker.type (List.filter (other type) ms).
Proof.
  induction ms as [|m ms IH]; simpl; [by intros H; inversion H|].
  destruct (String.eqb (Marker.type m) type) eqn:E; simpl; [done|].
  intros [->|H]%elem_of_cons; [|done].
  by rewrite String.eqb_refl in E.
Qed.

Lemma addTimelineMarker_types type time d ms :
  NoDup (map Marker.type ms) ->
  NoDup (map Marker.type (addTimelineMarker type time d ms)).
Proof.
  intros Hnd. unfold addTimelineMarker. rewrite map_app. simpl.
  apply NoDup_app. split; [by apply filter_types_NoDup|]. split.
  - intros ty Hty [->|H]%elem_of_cons; [|by inversion H].
    by apply (filter_other_types type ms).
  - apply NoDup_singleton.
Qed.

Lemma addTimelineMarker_sub type time d ms (tys : list string) :
  type ∈ tys ->
  Forall (fun m => Marker.type m ∈ tys) ms ->
  Forall (fun m => Marker.type m ∈ tys) (addTimelineMarker type time d ms).
Proof.
  intros Hty Hms. unfold addTimelineMarker. apply Forall_app. split.
  - induction Hms as [|m ms Hm Hms IH]; simpl; [done|].
    destruct (negb _); [by constructor | done].
  - by apply Forall_singleton.
Qed.

End Markers.

(** X1. [addTimelineMarker] keeps one marker per type: after the call the
    list holds exactly one marker of the given type, the new one, whose
    position is [time / (duration / 1000) * 100]; the markers of the other
    types are the ones that were there, in their order; and a list whose
    markers had pairwise distinct types still has. *)
Theorem addTimelineMarker_one_per_type (type : string) (time : JS.nullable)
    (d : AnimationData) (ms : list Marker.t) :
  let ms' := addTimelineMarker type time d ms in
  List.filter (fun m => String.eqb (Marker.type m) type) ms'
    = [Marker.mk type (value_of_nullable time)
         (JS.ToNumber_nullable time / (duration d / 1000) * 100)]
  /\ List.filter (fun m => negb (String.eqb (Marker.type m) type)) ms'
     = List.filter (fun m => negb (String.eqb (Marker.type m) type)) ms
  /\ (NoDup (map Marker.type ms) -> NoDup (map Marker.type ms')).
Proof.
  simpl. split; [|split].
  - unfold addTimelineMarker. rewrite List.filter_app, filter_same_other.
    simpl. by rewrite String.eqb_refl.
  - unfold addTimelineMarker. rewrite List.filter_app, filter_other_idem.
    simpl. rewrite String.eqb_refl. simpl. by rewrite app_nil_r.
  - apply addTimelineMarker_types.
Qed.

Lemma addTimelineMarker_one_per_type_witness :
  NoDup (map Marker.type [Marker.mk "keyframe" (Some (JNum 2)) 20])
  /\ NoDup (map Marker.type
              (addTimelineMarker "keyframe" (Some 5) initialData
                 [Marker.mk "keyframe" (Some (JNum 2)) 20])).
Proof.
  assert (H : NoDup (map Marker.type [Marker.mk "keyframe" (Some (JNum 2)) 20]))
    by apply NoDup_singleton.
  split; [exact H|].
  exact (proj2 (proj2 (addTimelineMarker_one_per_type "keyframe" (Some 5)
                         initialData [Marker.mk "keyframe" (Some (JNum 2)) 20])) H).
Defined.

Lemma interior_null (d : AnimationData) (keyframe : Keyframe.t) :
  outPoint d = None -> interior d keyframe = false.
Proof.
  intros Ho. unfold interior. rewrite Ho. simpl.
  destruct (0 <? Keyframe.time keyframe) eqn:E; [|done].
  simpl. by apply ltb_asym.
Qed.

Lemma updateTimelineMarkers_fold (d : AnimationData) (ks : list Keyframe.t) :
  forall tail : list Marker.t,
  Forall (fun m => Marker.type m = "keyframe"%string) tail ->
  fold_left
    (fun timelineMarkers keyframe =>
       if interior d keyframe
       then addTimelineMarker "keyframe" (Some (Keyframe.time keyframe)) d
              timelineMarkers
       else timelineMarkers)
    ks ([new_marker "in" (Some 0) d; new_marker "out" (outPoint d) d] ++ tail)
  = [new_marker "in" (Some 0) d; new_marker "out" (outPoint d) d]
    ++ match last (List.filter (interior d) ks) with
       | Some keyframe =>
           [new_marker "keyframe" (Some (Keyframe.time keyframe)) d]
       | None => tail
       end.
Proof.
  induction ks as [|k ks IH]; intros tail Htail; [done|].
  cbn [fold_left List.filter].
  destruct (interior d k) eqn:Ek.
  - assert (Hadd : addTimelineMarker "keyframe" (Some (Keyframe.time k)) d
             ([new_marker "in" (Some 0) d; new_marker "out" (outPoint d) d]
              ++ tail)
           = [new_marker "in" (Some 0) d; new_marker "out" (outPoint d) d]
             ++ [new_marker "keyframe" (Some (Keyframe.time k)) d]).
    { unfold addTimelineMarker. simpl. do 2 f_equal.
      replace (List.filter _ tail) with (@nil Marker.t); [done|].
      symmetry. induction Htail as [|m tail Hm _ IHt]; simpl; [done|].
      by rewrite Hm. }
    rewrite Hadd, IH by (by apply Forall_singleton).
    f_equal. destruct (List.filter (interior d) ks) as [|k' ks']; [done|].
    change (last (k :: k' :: ks')) with (last (k' :: ks')).
    destruct (last (k' :: ks')) eqn:El; [done|].
    by apply last_None in El.
  - by apply IH.
Qed.

(** X2. [updateTimelineMarkers] leaves the in marker, the out marker and at
    most one keyframe marker, however many keyframes there are: the marker
    of the last keyframe whose time is strictly between 0 and the out
    point.  With a [null] out point no keyframe qualifies. *)
Theorem updateTimelineMarkers_shape (d : AnimationData) :
  updateTimelineMarkers d
  = [new_marker "in" (Some 0) d; new_marker "out" (outPoint d) d]
    ++ match last (List.filter (interior d) (keyframes d)) with
       | Some keyframe =>
           [new_marker "keyframe" (Some (Keyframe.time keyframe)) d]
       | None => []
       end
  /\ (length (updateTimelineMarkers d) <= 3)%nat
  /\ (forall keyframe,
        interior (set_outPoint None d) keyframe = false).
Proof.
  assert (H : updateTimelineMarkers d
    = [new_marker "in" (Some 0) d; new_marker "out" (outPoint d) d]
      ++ match last (List.filter (interior d) (keyframes d)) with
         | Some keyframe =>
             [new_marker "keyframe" (Some (Keyframe.time keyframe)) d]
         | None => []
         end).
  { unfold updateTimelineMarkers.
    exact (updateTimelineMarkers_fold d (keyframes d) [] (Forall_nil_2 _)). }
  split; [exact H|]. split.
  - rewrite H. destruct (last _); simpl; lia.
  - intros keyframe. by apply interior_null.
Qed.
Lemma markers_ok_nil : markers_ok [].
Proof. split; [apply NoDup_nil_2 | apply Forall_nil_2]. Qed.

Lemma addTimelineMarker_ok type time d ms :
  type ∈ marker_types -> markers_ok ms ->
  markers_ok (addTimelineMarker type time d ms).
Proof.
  intros Hty [Hnd Hin]. split.
  - by apply addTimelineMarker_types.
  - by apply addTimelineMarker_sub.
Qed.

Lemma marker_types_in : ("in"%string ∈ marker_types).
Proof. by left. Qed.
Lemma marker_types_out : ("out"%string ∈ marker_types).
Proof. right. by left. Qed.
Lemma marker_types_keyframe : ("keyframe"%string ∈ marker_types).
Proof. right. right. by left. Qed.

Lemma updateTimelineMarkers_ok (d : AnimationData) :
  markers_ok (updateTimelineMarkers d).
Proof.
  unfold updateTimelineMarkers.
  assert (H0 : markers_ok (addTimelineMarker "out" (outPoint d) d
                             (addTimelineMarker "in" (Some 0) d []))).
  { apply addTimelineMarker_ok; [apply marker_types_out|].
    apply addTimelineMarker_ok; [apply marker_types_in | apply markers_ok_nil]. }
  revert H0. generalize (addTimelineMarker "out" (outPoint d) d
                           (addTimelineMarker "in" (Some 0) d [])).
  induction (keyframes d) as [|k ks IH]; intros ms Hms; simpl; [done|].
  apply IH. destruct (interior d k); [|done].
  apply addTimelineMarker_ok; [apply marker_types_keyframe | done].
Qed.

Lemma markers_ok_length (ms : list Marker.t) :
  markers_ok ms -> (length ms <= 3)%nat.
Proof.
  intros [Hnd Hin].
  rewrite <- (length_map Marker.type ms).
  change 3%nat with (length marker_types).
  apply submseteq_length, NoDup_submseteq; [done|].
  intros ty Hty. apply list_elem_of_fmap in Hty as (m & -> & Hm).
  rewrite Forall_forall in Hin. by apply Hin.
Qed.

(** X3. The recorder keeps at most one marker per type.  If the markers have
    pairwise distinct types among "in", "out" and "keyframe", they still
    have after [recordState] and after the slider's [change] listener,
    whatever the operation and the state; such a list has at most three
    markers, so at most one keyframe has a marker. *)
Theorem recorder_markers_distinct (type : string) (ui : Controls)
    (progress : float) (w : World) (ms : list Marker.t) :
  markers_ok ms ->
  markers_ok (recordState_markers type ui w ms)
  /\ markers_ok (sliderChange_markers progress w ms)
  /\ (length (recordState_markers type ui w ms) <= 3)%nat
  /\ (length (sliderChange_markers progress w ms) <= 3)%nat.
Proof.
  intros Hms.
  assert (H1 : markers_ok (recordState_markers type ui w ms)).
  { unfold recordState_markers.
    destruct (String.eqb type "start"); [|destruct (String.eqb type "end");
      [|destruct (String.eqb type "keyframe")]].
    - apply addTimelineMarker_ok; [apply marker_types_out|].
      apply addTimelineMarker_ok; [apply marker_types_in | apply markers_ok_nil].
    - destruct (negb _); [done | apply updateTimelineMarkers_ok].
    - destruct (_ || _); [done|].
      apply addTimelineMarker_ok; [apply marker_types_keyframe | done].
    - done. }
  assert (H2 : markers_ok (sliderChange_markers progress w ms)).
  { unfold sliderChange_markers.
    destruct (_ && _); [|done].
    destruct (JS.ge _ _); [apply updateTimelineMarkers_ok | done]. }
  split; [exact H1|]. split; [exact H2|].
  split; by apply markers_ok_length.
Qed.

Lemma recorder_markers_distinct_witness :
  markers_ok [Marker.mk "keyframe" (Some (JNum 2%float)) 20%float]
  /\ (length (recordState_markers "keyframe" (Sample.ten_seconds 0.5%float)
                Sample.begun [Marker.mk "keyframe" (Some (JNum 2%float)) 20%float]) <= 3)%nat.
Proof.
  assert (H : markers_ok [Marker.mk "keyframe" (Some (JNum 2%float)) 20%float]).
  { split; [apply NoDup_singleton|].
    apply Forall_singleton, marker_types_keyframe. }
  split; [exact H|].
  exact (proj1 (proj2 (proj2 (recorder_markers_distinct "keyframe"
            (Sample.ten_seconds 0.5%float) 0 Sample.begun
            [Marker.mk "keyframe" (Some (JNum 2%float)) 20%float] H)))).
Defined.

(** ** Keeping keyframes up to date *)

(** What a capture returns and leaves, on a live list whose references are
    allocated. *)
Lemma capture_snapshot (w : World) :
  live_ok w ->
  let w' := (captureBubblePositions w).1 in
  let a := (captureBubblePositions w).2 in
  a = length (Heap.arrays (heap w))
  /\ snapshot (heap w') a = map (Heap.read (heap w)) (ideas w)
  /\ (forall l, allocated (heap w) l ->
        Heap.read (heap w') l = Heap.read (heap w) l)
  /\ (forall b, (b < length (Heap.arrays (heap w)))%nat ->
        Heap.read_array (heap w') b = Heap.read_array (heap w) b)
  /\ w' = with_heap (heap w') w.
Proof.
  intros Hok w' a. subst w' a.
  unfold captureBubblePositions, deepCopyIdeas.
  destruct (copyEach_spec (ideas w) (heap w) Hok) as (Ho & Ha & Hl).
  destruct (copyEach (heap w) (ideas w)) as [h1 ls] eqn:E; simpl in *.
  split; [by rewrite Ha|]. split; [|split; [|split]].
  - rewrite Ho. apply snapshot_fresh_block.
    rewrite length_map, <- Hl. by apply list_lookup_middle.
  - intros l Hl'. unfold Heap.read; simpl. rewrite Ho.
    by apply lookup_total_app_l.
  - intros b Hb. unfold Heap.read_array; simpl. rewrite Ha.
    by apply lookup_total_app_l.
  - done.
Qed.

(** What [updateKeyframesForCurrentPositions] leaves when it does not
    return at once. *)
Lemma updateKeyframes_all_current (w : World) :
  live_ok w ->
  isRecording (data w) = true \/ keyframes (data w) <> [] ->
  let w' := updateKeyframesForCurrentPositions w in
  exists a,
    Heap.arrays (heap w) !! a = None
    /\ keyframes (data w') = map (set_positions a) (keyframes (data w))
    /\ snapshot (heap w') a = map (Heap.read (heap w)) (ideas w)
    /\ ideas w' = ideas w
    /\ (forall l, allocated (heap w) l ->
          Heap.read (heap w') l = Heap.read (heap w) l).
Proof.
  intros Hok Hguard w'. subst w'.
  unfold updateKeyframesForCurrentPositions.
  assert (Hg : negb (isRecording (data w))
               && (length (keyframes (data w)) =? 0)%nat = false).
  { destruct Hguard as [->|Hne]; [done|].
    destruct (keyframes (data w)); [done|]. simpl. apply andb_false_r. }
  rewrite Hg.
  destruct (capture_snapshot w Hok) as (Ha & Hsnap & Hread & _ & Hw).
  destruct (captureBubblePositions w) as [w1 a] eqn:E; simpl in *.
  exists a. rewrite Hw. simpl.
  split; [subst a; apply lookup_ge_None; lia|].
  by repeat split.
Qed.

(** X4. [updateKeyframesForCurrentPositions], when a recording is under way
    or a keyframe exists, makes every keyframe refer to one and the same
    newly captured snapshot of the live entities: the times and the number
    of keyframes stay, and whatever the keyframes held before is no longer
    referred to.  The live entities are left as they were. *)
Theorem updateKeyframes_overwrites_all (w : World) :
  live_ok w ->
  isRecording (data w) = true \/ keyframes (data w) <> [] ->
  let w' := updateKeyframesForCurrentPositions w in
  exists a,
    Heap.arrays (heap w) !! a = None
    /\ keyframes (data w') = map (set_positions a) (keyframes (data w))
    /\ map Keyframe.time (keyframes (data w'))
       = map Keyframe.time (keyframes (data w))
    /\ Forall (fun kf => snapshot (heap w') (Keyframe.positions kf)
                         = map (Heap.read (heap w)) (ideas w))
         (keyframes (data w'))
    /\ ideas w' = ideas w
    /\ (forall l, allocated (heap w) l ->
          Heap.read (heap w') l = Heap.read (heap w) l).
Proof.
  intros Hok Hguard w'.
  destruct (updateKeyframes_all_current w Hok Hguard)
    as (a & Hfresh & Hks & Hsnap & Hideas & Hread).
  fold w' in Hks, Hsnap, Hideas, Hread.
  exists a. split; [done|]. split; [done|]. split; [|split; [|by split]].
  - rewrite Hks, map_map. by apply map_ext.
  - rewrite Hks. apply Forall_forall. intros kf Hkf.
    apply list_elem_of_fmap in Hkf as (kf0 & -> & _). exact Hsnap.
Qed.

Lemma updateKeyframes_overwrites_all_witness :
  live_ok Sample.ended_full
  /\ (isRecording (data Sample.ended_full) = true
      \/ keyframes (data Sample.ended_full) <> [])
  /\ exists a,
       keyframes (data (updateKeyframesForCurrentPositions Sample.ended_full))
       = [Keyframe.mk 0 a; Keyframe.mk 10 a].
Proof.
  assert (H1 : live_ok Sample.ended_full) by (repeat constructor).
  assert (H2 : isRecording (data Sample.ended_full) = true
               \/ keyframes (data Sample.ended_full) <> [])
    by (right; discriminate).
  split; [exact H1|]. split; [exact H2|].
  destruct (updateKeyframes_overwrites_all Sample.ended_full H1 H2)
    as (a & _ & Hk & _).
  exists a. exact Hk.
Defined.
Lemma ltb_not_nan (a b : float) :
  (a <? b) = true -> is_nan a = false /\ is_nan b = false.
Proof. intros H. by apply leb_not_nan, ltb_leb. Qed.

Lemma ltb_trans (a b c : float) :
  (a <? b) = true -> (b <? c) = true -> (a <? c) = true.
Proof. intros H. apply leb_ltb_trans. by apply ltb_leb. Qed.

Lemma SFcompare_not_nan (x y : spec_float) :
  SF_nan x = false -> SF_nan y = false -> is_Some (SFcompare x y).
Proof.
  destruct x as [?|?| |? ? ?], y as [?|?| |? ? ?]; try done; by eexists.
Qed.

(** The order is total on numbers. *)
Lemma ltb_false_leb (a b : float) :
  is_nan a = false -> is_nan b = false ->
  (a <? b) = false -> (b <=? a) = true.
Proof.
  rewrite !is_nan_spec, ltb_spec, leb_spec. intros Ha Hb.
  unfold SFltb, SFleb. rewrite (SFcompare_swap (Prim2SF a) (Prim2SF b)).
  destruct (SFcompare_not_nan _ _ Ha Hb) as [c ->]. by destruct c.
Qed.

Lemma leb_false_ltb (a b : float) :
  is_nan a = false -> is_nan b = false ->
  (a <=? b) = false -> (b <? a) = true.
Proof.
  rewrite !is_nan_spec, ltb_spec, leb_spec. intros Ha Hb.
  unfold SFltb, SFleb. rewrite (SFcompare_swap (Prim2SF a) (Prim2SF b)).
  destruct (SFcompare_not_nan _ _ Ha Hb) as [c ->]. by destruct c.
Qed.

Lemma capture_data (w : World) : data (captureBubblePositions w).1 = data w.
Proof.
  unfold captureBubblePositions, deepCopyIdeas.
  by destruct (copyEach (heap w) (ideas w)).
Qed.

Section Closest.
Variable currentTime : float.

Lemma closestLoop_inv (rest : list Keyframe.t) :
  forall pre closestKeyframe minDistance,
  closest_inv currentTime pre (closestKeyframe, minDistance) ->
  closest_inv currentTime (pre ++ rest)
    (closestLoop currentTime rest (length pre) closestKeyframe minDistance).
Proof.
  induction rest as [|k rest IH]; intros pre best m Hinv; simpl.
  - by rewrite app_nil_r.
  - replace (pre ++ k :: rest) with ((pre ++ [k]) ++ rest)
      by (by rewrite <- app_assoc).
    replace (S (length pre)) with (length (pre ++ [k]))
      by (rewrite length_app; simpl; lia).
    destruct Hinv as (Hnan & Hall & Hbest); simpl in *.
    destruct (distance currentTime k <? m) eqn:Hlt; apply IH.
    + assert (Hle : forall kf', kf' ∈ pre ->
                (distance currentTime kf' <=? distance currentTime k) = false).
      { intros kf' Hin.
        destruct (distance currentTime kf' <=? distance currentTime k) eqn:E;
          [|done].
        rewrite Forall_forall in Hall. rewrite <- (Hall kf' Hin).
        symmetry. by eapply leb_ltb_trans. }
      split; [by apply ltb_not_nan in Hlt as [? _]|]. split; simpl.
      * apply Forall_app. split.
        -- apply Forall_forall. intros kf' Hin.
           destruct (distance currentTime kf' <? distance currentTime k) eqn:E;
             [|done].
           apply ltb_leb in E. by rewrite Hle in E.
        -- apply Forall_singleton.
           destruct (distance currentTime k <? distance currentTime k) eqn:E;
             [|done].
           by rewrite (ltb_asym _ _ E) in E.
      * exists k. split; [|done]. split; [|split].
        -- by apply list_lookup_middle.
        -- intros j kf' Hj Hlook. rewrite lookup_app_l in Hlook by done.
           apply Hle. by eapply list_elem_of_lookup_2.
        -- intros j kf' Hj Hlook. apply lookup_lt_Some in Hlook.
           rewrite length_app in Hlook. simpl in Hlook. lia.
    + split; [done|]. split; simpl.
      * apply Forall_app. split; [done | by apply Forall_singleton].
      * destruct best as [index|]; [|done].
        destruct Hbest as (kf & (Hlook & Hbefore & Hafter) & ->).
        exists kf. split; [|done]. split; [|split].
        -- rewrite lookup_app_l; [done|]. by eapply lookup_lt_Some.
        -- intros j kf' Hj Hl. apply (Hbefore j kf' Hj).
           rewrite lookup_app_l in Hl; [done|].
           apply lookup_lt_Some in Hlook. lia.
        -- intros j kf' Hj Hl.
           destruct (decide (j < length pre)%nat) as [Hjp|Hjp].
           ++ rewrite lookup_app_l in Hl by done. by apply (Hafter j kf' Hj).
           ++ rewrite lookup_app_r in Hl by lia.
              destruct (j - length pre)%nat as [|n] eqn:En; simpl in Hl;
                [|by destruct n].
              by injection Hl as <-.
Qed.

Lemma closestLoop_spec (ks : list Keyframe.t) :
  closest_inv currentTime ks (closestLoop currentTime ks 0 None infinity).
Proof.
  apply (closestLoop_inv ks [] None infinity).
  split; [done|]. split; [apply Forall_nil_2 | done].
Qed.

End Closest.
(** X5. [autoUpdateKeyframes] re-captures the keyframe nearest to the slider
    time, and only within half a second.  If no keyframe is less than 0.5 s
    from the slider time, the state is left as it is.  If one is, exactly
    one keyframe is given a newly captured snapshot: the first of the
    nearest ones (no keyframe is strictly nearer, none before it is as
    near), itself less than 0.5 s away; the other keyframes, all times and
    the rest of the state stay. *)
Theorem autoUpdateKeyframes_nearest (progress : float) (w : World) :
  let currentTime := progress * (duration (data w) / 1000) in
  let ks := keyframes (data w) in
  let w' := autoUpdateKeyframes (Some progress) w in
  (Forall (fun kf => (distance currentTime kf <? 0.5) = false) ks -> w' = w)
  /\ (forall kf0, kf0 ∈ ks -> (distance currentTime kf0 <? 0.5) = true ->
      exists index kf,
        nearest currentTime ks index kf
        /\ (distance currentTime kf <? 0.5) = true
        /\ w' = with_data
                  (set_keyframes
                     (alter (set_positions (captureBubblePositions w).2)
                        index ks)
                     (data w))
                  (captureBubblePositions w).1).
Proof.
  intros currentTime ks w'. subst w'. unfold autoUpdateKeyframes.
  fold currentTime. fold ks.
  pose proof (closestLoop_spec currentTime ks) as (Hnan & Hall & Hbest).
  destruct (closestLoop currentTime ks 0 None infinity) as [best m].
  simpl in *. split.
  - intros Hfar. destruct (0 <? length ks)%nat; [|done].
    destruct best as [index|]; [|done].
    destruct Hbest as (kf & (Hlook & _) & ->).
    rewrite Forall_forall in Hfar.
    by rewrite (Hfar kf (list_elem_of_lookup_2 _ _ _ Hlook)).
  - intros kf0 Hin Hnear.
    assert (Hlen : (0 <? length ks)%nat = true).
    { apply Nat.ltb_lt. destruct ks; [by inversion Hin | simpl; lia]. }
    rewrite Hlen.
    destruct (ltb_not_nan _ _ Hnear) as [Hn0 _].
    rewrite Forall_forall in Hall. specialize (Hall kf0 Hin).
    assert (Hm : (m <? 0.5) = true).
    { apply (leb_ltb_trans _ (distance currentTime kf0)); [|done].
      by apply ltb_false_leb. }
    rewrite Hm.
    destruct best as [index|].
    + destruct Hbest as (kf & Hnearest & ->).
      exists index, kf. split; [done|]. split; [done|].
      pose proof (capture_data w) as Hd.
      destruct (captureBubblePositions w) as [w1 a]; simpl in *.
      by rewrite Hd.
    + subst m. by vm_compute in Hm.
Qed.

Lemma autoUpdateKeyframes_nearest_witness :
  Keyframe.mk 10 1%nat ∈ keyframes (data Sample.ended_full)
  /\ (distance (1 * (10000 / 1000)) (Keyframe.mk 10 1%nat) <? 0.5) = true
  /\ exists index kf,
       nearest (1 * (10000 / 1000)) (keyframes (data Sample.ended_full))
         index kf
       /\ (distance (1 * (10000 / 1000)) kf <? 0.5) = true.
Proof.
  assert (Hin : Keyframe.mk 10 1%nat ∈ keyframes (data Sample.ended_full)).
  { right. left. }
  assert (Hnear : (distance (1 * (10000 / 1000)) (Keyframe.mk 10 1%nat)
                   <? 0.5) = true) by (vm_compute; reflexivity).
  split; [exact Hin|]. split; [exact Hnear|].
  destruct (proj2 (autoUpdateKeyframes_nearest 1 Sample.ended_full)
              (Keyframe.mk 10 1%nat) Hin Hnear)
    as (index & kf & Hn & Hd & _).
  exists index, kf. split; [exact Hn | exact Hd].
Defined.
Section Recapture.
Variable w : World.

Lemma kept_refl h' (ks : list Keyframe.t) :
  Forall2 (kept_or_current w h') ks ks.
Proof.
  apply Forall_Forall2_diag, Forall_forall. intros kf _.
  by split; [|left].
Qed.

Lemma kept_alter h' a (ks : list Keyframe.t) (index : nat) :
  Heap.arrays (heap w) !! a = None ->
  snapshot h' a = map (Heap.read (heap w)) (ideas w) ->
  Forall2 (kept_or_current w h') ks (alter (set_positions a) index ks).
Proof.
  intros Hfresh Hsnap. revert index.
  induction ks as [|k ks IH]; intros [|index]; simpl; constructor;
    try apply kept_refl; try apply IH; split; try done.
  - right. by split.
  - by left.
Qed.

Lemma kept_map h' a (ks : list Keyframe.t) :
  Heap.arrays (heap w) !! a = None ->
  snapshot h' a = map (Heap.read (heap w)) (ideas w) ->
  Forall2 (kept_or_current w h') ks (map (set_positions a) ks).
Proof.
  intros Hfresh Hsnap.
  induction ks as [|k ks IH]; simpl; constructor; [|done].
  split; [done|]. right. by split.
Qed.

Lemma recaptured_refl : recaptured w w.
Proof.
  split; [|split; [apply kept_refl | done]].
  destruct w as [d ? ? ? ? ? ? ? ? ? ?]. by destruct d.
Qed.

Lemma recaptured_capture (ks' : list Keyframe.t) :
  live_ok w ->
  Forall2 (kept_or_current w (heap (captureBubblePositions w).1))
    (keyframes (data w)) ks' ->
  recaptured w
    (with_data (set_keyframes ks' (data (captureBubblePositions w).1))
       (captureBubblePositions w).1).
Proof.
  intros Hok Hks'.
  destruct (capture_snapshot w Hok) as (Ha & Hsnap & Hread & Harr & Hw).
  unfold recaptured. simpl. rewrite capture_data.
  split; [by rewrite Hw at 1|]. by repeat split.
Qed.

End Recapture.

(** X6. The operations that re-capture existing keyframes (the slider's
    [change] listener, [autoUpdateKeyframes] and
    [updateKeyframesForCurrentPositions]) change nothing but the keyframe
    list and the heap.  Keyframe by keyframe, the time stays and the
    snapshot is either the array it was or a newly allocated one that holds
    the live entities as they are; no keyframe is added or removed.  The
    objects and arrays that existed are left as they were. *)
Theorem recapture_keeps_times (ToNumber_other : json -> float) (a : action)
    (w : World) :
  recapture a = true ->
  live_ok w ->
  recaptured w (act ToNumber_other a w).
Proof.
  intros Hre Hok.
  destruct (capture_snapshot w Hok) as (Ha & Hsnap & _).
  assert (Hfresh : Heap.arrays (heap w) !! (captureBubblePositions w).2 = None).
  { rewrite Ha. apply lookup_ge_None. lia. }
  pose proof (fun ks' => recaptured_capture w ks' Hok) as Hnew.
  pose proof (capture_data w) as Hd.
  destruct a as [[| | | | |progress| |]| | |slider|]; try discriminate Hre;
    simpl.
  - unfold sliderChange.
    destruct (negb (isPlaying (data w)) && isRecording (data w));
      [|apply recaptured_refl].
    destruct (JS.ge progress const_0_95); [|apply recaptured_refl].
    destruct (findIndex (time_is (outPoint (data w))) (keyframes (data w)))
      as [i|] eqn:Ei.
    + specialize (Hnew (alter (set_positions (captureBubblePositions w).2) i
                          (keyframes (data w)))
                    (kept_alter w _ _ _ _ Hfresh Hsnap)).
      destruct (captureBubblePositions w) as [w1 a1]; simpl in *.
      rewrite Hd, Ei. by rewrite Hd in Hnew.
    + specialize (Hnew (keyframes (data w)) (kept_refl w _ _)).
      destruct (captureBubblePositions w) as [w1 a1]; simpl in *.
      rewrite Hd, Ei. rewrite Hd in Hnew.
      replace w1 with (with_data (set_keyframes (keyframes (data w)) (data w)) w1);
        [done|].
      rewrite <- Hd. destruct w1 as [d ? ? ? ? ? ? ? ? ?]. by destruct d.
  - unfold updateKeyframesForCurrentPositions.
    destruct (_ && _); [apply recaptured_refl|].
    specialize (Hnew (map (set_positions (captureBubblePositions w).2)
                        (keyframes (data w)))
                  (kept_map w _ _ _ Hfresh Hsnap)).
    destruct (captureBubblePositions w) as [w1 a1]; simpl in *.
    by rewrite Hd in *.
  - unfold autoUpdateKeyframes.
    destruct (0 <? length (keyframes (data w)))%nat; [|apply recaptured_refl].
    destruct slider as [progress|]; [|apply recaptured_refl].
    destruct (closestLoop _ _ _ _ _) as [[index|] m]; [|apply recaptured_refl].
    destruct (m <? 0.5); [|apply recaptured_refl].
    specialize (Hnew (alter (set_positions (captureBubblePositions w).2)
                        index (keyframes (data w)))
                  (kept_alter w _ _ _ _ Hfresh Hsnap)).
    destruct (captureBubblePositions w) as [w1 a1]; simpl in *.
    by rewrite Hd in *.
Qed.

Lemma recapture_keeps_times_witness :
  recapture AUpdateKeyframes = true
  /\ live_ok Sample.ended_full
  /\ recaptured Sample.ended_full
       (updateKeyframesForCurrentPositions Sample.ended_full).
Proof.
  assert (H1 : live_ok Sample.ended_full) by (repeat constructor).
  split; [reflexivity|]. split; [exact H1|].
  exact (recapture_keeps_times (fun _ => 0) AUpdateKeyframes
           Sample.ended_full eq_refl H1).
Defined.

(** ** Playback *)

(** What a run of [animate] can change: the playing flag, the playback
    time, the heap and the queue of frame callbacks. *)
Lemma animate_shape (c : AnimateClosure) (now : float) (w : World) :
  exists p t h fr,
    animate c now w
    = mkWorld (set_isPlaying p (data w)) (playbackStartTime w)
        (playbackDuration w) t (ideas w) h (animationData w)
        (global_timelineMarkers w) (alerts w) fr (downloads w)
    /\ (h = heap w
        \/ h = heap (interpolateBubblePositions
                       (JS.Math_min ((now - playbackStartTime w) / c_duration c) 1)
                       w)).
Proof.
  unfold animate. destruct (isPlaying (data w)) eqn:Ep; simpl.
  - set (p := JS.Math_min _ 1).
    set (w1 := set_currentPlaybackTime _ w).
    destruct (interpolateBubblePositions_heap_only p w1) as [h Hh].
    assert (Hheap : heap (interpolateBubblePositions p w1)
                    = heap (interpolateBubblePositions p w)).
    { unfold interpolateBubblePositions. simpl.
      destruct (length (keyframes (data w)) <? 2)%nat; [done|].
      by destruct (selectKeyframes _ _) as [[s e]|]. }
    rewrite Hh in *. simpl in Hheap.
    destruct (p <? 1).
    + exists true, (currentPlaybackTime w1), h, (frames w ++ [c]).
      split; [|by right]. unfold requestAnimationFrame; simpl.
      f_equal. destruct (data w); simpl in *. by subst.
    + exists false, (currentPlaybackTime w1), h, (frames w).
      split; [|by right]. reflexivity.
  - exists false, (currentPlaybackTime w), (heap w), (frames w).
    split; [|by left]. destruct w as [d ? ? ? ? ? ? ? ? ? ?]; simpl in *.
    destruct d; simpl in *. by subst.
Qed.



(** Interpolation leaves the arrays and every object that is not a live
    entity as they were. *)
Lemma interpolateBubblePositions_frame (progress : float) (w : World) :
  Heap.arrays (heap (interpolateBubblePositions progress w))
  = Heap.arrays (heap w)
  /\ forall l, l ∉ ideas w ->
       Heap.read (heap (interpolateBubblePositions progress w)) l
       = Heap.read (heap w) l.
Proof.
  unfold interpolateBubblePositions.
  destruct (length (keyframes (data w)) <? 2)%nat; [done|].
  destruct (selectKeyframes _ _) as [[s e]|]; [|done]. simpl.
  split; [apply loop_arrays|]. intros l Hl. by apply loop_frame.
Qed.

Lemma interpolateBubblePositions_snapshots (progress : float) (w : World) :
  separated w ->
  Forall (fun kf =>
            snapshot (heap (interpolateBubblePositions progress w))
              (Keyframe.positions kf)
            = snapshot (heap w) (Keyframe.positions kf))
    (keyframes (data w)).
Proof.
  intros (_ & _ & Hsnap).
  destruct (interpolateBubblePositions_frame progress w) as [Harr Hread].
  eapply Forall_impl; [exact Hsnap|]. intros kf [_ Hap].
  unfold snapshot, Heap.read_array. rewrite Harr.
  apply map_ext_Forall. eapply Forall_impl; [exact Hap|].
  intros l Hl. by apply Hread.
Qed.

(** X10. Playing, scrubbing, stopping, saving and loading never alter what
    was recorded, on a state without aliasing: the keyframe list, the in and
    out points, the duration and the recording flag stay, and every
    keyframe's snapshot holds the same objects as before, although the live
    entities are overwritten by the interpolation. *)
Theorem playback_keeps_recording (ToNumber_other : json -> float)
    (ev : event) (w : World) :
  playback_event ev = true ->
  separated w ->
  let w' := step ToNumber_other ev w in
  keyframes (data w') = keyframes (data w)
  /\ inPoint (data w') = inPoint (data w)
  /\ outPoint (data w') = outPoint (data w)
  /\ duration (data w') = duration (data w)
  /\ isRecording (data w') = isRecording (data w)
  /\ ideas w' = ideas w
  /\ Forall (fun kf =>
               snapshot (heap w') (Keyframe.positions kf)
               = snapshot (heap w) (Keyframe.positions kf))
       (keyframes (data w)).
Proof.
  intros Hev Hsep.
  assert (Hsame : Forall (fun kf =>
                            snapshot (heap w) (Keyframe.positions kf)
                            = snapshot (heap w) (Keyframe.positions kf))
                    (keyframes (data w))).
  { by apply Forall_forall. }
  assert (Hanimate : forall c now w0,
            data w0 = set_isPlaying (isPlaying (data w0)) (data w)
            -> ideas w0 = ideas w -> heap w0 = heap w ->
            let w' := animate c now w0 in
            keyframes (data w') = keyframes (data w)
            /\ inPoint (data w') = inPoint (data w)
            /\ outPoint (data w') = outPoint (data w)
            /\ duration (data w') = duration (data w)
            /\ isRecording (data w') = isRecording (data w)
            /\ ideas w' = ideas w
            /\ Forall (fun kf =>
                         snapshot (heap w') (Keyframe.positions kf)
                         = snapshot (heap w) (Keyframe.positions kf))
                 (keyframes (data w))).
  { intros c now w0 Hd Hi Hh.
    assert (Hsep0 : separated w0).
    { apply separated_sep. rewrite Hi, Hh, Hd. by apply separated_sep. }
    destruct (animate_shape c now w0) as (p & t & h & fr & -> & Hheap).
    simpl. rewrite Hd. simpl. repeat split; try done.
    destruct Hheap as [->| ->]; [by rewrite Hh|].
    pose proof (interpolateBubblePositions_snapshots
                  (JS.Math_min ((now - playbackStartTime w0) / c_duration c) 1)
                  w0 Hsep0) as Hs.
    rewrite Hd in Hs. simpl in Hs. by rewrite Hh in Hs. }
  destruct ev as [type ui|now now'| |now|p|p|now iso|page ms parsed];
    try discriminate Hev; simpl.
  - unfold startPlayback.
    destruct (length (keyframes (data w)) <? 2)%nat; [by repeat split|].
    destruct (isPlaying (data w)); [by repeat split|].
    unfold animateBubbles; simpl. by apply Hanimate.
  - by repeat split.
  - unfold runFrame. destruct (frames w) as [|c rest]; [by repeat split|].
    apply Hanimate; simpl; try done. by destruct (data w).
  - unfold scrub. destruct (isPlaying (data w)); [by repeat split|].
    cbn [negb].
    destruct (2 <=? length (keyframes (data w)))%nat; [|by repeat split].
    set (w0 := set_currentPlaybackTime _ w).
    destruct (interpolateBubblePositions_heap_only p w0) as [h Hh].
    pose proof (interpolateBubblePositions_snapshots p w0 Hsep) as Hs.
    rewrite Hh in *. by repeat split.
  - unfold saveAnimation.
    by destruct (length (keyframes (data w)) <? 2)%nat; repeat split.
  - destruct (loadAnimation_leaves_state ToNumber_other page ms parsed w)
      as (-> & -> & ->).
    by repeat split.
Qed.

Lemma playback_keeps_recording_witness :
  playback_event (EScrub 0.5) = true
  /\ separated Sample.ended_full
  /\ Forall (fun kf =>
               snapshot (heap (step (fun _ => 0) (EScrub 0.5)
                                 Sample.ended_full))
                 (Keyframe.positions kf)
               = snapshot (heap Sample.ended_full) (Keyframe.positions kf))
       (keyframes (data Sample.ended_full)).
Proof.
  assert (Hsep : separated Sample.ended_full)
    by (apply (bool_decide_unpack _); vm_compute; exact I).
  split; [reflexivity|]. split; [exact Hsep|].
  exact (proj2 (proj2 (proj2 (proj2 (proj2 (proj2
           (playback_keeps_recording (fun _ => 0) (EScrub 0.5)
              Sample.ended_full eq_refl Hsep))))))).
Defined.

(** ** Invariants of every operation *)

Lemma act_separated (ToNumber_other : json -> float) (a : action)
    (w : World) :
  separated w -> separated (act ToNumber_other a w).
Proof.
  intros Hsep.
  destruct (capture_separated w Hsep) as (Hmk & Hold & Hnew).
  pose proof (capture_data w) as Hd.
  destruct a as [ev|value| |slider|]; simpl.
  - by apply step_separated.
  - by apply separated_same_keyframes.
  - unfold updateKeyframesForCurrentPositions.
    destruct (_ && _); [done|].
    destruct (captureBubblePositions w) as [w1 a1]; simpl in *.
    apply separated_with_data. simpl. apply Hmk. rewrite Hd.
    apply Forall_forall. intros kf Hkf.
    apply list_elem_of_fmap in Hkf as (kf0 & -> & _). apply Hnew.
  - unfold autoUpdateKeyframes.
    destruct (0 <? length (keyframes (data w)))%nat; [|done].
    destruct slider as [progress|]; [|done].
    destruct (closestLoop _ _ _ _ _) as [[index|] m]; [|done].
    destruct (m <? 0.5); [|done].
    destruct (captureBubblePositions w) as [w1 a1]; simpl in *.
    apply separated_with_data. simpl. apply Hmk. rewrite Hd.
    by apply Forall_apart_alter.
  - unfold testBubbleCapture.
    destruct (length (ideas w) =? 0)%nat; [done|].
    destruct (captureBubblePositions w) as [w1 a1]; simpl in *.
    destruct (0 <? length (Heap.read_array (heap w1) a1))%nat.
    + apply separated_with_data. simpl. apply Hmk.
      apply Forall_cons; split; [|apply Forall_singleton]; apply Hnew.
    + apply separated_sep. rewrite Hd. by apply Hmk.
Qed.

(** X8. No operation makes a snapshot share an object with the live list.
    From a state in which the live list holds distinct, allocated entities
    and every keyframe's snapshot is apart from it, any sequence of recorder
    calls, playback, frames, slider moves, saves, loads, duration changes,
    [updateKeyframesForCurrentPositions], [autoUpdateKeyframes] and
    [testBubbleCapture] leads to such a state. *)
Theorem no_aliasing_invariant (ToNumber_other : json -> float)
    (acts : list action) (w : World) :
  separated w -> separated (perform ToNumber_other acts w).
Proof.
  revert w. induction acts as [|a acts IH]; intros w Hsep; simpl; [done|].
  apply IH. by apply act_separated.
Qed.

Lemma no_aliasing_invariant_witness :
  separated Sample.fresh
  /\ separated
       (perform (fun _ => 0)
          [ATestCapture; AEvent (EScrub 0.5); AUpdateKeyframes;
           AAutoUpdate (Some 1)]
          Sample.fresh).
Proof.
  assert (Hsep : separated Sample.fresh)
    by (apply (bool_decide_unpack _); vm_compute; exact I).
  split; [exact Hsep|].
  exact (no_aliasing_invariant (fun _ => 0)
           [ATestCapture; AEvent (EScrub 0.5); AUpdateKeyframes;
            AAutoUpdate (Some 1)]
           Sample.fresh Hsep).
Defined.

Lemma recording_ok_flags (d d' : AnimationData) :
  inPoint d' = inPoint d -> outPoint d' = outPoint d ->
  isRecording d' = isRecording d ->
  (keyframes d <> [] -> keyframes d' <> []) ->
  recording_ok d -> recording_ok d'.
Proof.
  intros Hi Ho Hr Hk [Hin Hrec]. unfold recording_ok.
  rewrite Hi, Ho, Hr. split; [done|]. intros H.
  destruct (Hrec H) as (? & ? & ?). auto.
Qed.

Lemma alter_not_nil {A : Type} (f : A -> A) (i : nat) (l : list A) :
  l <> [] -> alter f i l <> [].
Proof. destruct l, i; simpl; done. Qed.

Lemma recordState_recording_ok (type : string) (ui : Controls) (w : World) :
  recording_ok (data w) -> recording_ok (data (recordState type ui w)).
Proof.
  intros Hok. pose proof Hok as [Hin Hrec]. unfold recordState.
  destruct (String.eqb type "start"); [|destruct (String.eqb type "end");
    [|destruct (String.eqb type "keyframe")]].
  - unfold reset, updateDuration. rewrite !capture_with_data. simpl.
    split; [by right|]. intros _. by split; [|split; [eexists|]].
  - unfold updateDuration. simpl.
    destruct (isRecording (data w)) eqn:Er; simpl.
    + rewrite !capture_with_data. simpl. rewrite ?capture_data.
      destruct (findIndex _ _); simpl; (split; [exact Hin | discriminate]).
    + split; simpl; [exact Hin | by rewrite Er].
  - unfold updateDuration, stopPlayback. simpl.
    set (w1 := if isPlaying (data w) then _ else _).
    assert (Hw1 : exists p, w1 = with_data (set_isPlaying p
                                 (set_duration (durationValue ui) (data w))) w).
    { subst w1. destruct (isPlaying (data w)) eqn:Ep; simpl.
      - by exists false.
      - exists false. f_equal. destruct (data w); simpl in *. by subst. }
    destruct Hw1 as (p & ->). simpl.
    destruct (_ || _); simpl.
    + eapply recording_ok_flags; [..|exact Hok]; done.
    + rewrite capture_with_data. simpl. rewrite ?capture_data.
      destruct (isRecording (data w)) eqn:Er; simpl.
      * destruct (Hrec eq_refl) as (Hi & Ho & Hk).
        split; simpl; [by right|]. intros _.
        split; [done|]. split; [done|]. by destruct (keyframes (data w)).
      * split; simpl; [by right|]. intros _.
        by split; [|split; [eexists|]].
  - eapply recording_ok_flags; [..|exact Hok]; done.
Qed.

Lemma act_recording_ok (ToNumber_other : json -> float) (a : action)
    (w : World) :
  recording_ok (data w) -> recording_ok (data (act ToNumber_other a w)).
Proof.
  intros Hok. pose proof (capture_data w) as Hd.
  destruct a as [[type ui|now now'| |now|p|p|now iso|page ms parsed]|value| |slider|];
    simpl.
  - by apply recordState_recording_ok.
  - unfold startPlayback.
    destruct (length (keyframes (data w)) <? 2)%nat; [done|].
    destruct (isPlaying (data w)); simpl.
    + eapply recording_ok_flags; [..|exact Hok]; done.
    + unfold animateBubbles; simpl.
      match goal with
      | |- context [animate ?c ?n ?w0] =>
          destruct (animate_shape c n w0) as (q & t & h & fr & -> & _)
      end.
      simpl. eapply recording_ok_flags; [..|exact Hok]; done.
  - eapply recording_ok_flags; [..|exact Hok]; done.
  - unfold runFrame. destruct (frames w) as [|c rest]; [done|].
    match goal with
    | |- context [animate ?c ?n ?w0] =>
        destruct (animate_shape c n w0) as (q & t & h & fr & -> & _)
    end.
    simpl. eapply recording_ok_flags; [..|exact Hok]; done.
  - unfold scrub. destruct (isPlaying (data w)); [done|]. cbn [negb].
    destruct (2 <=? length (keyframes (data w)))%nat; [|done].
    match goal with
    | |- context [interpolateBubblePositions ?q ?w0] =>
        destruct (interpolateBubblePositions_heap_only q w0) as [h ->]
    end.
    done.
  - unfold sliderChange.
    destruct (negb (isPlaying (data w)) && isRecording (data w)); [|done].
    destruct (JS.ge p const_0_95); [|done].
    destruct (captureBubblePositions w) as [w1 a1]; simpl in *.
    rewrite Hd. destruct (findIndex _ _); simpl; [|by rewrite Hd].
    eapply recording_ok_flags; [..|exact Hok]; try done.
    simpl. apply alter_not_nil.
  - unfold saveAnimation.
    by destruct (length (keyframes (data w)) <? 2)%nat.
  - by destruct (loadAnimation_leaves_state ToNumber_other page ms parsed w)
      as (-> & _).
  - eapply recording_ok_flags; [..|exact Hok]; done.
  - unfold updateKeyframesForCurrentPositions.
    destruct (_ && _); [done|].
    destruct (captureBubblePositions w) as [w1 a1]; simpl in *.
    rewrite Hd. eapply recording_ok_flags; [..|exact Hok]; try done.
    simpl. by destruct (keyframes (data w)).
  - unfold autoUpdateKeyframes.
    destruct (0 <? length (keyframes (data w)))%nat; [|done].
    destruct slider as [progress|]; [|done].
    destruct (closestLoop _ _ _ _ _) as [[index|] m]; [|done].
    destruct (m <? 0.5); [|done].
    destruct (captureBubblePositions w) as [w1 a1]; simpl in *.
    rewrite Hd. eapply recording_ok_flags; [..|exact Hok]; try done.
    simpl. apply alter_not_nil.
  - unfold testBubbleCapture.
    destruct (length (ideas w) =? 0)%nat; [done|].
    destruct (captureBubblePositions w) as [w1 a1]; simpl in *.
    destruct (0 <? length (Heap.read_array (heap w1) a1))%nat;
      [|by rewrite Hd].
    simpl. split; simpl; [by right | discriminate].
Qed.

(** X9. The recorder's bookkeeping in every state the page reaches from its
    initial state, by any sequence of operations: the in point is [null] or
    0 (no operation places it anywhere else), and while a recording is under
    way the in point is 0, the out point is a number and there is at least
    one keyframe. *)
Theorem recording_invariant (ToNumber_other : json -> float)
    (acts : list action) (ids : list loc) (h : Heap.t) :
  recording_ok (data (perform ToNumber_other acts (initialWorld ids h))).
Proof.
  assert (H : forall w, recording_ok (data w) ->
                recording_ok (data (perform ToNumber_other acts w))).
  { induction acts as [|a acts IH]; intros w Hok; simpl; [done|].
    apply IH. by apply act_recording_ok. }
  apply H. split; simpl; [by left | discriminate].
Qed.

(** ** Selection of the keyframes to interpolate between *)

Lemma scanPairs_cons currentTime k0 k1 rest :
  scanPairs currentTime (k0 :: k1 :: rest)
  = if encloses currentTime k0 k1 then Some (k0, k1)
    else scanPairs currentTime (k1 :: rest).
Proof. reflexivity. Qed.

Lemma scanPairs_Some currentTime ks s e :
  scanPairs currentTime ks = Some (s, e) ->
  exists i,
    ks !! i = Some s /\ ks !! S i = Some e
    /\ encloses currentTime s e = true
    /\ forall j a b, (j < i)%nat -> ks !! j = Some a -> ks !! S j = Some b ->
         encloses currentTime a b = false.
Proof.
  induction ks as [|k0 [|k1 rest] IH]; [done | done |].
  rewrite scanPairs_cons.
  destruct (encloses currentTime k0 k1) eqn:E.
  - intros [= <- <-]. exists 0%nat. repeat split; try done. intros; lia.
  - intros H. destruct (IH H) as (i & Hs & He & Henc & Hfirst).
    exists (S i). repeat split; try done.
    intros [|j] a b Hj Ha Hb; simpl in *.
    + by injection Ha as <-; injection Hb as <-.
    + apply (Hfirst j a b); [lia | done | done].
Qed.

Lemma scanPairs_None currentTime ks :
  scanPairs currentTime ks = None ->
  forall j a b, ks !! j = Some a -> ks !! S j = Some b ->
    encloses currentTime a b = false.
Proof.
  induction ks as [|k0 [|k1 rest] IH].
  - by intros _ j a b Ha.
  - intros _ [|j] a b Ha Hb; simpl in *; done.
  - rewrite scanPairs_cons.
    destruct (encloses currentTime k0 k1) eqn:E; [done|].
    intros H [|j] a b Ha Hb; simpl in *.
    + by injection Ha as <-; injection Hb as <-.
    + by apply (IH H j a b).
Qed.

Lemma last_List_last {A : Type} (l : list A) (d : A) :
  l <> [] -> last l = Some (List.last l d).
Proof.
  induction l as [|a [|b l] IH]; intros Hne; [done | done |].
  change (last (a :: b :: l)) with (last (b :: l)).
  change (List.last (a :: b :: l) d) with (List.last (b :: l) d).
  by apply IH.
Qed.

(** X11. Which keyframes [interpolateBubblePositions] interpolates between.
    The pair is either the first pair of adjacent keyframes, in list order,
    whose times enclose the current time ([start.time <= currentTime <=
    end.time]), or, when no adjacent pair encloses it, the first and the last
    keyframe of the list: outside every segment the time is extrapolated
    over the whole list rather than clamped. *)
Theorem selectKeyframes_pair (currentTime : float) (ks : list Keyframe.t)
    (s e : Keyframe.t) :
  selectKeyframes currentTime ks = Some (s, e) ->
  (exists i,
     ks !! i = Some s /\ ks !! S i = Some e
     /\ encloses currentTime s e = true
     /\ forall j a b, (j < i)%nat -> ks !! j = Some a -> ks !! S j = Some b ->
          encloses currentTime a b = false)
  \/ (head ks = Some s /\ last ks = Some e
      /\ forall j a b, ks !! j = Some a -> ks !! S j = Some b ->
           encloses currentTime a b = false).
Proof.
  unfold selectKeyframes. destruct ks as [|k0 rest]; [done|].
  destruct (scanPairs currentTime (k0 :: rest)) as [[s' e']|] eqn:E.
  - intros [= <- <-]. left. by apply scanPairs_Some.
  - intros [= <- <-]. right. split; [done|]. split.
    + by apply (last_List_last (k0 :: rest) k0).
    + by apply scanPairs_None.
Qed.

Lemma selectKeyframes_pair_witness :
  selectKeyframes 20 (keyframes (data Sample.ended_full))
  = Some (Keyframe.mk 0 0%nat, Keyframe.mk 10 1%nat)
  /\ head (keyframes (data Sample.ended_full)) = Some (Keyframe.mk 0 0%nat)
  /\ last (keyframes (data Sample.ended_full)) = Some (Keyframe.mk 10 1%nat).
Proof.
  assert (H : selectKeyframes 20 (keyframes (data Sample.ended_full))
              = Some (Keyframe.mk 0 0%nat, Keyframe.mk 10 1%nat))
    by (vm_compute; reflexivity).
  split; [exact H|].
  destruct (selectKeyframes_pair 20 (keyframes (data Sample.ended_full))
              (Keyframe.mk 0 0%nat) (Keyframe.mk 10 1%nat) H)
    as [(i & _ & _ & Henc & _)|(Hh & Hl & _)].
  - exfalso. revert Henc. vm_compute. discriminate.
  - split; [exact Hh | exact Hl].
Defined.

(** ** Persistence *)

Lemma substring_0_length (m : nat) : forall s,
  String.length (substring 0 m s) = Nat.min m (String.length s).
Proof.
  induction m as [|m IH]; intros [|c s]; simpl; try done.
  by rewrite IH.
Qed.

Lemma substring_0_get (m : nat) : forall s i,
  String.get i (substring 0 m s)
  = if (i <? m)%nat then String.get i s else None.
Proof.
  induction m as [|m IH]; intros [|c s] i; simpl; try done.
  - by destruct (i <? S m)%nat.
  - destruct i as [|i]; [done|]. rewrite IH.
    change (S i <? S m)%nat with (i <? m)%nat. done.
Qed.

Lemma replace_colons_length (s : string) :
  String.length (replace_colons s) = String.length s.
Proof. induction s as [|c s IH]; simpl; [done | by rewrite IH]. Qed.

Lemma replace_colons_get (s : string) : forall i,
  String.get i (replace_colons s) = option_map colon_to_dash (String.get i s).
Proof.
  induction s as [|c s IH]; intros [|i]; simpl; done.
Qed.

(** X12. The name under which [saveAnimation] offers the file is
    ["Animation_"] followed by the first 19 characters of the ISO time
    stamp (all of it, if it is shorter) in which every colon is replaced by
    a dash and every other character is kept: the name holds no colon after
    its prefix, whatever the time stamp. *)
Theorem animationName_no_colon (iso : string) :
  exists stamp,
    animationName iso = ("Animation_" ++ stamp)%string
    /\ String.length stamp = Nat.min 19 (String.length iso)
    /\ forall i,
         String.get i stamp
         = (if (i <? 19)%nat
            then option_map colon_to_dash (String.get i iso)
            else None)
         /\ String.get i stamp <> Some ":"%char.
Proof.
  exists (replace_colons (substring 0 19 iso)).
  split; [done|]. split.
  - by rewrite replace_colons_length, substring_0_length.
  - intros i.
    assert (H : String.get i (replace_colons (substring 0 19 iso))
                = if (i <? 19)%nat
                  then option_map colon_to_dash (String.get i iso)
                  else None).
    { rewrite replace_colons_get, substring_0_get.
      by destruct (i <? 19)%nat. }
    split; [exact H|]. rewrite H.
    destruct (i <? 19)%nat; [|done].
    destruct (String.get i iso) as [c|]; [|done]. simpl.
    unfold colon_to_dash. destruct (Ascii.eqb c ":") eqn:E; [done|].
    intros [= ->]. by rewrite Ascii.eqb_refl in E.
Qed.



(** ** Video playlists *)

Section Playlists.

Local Open Scope Z_scope.

Lemma at_index_in_range {A : Type} (l : list A) (i : Z) :
  0 <= i < len l -> exists x, at_index l i = Some x.
Proof.
  intros [H0 Hn]. unfold at_index, len in *.
  rewrite (proj2 (Z.ltb_ge _ _) H0).
  destruct (l !! Z.to_nat i) as [x|] eqn:E; [by exists x|].
  apply lookup_ge_None in E. lia.
Qed.

Lemma len_pos {A : Type} (l : list A) : l <> [] -> 0 < len l.
Proof. destruct l; [done|]. unfold len. simpl. lia. Qed.

Lemma selectPlaylist_selected (index : Z) (v : Video.t) :
  0 <= index < len (Video.uploadedPlaylists v) ->
  let v' := selectPlaylist index v in
  Video.currentPlaylistIndex v' = index
  /\ Video.uploadedPlaylists v' = Video.uploadedPlaylists v
  /\ Video.isUploadingPlaylist v' = Video.isUploadingPlaylist v
  /\ Video.alerts v' = Video.alerts v
  /\ selected v'.
Proof.
  intros Hi. unfold selectPlaylist.
  destruct (at_index_in_range _ _ Hi) as [p Hp]. rewrite Hp. simpl.
  repeat split. by exists p.
Qed.

Lemma initializedIndex_range (v : Video.t) :
  Video.uploadedPlaylists v <> [] ->
  0 <= initializedIndex v < len (Video.uploadedPlaylists v).
Proof.
  intros Hne%len_pos. unfold initializedIndex.
  destruct (Video.currentPlaylistIndex v <? 0) eqn:E1; simpl; [lia|].
  destruct (len (Video.uploadedPlaylists v) <=? Video.currentPlaylistIndex v)
    eqn:E2; simpl; lia.
Qed.

Lemma initializedIndex_in (v : Video.t) :
  0 <= Video.currentPlaylistIndex v < len (Video.uploadedPlaylists v) ->
  initializedIndex v = Video.currentPlaylistIndex v.
Proof.
  intros Hi. unfold initializedIndex.
  rewrite (proj2 (Z.ltb_ge _ _) (proj1 Hi)).
  by rewrite (proj2 (Z.leb_gt _ _) (proj2 Hi)).
Qed.

Lemma initializedIndex_out (v : Video.t) :
  Video.currentPlaylistIndex v < 0
  \/ len (Video.uploadedPlaylists v) <= Video.currentPlaylistIndex v ->
  initializedIndex v = 0.
Proof.
  intros Hi. unfold initializedIndex.
  destruct Hi as [Hi|Hi].
  - by rewrite (proj2 (Z.ltb_lt _ _) Hi).
  - rewrite (proj2 (Z.leb_le _ _) Hi). by rewrite orb_true_r.
Qed.

Lemma nextPlaylist_index (v : Video.t) :
  Video.uploadedPlaylists v <> [] ->
  nextPlaylist v
  = selectPlaylist
      ((initializedIndex v + 1) mod len (Video.uploadedPlaylists v)) v
  /\ 0 <= (initializedIndex v + 1) mod len (Video.uploadedPlaylists v)
       < len (Video.uploadedPlaylists v).
Proof.
  intros Hne. pose proof (len_pos _ Hne) as Hpos.
  pose proof (initializedIndex_range v Hne) as Hi.
  unfold nextPlaylist.
  rewrite (proj2 (Z.eqb_neq _ _)) by lia.
  rewrite Z.rem_mod_nonneg by lia.
  split; [done|]. apply Z.mod_pos_bound. lia.
Qed.

Lemma previousPlaylist_index (v : Video.t) :
  Video.uploadedPlaylists v <> [] ->
  previousPlaylist v
  = selectPlaylist
      ((initializedIndex v - 1) mod len (Video.uploadedPlaylists v)) v
  /\ 0 <= (initializedIndex v - 1) mod len (Video.uploadedPlaylists v)
       < len (Video.uploadedPlaylists v).
Proof.
  intros Hne. pose proof (len_pos _ Hne) as Hpos.
  pose proof (initializedIndex_range v Hne) as Hi.
  unfold previousPlaylist.
  rewrite (proj2 (Z.eqb_neq _ _)) by lia.
  assert (Hm : (if initializedIndex v =? 0
                then len (Video.uploadedPlaylists v) - 1
                else initializedIndex v - 1)
               = (initializedIndex v - 1) mod len (Video.uploadedPlaylists v)).
  { destruct (initializedIndex v =? 0) eqn:E.
    - apply Z.eqb_eq in E. rewrite E. simpl.
      apply Z.mod_unique with (q := -1); lia.
    - apply Z.eqb_neq in E. symmetry. apply Z.mod_small. lia. }
  rewrite Hm. split; [done|]. apply Z.mod_pos_bound. lia.
Qed.

(** X14. Switching playlists always lands on an uploaded playlist.  With at
    least one uploaded playlist, and whatever the index was, after
    [nextPlaylist] and after [previousPlaylist] the index designates an
    uploaded playlist, the URLs being played are that playlist's and the
    current video is the first; the uploaded playlists are not changed.
    From an index out of range, such as the initial -1, [nextPlaylist]
    selects the playlist at index 1 (at index 0 when there is only one), not
    the first one, and [previousPlaylist] selects the last. *)
Theorem playlist_switch_selects (v : Video.t) :
  Video.uploadedPlaylists v <> [] ->
  let n := len (Video.uploadedPlaylists v) in
  (0 <= Video.currentPlaylistIndex (nextPlaylist v) < n
   /\ selected (nextPlaylist v)
   /\ Video.uploadedPlaylists (nextPlaylist v) = Video.uploadedPlaylists v)
  /\ (0 <= Video.currentPlaylistIndex (previousPlaylist v) < n
      /\ selected (previousPlaylist v)
      /\ Video.uploadedPlaylists (previousPlaylist v)
         = Video.uploadedPlaylists v)
  /\ (Video.currentPlaylistIndex v < 0 \/ n <= Video.currentPlaylistIndex v ->
      Video.currentPlaylistIndex (nextPlaylist v) = 1 mod n
      /\ Video.currentPlaylistIndex (previousPlaylist v) = n - 1).
Proof.
  intros Hne n. subst n.
  destruct (nextPlaylist_index v Hne) as [Hn Hnr].
  destruct (previousPlaylist_index v Hne) as [Hp Hpr].
  destruct (selectPlaylist_selected _ v Hnr) as (Hn1 & Hn2 & _ & _ & Hn3).
  destruct (selectPlaylist_selected _ v Hpr) as (Hp1 & Hp2 & _ & _ & Hp3).
  rewrite Hn, Hp. split; [|split].
  - by rewrite Hn1.
  - by rewrite Hp1.
  - intros Hout. rewrite Hn1, Hp1, (initializedIndex_out v Hout).
    split; [done|]. pose proof (len_pos _ Hne).
    symmetry. apply Z.mod_unique with (q := -1); lia.
Qed.

Lemma playlist_switch_selects_witness :
  let v := Video.mk [Video.mkPlaylist "a" ["u1"%string];
                     Video.mkPlaylist "b" ["u2"%string];
                     Video.mkPlaylist "c" ["u3"%string]]
             (-1) [] 0 false [] in
  Video.uploadedPlaylists v <> []
  /\ Video.currentPlaylistIndex (nextPlaylist v) = 1
  /\ Video.videoPlaylist (nextPlaylist v) = ["u2"%string].
Proof.
  set (v := Video.mk [Video.mkPlaylist "a" ["u1"%string];
                     Video.mkPlaylist "b" ["u2"%string];
                     Video.mkPlaylist "c" ["u3"%string]]
             (-1) [] 0 false []).
  assert (H : Video.uploadedPlaylists v <> []) by discriminate.
  split; [exact H|].
  destruct (playlist_switch_selects v H) as (_ & _ & Hout).
  split; [exact (proj1 (Hout (or_introl eq_refl)))|].
  reflexivity.
Defined.

Lemma nextPlaylist_iter (k : nat) : forall v,
  0 <= Video.currentPlaylistIndex v < len (Video.uploadedPlaylists v) ->
  Video.uploadedPlaylists (Nat.iter k nextPlaylist v)
  = Video.uploadedPlaylists v
  /\ Video.currentPlaylistIndex (Nat.iter k nextPlaylist v)
     = (Video.currentPlaylistIndex v + Z.of_nat k)
         mod len (Video.uploadedPlaylists v).
Proof.
  induction k as [|k IH]; intros v Hi.
  - simpl. split; [done|]. rewrite Z.add_0_r. symmetry. by apply Z.mod_small.
  - destruct (IH v Hi) as [Hu Hc].
    assert (Hne : Video.uploadedPlaylists (Nat.iter k nextPlaylist v) <> []).
    { rewrite Hu. intros E. rewrite E in Hi. unfold len in Hi. simpl in Hi. lia. }
    change (Nat.iter (S k) nextPlaylist v)
      with (nextPlaylist (Nat.iter k nextPlaylist v)).
    destruct (nextPlaylist_index _ Hne) as [-> Hr].
    destruct (selectPlaylist_selected _ _ Hr) as (-> & -> & _).
    split; [exact Hu|].
    rewrite initializedIndex_in.
    + rewrite Hu, Hc. rewrite Zplus_mod_idemp_l. f_equal. lia.
    + rewrite Hu, Hc. apply Z.mod_pos_bound. lia.
Qed.

Lemma previousPlaylist_nextPlaylist (v : Video.t) :
  0 <= Video.currentPlaylistIndex v < len (Video.uploadedPlaylists v) ->
  Video.currentPlaylistIndex (previousPlaylist (nextPlaylist v))
  = Video.currentPlaylistIndex v
  /\ Video.uploadedPlaylists (previousPlaylist (nextPlaylist v))
     = Video.uploadedPlaylists v
  /\ selected (previousPlaylist (nextPlaylist v)).
Proof.
  intros Hi.
  assert (Hne : Video.uploadedPlaylists v <> []).
  { intros E. rewrite E in Hi. unfold len in Hi. simpl in Hi. lia. }
  pose proof (len_pos _ Hne) as Hpos.
  destruct (nextPlaylist_index v Hne) as [Hn Hnr].
  destruct (selectPlaylist_selected _ v Hnr) as (Hn1 & Hn2 & _).
  rewrite (initializedIndex_in v Hi) in *.
  assert (Hne' : Video.uploadedPlaylists (nextPlaylist v) <> [])
    by (by rewrite Hn, Hn2).
  destruct (previousPlaylist_index _ Hne') as [-> Hr].
  destruct (selectPlaylist_selected _ _ Hr) as (-> & -> & _ & _ & Hsel).
  split; [|split; [by rewrite Hn, Hn2 | exact Hsel]].
  rewrite initializedIndex_in; rewrite Hn, Hn1, Hn2; [|done].
  rewrite Zminus_mod_idemp_l.
  replace (Video.currentPlaylistIndex v + 1 - 1)
    with (Video.currentPlaylistIndex v) by lia.
  by apply Z.mod_small.
Qed.

(** X15. [nextPlaylist] and [previousPlaylist] are each other's inverse on
    the index, and the playlists form a cycle: from an index that
    designates an uploaded playlist, next followed by previous, and
    previous followed by next, come back to that index, and as many
    [nextPlaylist] as there are playlists come back to it too. *)
Theorem playlist_next_previous (v : Video.t) :
  0 <= Video.currentPlaylistIndex v < len (Video.uploadedPlaylists v) ->
  Video.currentPlaylistIndex (previousPlaylist (nextPlaylist v))
  = Video.currentPlaylistIndex v
  /\ Video.currentPlaylistIndex (nextPlaylist (previousPlaylist v))
     = Video.currentPlaylistIndex v
  /\ Video.currentPlaylistIndex
       (Nat.iter (length (Video.uploadedPlaylists v)) nextPlaylist v)
     = Video.currentPlaylistIndex v.
Proof.
  intros Hi.
  assert (Hne : Video.uploadedPlaylists v <> []).
  { intros E. rewrite E in Hi. unfold len in Hi. simpl in Hi. lia. }
  pose proof (len_pos _ Hne) as Hpos.
  destruct (nextPlaylist_index v Hne) as [Hn Hnr].
  destruct (previousPlaylist_index v Hne) as [Hp Hpr].
  destruct (selectPlaylist_selected _ v Hnr) as (Hn1 & Hn2 & _).
  destruct (selectPlaylist_selected _ v Hpr) as (Hp1 & Hp2 & _).
  rewrite (initializedIndex_in v Hi) in *.
  split; [|split].
  - exact (proj1 (previousPlaylist_nextPlaylist v Hi)).
  - assert (Hne' : Video.uploadedPlaylists (previousPlaylist v) <> [])
      by (by rewrite Hp, Hp2).
    destruct (nextPlaylist_index _ Hne') as [-> Hr].
    destruct (selectPlaylist_selected _ _ Hr) as (-> & _).
    rewrite initializedIndex_in; rewrite Hp, Hp1, Hp2; [|done].
    rewrite Zplus_mod_idemp_l.
    replace (Video.currentPlaylistIndex v - 1 + 1)
      with (Video.currentPlaylistIndex v) by lia.
    by apply Z.mod_small.
  - destruct (nextPlaylist_iter (length (Video.uploadedPlaylists v)) v Hi)
      as [_ ->].
    fold (len (Video.uploadedPlaylists v)).
    rewrite <- Zplus_mod_idemp_r, Z_mod_same_full, Z.add_0_r.
    by apply Z.mod_small.
Qed.

Lemma playlist_next_previous_witness :
  let v := Video.mk [Video.mkPlaylist "a" ["u1"%string];
                     Video.mkPlaylist "b" ["u2"%string]]
             1 ["u2"%string] 0 false [] in
  0 <= Video.currentPlaylistIndex v < len (Video.uploadedPlaylists v)
  /\ Video.currentPlaylistIndex (previousPlaylist (nextPlaylist v)) = 1.
Proof.
  set (v := Video.mk [Video.mkPlaylist "a" ["u1"%string];
                     Video.mkPlaylist "b" ["u2"%string]]
             1 ["u2"%string] 0 false []).
  assert (H : 0 <= Video.currentPlaylistIndex v
              < len (Video.uploadedPlaylists v)) by (unfold len; simpl; lia).
  split; [exact H|].
  exact (proj1 (playlist_next_previous v H)).
Defined.

Lemma videoNext_index (v : Video.t) :
  0 <= Video.videoCurrentIndex v < len (Video.videoPlaylist v) ->
  videoNext v
  = Video.set_videoCurrentIndex
      ((Video.videoCurrentIndex v + 1) mod len (Video.videoPlaylist v)) v.
Proof.
  intros Hi. unfold videoNext, videoPlayVideo.
  rewrite (proj2 (Z.ltb_lt _ _)) by lia. simpl.
  rewrite Z.rem_mod_nonneg by lia.
  pose proof (Z.mod_pos_bound (Video.videoCurrentIndex v + 1)
                (len (Video.videoPlaylist v))) as Hb.
  rewrite (proj2 (Z.ltb_ge _ _)) by lia.
  rewrite (proj2 (Z.leb_gt _ _)) by lia.
  simpl. reflexivity.
Qed.

Lemma videoPrev_index (v : Video.t) :
  0 <= Video.videoCurrentIndex v < len (Video.videoPlaylist v) ->
  videoPrev v
  = Video.set_videoCurrentIndex
      ((Video.videoCurrentIndex v - 1) mod len (Video.videoPlaylist v)) v.
Proof.
  intros Hi. unfold videoPrev, videoPlayVideo.
  rewrite (proj2 (Z.ltb_lt _ _)) by lia. simpl.
  assert (Hm : (if Video.videoCurrentIndex v =? 0
                then len (Video.videoPlaylist v) - 1
                else Video.videoCurrentIndex v - 1)
               = (Video.videoCurrentIndex v - 1) mod len (Video.videoPlaylist v)).
  { destruct (Video.videoCurrentIndex v =? 0) eqn:E.
    - apply Z.eqb_eq in E. rewrite E. simpl.
      apply Z.mod_unique with (q := -1); lia.
    - apply Z.eqb_neq in E. symmetry. apply Z.mod_small. lia. }
  rewrite Hm.
  pose proof (Z.mod_pos_bound (Video.videoCurrentIndex v - 1)
                (len (Video.videoPlaylist v))) as Hb.
  rewrite (proj2 (Z.ltb_ge _ _)) by lia.
  rewrite (proj2 (Z.leb_gt _ _)) by lia.
  simpl. reflexivity.
Qed.

Lemma set_videoCurrentIndex_same (v : Video.t) :
  Video.set_videoCurrentIndex (Video.videoCurrentIndex v) v = v.
Proof. by destruct v. Qed.

Lemma videoNext_iter (k : nat) : forall v,
  0 <= Video.videoCurrentIndex v < len (Video.videoPlaylist v) ->
  Nat.iter k videoNext v
  = Video.set_videoCurrentIndex
      ((Video.videoCurrentIndex v + Z.of_nat k) mod len (Video.videoPlaylist v))
      v.
Proof.
  induction k as [|k IH]; intros v Hi.
  - simpl. rewrite Z.add_0_r, Z.mod_small by done.
    symmetry. apply set_videoCurrentIndex_same.
  - change (Nat.iter (S k) videoNext v)
      with (videoNext (Nat.iter k videoNext v)).
    rewrite (IH v Hi).
    pose proof (Z.mod_pos_bound (Video.videoCurrentIndex v + Z.of_nat k)
                  (len (Video.videoPlaylist v))) as Hb.
    rewrite videoNext_index by (simpl; lia).
    simpl. unfold Video.set_videoCurrentIndex. simpl. f_equal.
    rewrite Zplus_mod_idemp_l. f_equal. lia.
Qed.

(** X16. Stepping through the videos of a playlist.  When the current index
    designates a video, [videoNext] and [videoPrev] keep it in range, each
    undoes the other (the state after next then previous, or previous then
    next, is the state before), and as many [videoNext] as the playlist has
    videos come back to the same video. *)
Theorem video_next_prev (v : Video.t) :
  0 <= Video.videoCurrentIndex v < len (Video.videoPlaylist v) ->
  0 <= Video.videoCurrentIndex (videoNext v) < len (Video.videoPlaylist v)
  /\ 0 <= Video.videoCurrentIndex (videoPrev v) < len (Video.videoPlaylist v)
  /\ videoPrev (videoNext v) = v
  /\ videoNext (videoPrev v) = v
  /\ Nat.iter (length (Video.videoPlaylist v)) videoNext v = v.
Proof.
  intros Hi.
  pose proof (Z.mod_pos_bound (Video.videoCurrentIndex v + 1)
                (len (Video.videoPlaylist v))) as Hn.
  pose proof (Z.mod_pos_bound (Video.videoCurrentIndex v - 1)
                (len (Video.videoPlaylist v))) as Hp.
  rewrite (videoNext_index v Hi), (videoPrev_index v Hi). simpl.
  split; [lia|]. split; [lia|]. split; [|split].
  - rewrite videoPrev_index by (simpl; lia). simpl.
    unfold Video.set_videoCurrentIndex. simpl.
    rewrite Zminus_mod_idemp_l.
    replace (Video.videoCurrentIndex v + 1 - 1)
      with (Video.videoCurrentIndex v) by lia.
    rewrite Z.mod_small by done. by destruct v.
  - rewrite videoNext_index by (simpl; lia). simpl.
    unfold Video.set_videoCurrentIndex. simpl.
    rewrite Zplus_mod_idemp_l.
    replace (Video.videoCurrentIndex v - 1 + 1)
      with (Video.videoCurrentIndex v) by lia.
    rewrite Z.mod_small by done. by destruct v.
  - rewrite (videoNext_iter _ v Hi).
    fold (len (Video.videoPlaylist v)).
    rewrite <- Zplus_mod_idemp_r, Z_mod_same_full, Z.add_0_r.
    rewrite Z.mod_small by done. apply set_videoCurrentIndex_same.
Qed.

Lemma video_next_prev_witness :
  let v := Video.mk [] (-1) ["u1"%string; "u2"%string; "u3"%string] 2
             false [] in
  0 <= Video.videoCurrentIndex v < len (Video.videoPlaylist v)
  /\ videoPrev (videoNext v) = v.
Proof.
  set (v := Video.mk [] (-1) ["u1"%string; "u2"%string; "u3"%string] 2
             false []).
  assert (H : 0 <= Video.videoCurrentIndex v < len (Video.videoPlaylist v))
    by (unfold len; simpl; lia).
  split; [exact H|].
  exact (proj1 (proj2 (proj2 (video_next_prev v H)))).
Defined.

Lemma playlist_step_flag (op : playlist_op) (v : Video.t) :
  Video.isUploadingPlaylist v = true ->
  Video.isUploadingPlaylist (playlist_step op v) = true.
Proof.
  intros Hf. destruct op; simpl.
  - unfold nextPlaylist, selectPlaylist.
    destruct (_ =? _); [done|]. by destruct (at_index _ _).
  - unfold previousPlaylist, selectPlaylist.
    destruct (_ =? _); [done|]. by destruct (at_index _ _).
  - unfold loadUploadedPlaylist, selectPlaylist.
    destruct (_ || _); [done|]. by destruct (at_index _ _).
  - unfold videoNext, videoPlayVideo.
    destruct (_ <? _); [|done]. simpl. by destruct (_ || _).
  - unfold videoPrev, videoPlayVideo.
    destruct (0 <? _); [|done]. simpl. by destruct (_ || _).
  - unfold videoPlayVideo. by destruct (_ || _).
  - unfold uploadPlaylist. by rewrite Hf.
  - unfold playlistRead. destruct (_ =? _)%nat; [done|].
    by destruct (findIndex _ _).
Qed.

(** X17. A refused upload blocks every later upload.  When
    [uploadPlaylist] runs with no file selected, or with a file whose name
    does not end in ".txt" (in any letter case), it alerts, returns with the
    flag [isUploadingPlaylist] still set, and nothing clears the flag: after
    any further operations on the playlists the flag is set, and every
    later [uploadPlaylist] returns at once, whatever the file. *)
Theorem upload_refused_blocks (file : option string) (v : Video.t)
    (ops : list playlist_op) (later : option string) :
  Video.isUploadingPlaylist v = false ->
  match file with
  | None => True
  | Some name => endsWith ".txt" (toLowerCase name) = false
  end ->
  let v' := uploadPlaylist file v in
  Video.alerts v' = Video.alerts v ++ [Video.SelectTxt]
  /\ Video.isUploadingPlaylist v' = true
  /\ Video.isUploadingPlaylist (playlist_run ops v') = true
  /\ uploadPlaylist later (playlist_run ops v') = playlist_run ops v'.
Proof.
  intros Hf Hfile v'.
  assert (Hv' : Video.alerts v' = Video.alerts v ++ [Video.SelectTxt]
                /\ Video.isUploadingPlaylist v' = true).
  { subst v'. unfold uploadPlaylist. rewrite Hf.
    destruct file as [name|]; [|done]. by rewrite Hfile. }
  destruct Hv' as [Ha Hflag].
  assert (Hrun : forall w, Video.isUploadingPlaylist w = true ->
                   Video.isUploadingPlaylist (playlist_run ops w) = true).
  { clear. induction ops as [|op ops IH]; intros w Hw; simpl; [done|].
    apply IH. by apply playlist_step_flag. }
  split; [exact Ha|]. split; [exact Hflag|]. split; [by apply Hrun|].
  unfold uploadPlaylist. by rewrite (Hrun v' Hflag).
Qed.

Lemma upload_refused_blocks_witness :
  Video.isUploadingPlaylist (initialVideo [] 0) = false
  /\ uploadPlaylist (Some "list.txt"%string)
       (uploadPlaylist None (initialVideo [] 0))
     = uploadPlaylist None (initialVideo [] 0).
Proof.
  split; [reflexivity|].
  exact (proj2 (proj2 (proj2
           (upload_refused_blocks None (initialVideo [] 0) []
              (Some "list.txt"%string) eq_refl I)))).
Defined.

End Playlists.

Lemma uniqueFrom_spec (l : list string) : forall seen,
  NoDup (uniqueFrom seen l)
  /\ forall x, x ∈ uniqueFrom seen l <-> x ∈ l /\ x ∉ seen.
Proof.
  induction l as [|a l IH]; intros seen; simpl.
  - split; [apply NoDup_nil_2|]. intros x. split; [by intros H; inversion H|].
    by intros [H _]; inversion H.
  - destruct (existsb (String.eqb a) seen) eqn:E.
    + destruct (IH seen) as [Hnd Hin]. split; [done|].
      intros x. rewrite Hin, elem_of_cons. split; [by intros [? ?]; auto|].
      intros [[->|Hx] Hs]; [|done]. exfalso. apply Hs.
      apply existsb_exists in E as (y & Hy & Heq).
      apply String.eqb_eq in Heq as ->. by apply list_elem_of_In.
    + destruct (IH (a :: seen)) as [Hnd Hin].
      assert (Ha : a ∉ seen).
      { intros Hs. apply list_elem_of_In in Hs.
        assert (existsb (String.eqb a) seen = true); [|congruence].
        apply existsb_exists. exists a. split; [done | apply String.eqb_refl]. }
      split.
      * apply NoDup_cons. split; [|done]. rewrite Hin.
        intros [_ H]. apply H. by left.
      * intros x. rewrite !elem_of_cons, Hin, elem_of_cons.
        split.
        -- intros [->|[Hx Hs]]; [by split; [left|]|].
           split; [by right|]. intros H. apply Hs. by right.
        -- intros [[->|Hx] Hs]; [by left|].
           destruct (String.eqb x a) eqn:Exa.
           ++ apply String.eqb_eq in Exa. by left.
           ++ right. split; [done|]. intros [->|H]; [|done].
              by rewrite String.eqb_refl in Exa.
Qed.

Lemma names_insert (ps : list Video.Playlist) (i : nat) (p q : Video.Playlist) :
  ps !! i = Some q -> Video.name q = Video.name p ->
  map Video.name (<[i := p]> ps) = map Video.name ps.
Proof.
  revert i. induction ps as [|a ps IH]; intros [|i]; simpl; try done.
  - by intros [= ->] ->.
  - intros H1 H2. f_equal. by apply IH.
Qed.

(** The elements of [uniqueFrom seen l] come in the order in which they
    first occur in [l]. *)
Lemma uniqueFrom_order (l : list string) : forall seen i j a b,
  (i < j)%nat ->
  uniqueFrom seen l !! i = Some a -> uniqueFrom seen l !! j = Some b ->
  exists k, l !! k = Some a /\ b ∉ take k l.
Proof.
  induction l as [|x l IH]; intros seen i j a b Hij Ha Hb; simpl in *;
    [done|].
  destruct (existsb (String.eqb x) seen) eqn:E.
  - destruct (IH seen i j a b Hij Ha Hb) as (k & Hk & Hnot).
    exists (S k). split; [done|]. simpl. intros [->|H]%elem_of_cons; [|done].
    apply list_elem_of_lookup_2 in Hb.
    apply (uniqueFrom_spec l seen) in Hb as [_ Hs]. apply Hs.
    apply existsb_exists in E as (y & Hy & Heq).
    apply String.eqb_eq in Heq as ->. by apply list_elem_of_In.
  - destruct i as [|i]; simpl in Ha.
    + injection Ha as ->. exists 0%nat. split; [done|]. simpl.
      by intros H; inversion H.
    + destruct j as [|j]; [lia|]. simpl in Hb.
      destruct (IH (x :: seen) i j a b ltac:(lia) Ha Hb) as (k & Hk & Hnot).
      exists (S k). split; [done|]. simpl.
      intros [->|H]%elem_of_cons; [|done].
      apply list_elem_of_lookup_2 in Hb.
      apply (uniqueFrom_spec l (x :: seen)) in Hb as [_ Hs]. apply Hs.
      by left.
Qed.

(** X18. What an uploaded file leaves.  When the file holds at least one
    line that mentions "youtube.com" or "youtu.be", the URLs being played
    are those lines without repetition, in the order of their first
    occurrence (of two URLs played, the earlier one occurs in the file
    before the later one does), and the first video is current.  The
    playlist stored for switching holds the same lines with their
    repetitions, under the file name with its first ".txt" removed; it
    replaces the stored playlist of that name if there is one and is added
    otherwise; every other stored playlist stays at its index; the current
    index designates the stored playlist; stored names that were pairwise
    distinct still are.  One alert reports the name and the number of lines,
    repetitions included, and the upload flag is left as it is.  Hence
    switching to the next playlist and back plays the stored lines,
    repetitions included. *)
Theorem playlistRead_stores (fileName : string) (lines : list string)
    (v : Video.t) :
  let youtubeUrls := List.filter isYouTube lines in
  let playlistName := removeFirst ".txt" fileName in
  let v' := playlistRead fileName lines v in
  youtubeUrls <> [] ->
  NoDup (map Video.name (Video.uploadedPlaylists v)) ->
  NoDup (Video.videoPlaylist v')
  /\ (forall url, url ∈ Video.videoPlaylist v' <-> url ∈ youtubeUrls)
  /\ (forall i j a b, (i < j)%nat ->
        Video.videoPlaylist v' !! i = Some a ->
        Video.videoPlaylist v' !! j = Some b ->
        exists k, youtubeUrls !! k = Some a /\ b ∉ take k youtubeUrls)
  /\ Video.videoCurrentIndex v' = 0%Z
  /\ at_index (Video.uploadedPlaylists v') (Video.currentPlaylistIndex v')
     = Some (Video.mkPlaylist playlistName youtubeUrls)
  /\ (forall i p, Video.uploadedPlaylists v !! i = Some p ->
        Video.name p <> playlistName ->
        Video.uploadedPlaylists v' !! i = Some p)
  /\ (playlistName ∈ map Video.name (Video.uploadedPlaylists v) ->
        length (Video.uploadedPlaylists v')
        = length (Video.uploadedPlaylists v))
  /\ (playlistName ∉ map Video.name (Video.uploadedPlaylists v) ->
        length (Video.uploadedPlaylists v')
        = S (length (Video.uploadedPlaylists v)))
  /\ NoDup (map Video.name (Video.uploadedPlaylists v'))
  /\ Video.alerts v'
     = (Video.alerts v ++ [Video.Uploaded playlistName (length youtubeUrls)])%list
  /\ Video.isUploadingPlaylist v' = Video.isUploadingPlaylist v
  /\ Video.videoPlaylist (previousPlaylist (nextPlaylist v')) = youtubeUrls.
Proof.
  intros youtubeUrls playlistName v' Hne Hnd.
  assert (Hu : NoDup (unique youtubeUrls)
               /\ forall url, url ∈ unique youtubeUrls <-> url ∈ youtubeUrls).
  { destruct (uniqueFrom_spec youtubeUrls []) as [H1 H2]. split; [done|].
    intros url. rewrite (H2 url). split; [by intros [? _]|].
    intros H. split; [done|]. by intros H'; inversion H'. }
  assert (Hlen : (length youtubeUrls =? 0)%nat = false).
  { apply Nat.eqb_neq. by destruct youtubeUrls. }
  assert (Hmain : Video.videoPlaylist v' = unique youtubeUrls
                  /\ Video.videoCurrentIndex v' = 0%Z
                  /\ at_index (Video.uploadedPlaylists v')
                       (Video.currentPlaylistIndex v')
                     = Some (Video.mkPlaylist playlistName youtubeUrls)
                  /\ (forall i p, Video.uploadedPlaylists v !! i = Some p ->
                        Video.name p <> playlistName ->
                        Video.uploadedPlaylists v' !! i = Some p)
                  /\ (playlistName ∈ map Video.name (Video.uploadedPlaylists v) ->
                        length (Video.uploadedPlaylists v')
                        = length (Video.uploadedPlaylists v))
                  /\ (playlistName ∉ map Video.name (Video.uploadedPlaylists v) ->
                        length (Video.uploadedPlaylists v')
                        = S (length (Video.uploadedPlaylists v)))
                  /\ NoDup (map Video.name (Video.uploadedPlaylists v'))
                  /\ Video.alerts v'
                     = (Video.alerts v
                        ++ [Video.Uploaded playlistName (length youtubeUrls)])%list
                  /\ Video.isUploadingPlaylist v' = Video.isUploadingPlaylist v).
  { subst v'. unfold playlistRead. fold youtubeUrls. rewrite Hlen.
    fold playlistName.
    destruct (findIndex _ (Video.uploadedPlaylists v)) as [i|] eqn:Ei; simpl.
    - apply findIndex_Some in Ei as (q & Hq & Hname & _).
      apply String.eqb_eq in Hname.
      split; [done|]. split; [done|]. split; [|split; [|split; [|split; [|split]]]].
      + unfold at_index.
        rewrite (proj2 (Z.ltb_ge _ _)) by lia. rewrite Nat2Z.id.
        rewrite list_lookup_insert_eq; [done|]. by eapply lookup_lt_Some.
      + intros i' p Hp Hpn. rewrite list_lookup_insert_ne; [done|].
        intros <-. rewrite Hq in Hp. injection Hp as <-. done.
      + intros _. by rewrite length_insert.
      + intros Hnot. exfalso. apply Hnot. apply list_elem_of_fmap.
        exists q. split; [done|]. by eapply list_elem_of_lookup_2.
      + by rewrite (names_insert _ i (Video.mkPlaylist playlistName youtubeUrls)
                      q Hq Hname).
      + done.
    - apply findIndex_None in Ei.
      assert (Habs : playlistName ∉ map Video.name (Video.uploadedPlaylists v)).
      { intros Hnm. apply list_elem_of_fmap in Hnm as (p & Hp & Hin).
        rewrite Forall_forall in Ei. specialize (Ei p Hin). simpl in Ei.
        by rewrite <- Hp, String.eqb_refl in Ei. }
      split; [done|]. split; [done|]. split; [|split; [|split; [|split; [|split]]]].
      + unfold at_index, len. rewrite length_app. simpl.
        rewrite (proj2 (Z.ltb_ge _ _)) by lia.
        replace (Z.to_nat (Z.of_nat (length (Video.uploadedPlaylists v) + 1) - 1))
          with (length (Video.uploadedPlaylists v)) by lia.
        by apply list_lookup_middle.
      + intros i' p Hp _. by apply lookup_app_l_Some.
      + intros Hin. by destruct Habs.
      + intros _. rewrite length_app. simpl. lia.
      + rewrite map_app. simpl. apply NoDup_app. split; [done|].
        split; [|apply NoDup_singleton].
        intros nm Hnm [->|H]%elem_of_cons; [|by inversion H]. by apply Habs.
      + done. }
  destruct Hmain as (Hv & Hc & Hat & Hkept & Hsame & Hgrow & Hnames & Hal & Hfl).
  rewrite Hv. split; [apply Hu|]. split; [apply Hu|].
  split; [apply (uniqueFrom_order youtubeUrls [])|].
  split; [done|]. split; [done|]. split; [done|]. split; [done|].
  split; [done|]. split; [done|]. split; [done|]. split; [done|].
  assert (Hr : (0 <= Video.currentPlaylistIndex v'
                < len (Video.uploadedPlaylists v'))%Z).
  { unfold at_index in Hat.
    destruct (Video.currentPlaylistIndex v' <? 0)%Z eqn:E; [done|].
    apply Z.ltb_ge in E. apply lookup_lt_Some in Hat. unfold len. lia. }
  destruct (previousPlaylist_nextPlaylist v' Hr)
    as (Hback & Hups & (p & Hp & Hurls & _)).
  rewrite Hurls. rewrite Hups, Hback, Hat in Hp.
  by injection Hp as <-.
Qed.

Lemma playlistRead_stores_witness :
  List.filter isYouTube
    ["https://youtu.be/a"%string; "notes"%string; "https://youtu.be/a"%string]
  <> []
  /\ NoDup (map Video.name (Video.uploadedPlaylists (initialVideo [] 0)))
  /\ Video.videoPlaylist
       (playlistRead "mix.txt"
          ["https://youtu.be/a"%string; "notes"%string;
           "https://youtu.be/a"%string]
          (initialVideo [] 0))
     = ["https://youtu.be/a"%string]
  /\ Video.videoPlaylist
       (previousPlaylist
          (nextPlaylist
             (playlistRead "mix.txt"
                ["https://youtu.be/a"%string; "notes"%string;
                 "https://youtu.be/a"%string]
                (initialVideo [] 0))))
     = List.filter isYouTube
         ["https://youtu.be/a"%string; "notes"%string;
          "https://youtu.be/a"%string].
Proof.
  assert (H1 : List.filter isYouTube
                 ["https://youtu.be/a"%string; "notes"%string;
                  "https://youtu.be/a"%string] <> []) by discriminate.
  assert (H2 : NoDup (map Video.name
                        (Video.uploadedPlaylists (initialVideo [] 0))))
    by apply NoDup_nil_2.
  split; [exact H1|]. split; [exact H2|]. split; [reflexivity|].
  exact (proj2 (proj2 (proj2 (proj2 (proj2 (proj2 (proj2 (proj2 (proj2
           (proj2 (proj2
           (playlistRead_stores "mix.txt"
              ["https://youtu.be/a"%string; "notes"%string;
               "https://youtu.be/a"%string]
              (initialVideo [] 0) H1 H2)))))))))))).
Defined.

(** ** Pending frame callbacks *)

Lemma capture_frames (w : World) :
  frames (captureBubblePositions w).1 = frames w.
Proof.
  unfold captureBubblePositions, deepCopyIdeas.
  by destruct (copyEach (heap w) (ideas w)).
Qed.

Lemma animate_frames (c : AnimateClosure) (now : float) (w : World) :
  frames (animate c now w) = frames w
  \/ frames (animate c now w) = frames w ++ [c].
Proof.
  destruct (animate_shape c now w) as (p & t & h & fr & Heq & _).
  unfold animate in *. destruct (isPlaying (data w)); simpl in *; [|by left].
  match goal with
  | |- context [interpolateBubblePositions ?q ?w0] =>
      destruct (interpolateBubblePositions_heap_only q w0) as [h0 ->]
  end.
  destruct (_ <? 1); [by right | by left].
Qed.

Lemma recordState_frames (type : string) (ui : Controls) (w : World) :
  frames (recordState type ui w) = frames w.
Proof.
  unfold recordState, updateDuration, reset, stopPlayback.
  destruct (String.eqb type "start"); [|destruct (String.eqb type "end");
    [|destruct (String.eqb type "keyframe")]]; simpl.
  - rewrite !capture_with_data. simpl. apply capture_frames.
  - destruct (isRecording (data w)); simpl; [|done].
    rewrite !capture_with_data. simpl.
    destruct (findIndex _ _); simpl; apply capture_frames.
  - set (w1 := if isPlaying (data w) then _ else _).
    assert (Hw1 : exists d, w1 = with_data d w).
    { subst w1. destruct (isPlaying (data w)); by eexists. }
    destruct Hw1 as (d & ->). simpl.
    destruct (_ || _); simpl; [done|].
    rewrite capture_with_data. simpl.
    destruct (isRecording d); simpl; apply capture_frames.
  - done.
Qed.

Lemma loadAnimation_frames (ToNumber_other : json -> float)
    (page : Page) (timelineMarkers : list Marker.t)
    (parsed : option json) (w : World) :
  frames (loadAnimation ToNumber_other page timelineMarkers parsed w)
  = frames w.
Proof.
  destruct (loadAnimation_shape ToNumber_other page timelineMarkers parsed w)
    as (a & g & msgs & -> & _).
  done.
Qed.

(** X20. No operation cancels a pending frame callback, [stopPlayback]
    included.  Every operation leaves the queue of callbacks as it is or
    adds one callback at its end; only the browser, by running the first
    callback, removes one, and that run adds at most one.  Hence a callback
    queued before a stop is still run after a restart. *)
Theorem pending_frames_never_cancelled (ToNumber_other : json -> float)
    (a : action) (w : World) :
  exists new,
    (length new <= 1)%nat
    /\ frames (act ToNumber_other a w)
       = match a with
         | AEvent (EFrame _) => tail (frames w)
         | _ => frames w
         end ++ new.
Proof.
  pose proof (capture_frames w) as Hc.
  assert (Hsame : forall fr : list AnimateClosure,
            exists new, (length new <= 1)%nat /\ fr = fr ++ new).
  { intros fr. exists []. split; [simpl; lia | by rewrite app_nil_r]. }
  assert (Hanimate : forall c now w0 fr0,
            frames w0 = fr0 ->
            exists new, (length new <= 1)%nat
                        /\ frames (animate c now w0) = fr0 ++ new).
  { intros c now w0 fr0 <-.
    destruct (animate_frames c now w0) as [->| ->]; [apply Hsame|].
    exists [c]. split; [simpl; lia | done]. }
  destruct a as [[type ui|now now'| |now|p|p|now iso|page ms parsed]|value| |slider|];
    simpl.
  - rewrite recordState_frames. apply Hsame.
  - unfold startPlayback.
    destruct (length (keyframes (data w)) <? 2)%nat; [apply Hsame|].
    destruct (isPlaying (data w)); [apply Hsame|].
    unfold animateBubbles; simpl. by apply Hanimate.
  - apply Hsame.
  - unfold runFrame. destruct (frames w) as [|c rest] eqn:Ef.
    + rewrite Ef. apply Hsame.
    + by apply Hanimate.
  - unfold scrub. destruct (isPlaying (data w)); [apply Hsame|]. cbn [negb].
    destruct (2 <=? length (keyframes (data w)))%nat; [|apply Hsame].
    match goal with
    | |- context [interpolateBubblePositions ?q ?w0] =>
        destruct (interpolateBubblePositions_heap_only q w0) as [h ->]
    end.
    apply Hsame.
  - unfold sliderChange.
    destruct (negb (isPlaying (data w)) && isRecording (data w)); [|apply Hsame].
    destruct (JS.ge p const_0_95); [|apply Hsame].
    destruct (captureBubblePositions w) as [w1 a1]; simpl in *.
    destruct (findIndex _ _); simpl; rewrite Hc; apply Hsame.
  - unfold saveAnimation.
    destruct (length (keyframes (data w)) <? 2)%nat; apply Hsame.
  - rewrite loadAnimation_frames. apply Hsame.
  - apply Hsame.
  - unfold updateKeyframesForCurrentPositions.
    destruct (_ && _); [apply Hsame|].
    destruct (captureBubblePositions w) as [w1 a1]; simpl in *.
    rewrite Hc. apply Hsame.
  - unfold autoUpdateKeyframes.
    destruct (0 <? length (keyframes (data w)))%nat; [|apply Hsame].
    destruct slider as [progress|]; [|apply Hsame].
    destruct (closestLoop _ _ _ _ _) as [[index|] m]; [|apply Hsame].
    destruct (m <? 0.5); [|apply Hsame].
    destruct (captureBubblePositions w) as [w1 a1]; simpl in *.
    rewrite Hc. apply Hsame.
  - unfold testBubbleCapture.
    destruct (length (ideas w) =? 0)%nat; [apply Hsame|].
    destruct (captureBubblePositions w) as [w1 a1]; simpl in *.
    destruct (0 <? length (Heap.read_array (heap w1) a1))%nat; simpl;
      rewrite Hc; apply Hsame.
Qed.

(** ** Keyframes added during a recording *)

Lemma move_data (index : nat) (o : Idea.t) (w : World) :
  data (move index o w) = data w /\ ideas (move index o w) = ideas w.
Proof. unfold move. by destruct (ideas w !! index). Qed.

Lemma move_separated (index : nat) (o : Idea.t) (w : World) :
  separated w -> separated (move index o w).
Proof.
  intros Hsep. unfold move. destruct (ideas w !! index) as [l|]; [|done].
  apply separated_sep. simpl. rewrite length_insert. by apply separated_sep.
Qed.

Lemma start_begun (D slider : float) (w : World) :
  isRecording (data (recordState "start" (mkControls D slider) w)) = true
  /\ begun_same D (captureBubblePositions w).2
       (keyframes (data (recordState "start" (mkControls D slider) w))).
Proof.
  unfold recordState, reset, updateDuration.
  change (String.eqb "start" "start") with true. cbv iota.
  rewrite !capture_with_data. simpl. split; [done|]. by exists [].
Qed.

Lemma keyframe_appends (D slider : float) (w : World) :
  isRecording (data w) = true ->
  isRecording (data (recordState "keyframe" (mkControls D slider) w)) = true
  /\ exists new,
       keyframes (data (recordState "keyframe" (mkControls D slider) w))
       = keyframes (data w) ++ new.
Proof.
  intros Hrec.
  unfold recordState, updateDuration, stopPlayback.
  change (String.eqb "keyframe" "start") with false.
  change (String.eqb "keyframe" "end") with false.
  change (String.eqb "keyframe" "keyframe") with true. cbv iota. simpl.
  set (w1 := if isPlaying (data w) then _ else _).
  assert (Hw1 : exists p, w1 = with_data (set_isPlaying p
                               (set_duration D (data w))) w).
  { subst w1. destruct (isPlaying (data w)) eqn:Ep; simpl.
    - by exists false.
    - exists false. f_equal. destruct (data w); simpl in *. by subst. }
  destruct Hw1 as (p & ->). simpl.
  destruct (_ || _); simpl.
  - split; [done|]. exists []. by rewrite app_nil_r.
  - rewrite capture_with_data. simpl. rewrite Hrec. simpl.
    split; [done|]. by eexists [_].
Qed.

Lemma session_step_begun (D : float) (op : session_op) (w : World) :
  isRecording (data w) = true ->
  isRecording (data (session_step D op w)) = true
  /\ exists new,
       keyframes (data (session_step D op w)) = keyframes (data w) ++ new.
Proof.
  intros Hrec. destruct op as [slider|index o]; simpl.
  - by apply keyframe_appends.
  - destruct (move_data index o w) as [-> _]. split; [done|].
    exists []. by rewrite app_nil_r.
Qed.

Lemma session_ops_begun (D : float) (ops : list session_op) : forall w,
  isRecording (data w) = true ->
  isRecording (data (fold_left (fun w op => session_step D op w) ops w)) = true
  /\ exists new,
       keyframes (data (fold_left (fun w op => session_step D op w) ops w))
       = keyframes (data w) ++ new.
Proof.
  induction ops as [|op ops IH]; intros w Hrec; simpl.
  - split; [done|]. exists []. by rewrite app_nil_r.
  - destruct (session_step_begun D op w Hrec) as (Hrec' & new & Hk).
    destruct (IH _ Hrec') as (Hrec'' & new' & Hk').
    split; [done|]. exists (new ++ new'). by rewrite Hk', Hk, app_assoc.
Qed.

(** What "end" does to a list that starts with the two keyframes of
    "start": their times stay, and so do their snapshots unless the end
    time is [===] to one of the two times. *)
Lemma end_begun (D slider : float) (a b : loc) (rest : list Keyframe.t)
    (w : World) :
  keyframes (data w)
  = Keyframe.mk 0 a :: Keyframe.mk (D / 1000) b :: rest ->
  duration (data (recordState "end" (mkControls D slider) w)) = D
  /\ exists a' b' rest',
       keyframes (data (recordState "end" (mkControls D slider) w))
       = Keyframe.mk 0 a' :: Keyframe.mk (D / 1000) b' :: rest'
       /\ ((0 =? slider * (D / 1000)) = false ->
           (D / 1000 =? slider * (D / 1000)) = false ->
           a' = a /\ b' = b).
Proof.
  intros Hks.
  unfold recordState, updateDuration.
  change (String.eqb "end" "start") with false.
  change (String.eqb "end" "end") with true. cbv iota. simpl.
  destruct (isRecording (data w)); simpl.
  2: { split; [done|]. exists a, b, rest. by split. }
  rewrite !capture_with_data. simpl. rewrite Hks. simpl.
  unfold JS.strict_eq.
  destruct (0 =? slider * (D / 1000)); simpl.
  { split; [done|]. eexists _, b, rest. split; [done|]. by intros [=]. }
  destruct (D / 1000 =? slider * (D / 1000)); simpl.
  { split; [done|]. eexists a, _, rest. split; [done|]. by intros _ [=]. }
  destruct (findIndex _ rest) as [i|]; simpl; (split; [done|]).
  - by eexists a, b, _.
  - by eexists a, b, (rest ++ [_]).
Qed.

Lemma session_keyframes (D startSlider : float) (ops : list session_op)
    (endSlider : option float) (w : World) :
  exists a b rest,
    keyframes (data (session D startSlider ops endSlider w))
    = Keyframe.mk 0 a :: Keyframe.mk (D / 1000) b :: rest
    /\ (match endSlider with
        | Some slider =>
            (0 =? slider * (D / 1000)) = false
            /\ (D / 1000 =? slider * (D / 1000)) = false
        | None => True
        end ->
        a = (captureBubblePositions w).2 /\ b = (captureBubblePositions w).2).
Proof.
  unfold session.
  destruct (start_begun D startSlider w) as [Hrec (rest0 & Hks)].
  destruct (session_ops_begun D ops _ Hrec) as (_ & new & Hk).
  rewrite Hks in Hk. simpl in Hk.
  destruct endSlider as [slider|].
  - destruct (end_begun D slider _ _ _ _ Hk) as (_ & a' & b' & rest' & Hk' & Hsame).
    exists a', b', rest'. split; [done|]. intros [H0 H1]. by apply Hsame.
  - by eexists _, _, _.
Qed.

(** X19. Keyframes added during a recording are never interpolated.  In a
    session "start", then "keyframe" calls and moves of the entities in any
    order, then "end" or not, with the duration selector left at D, the
    keyframe list starts with the two keyframes of "start", at times 0 and
    D/1000, and the added keyframes come after them.  For every current time
    from 0 to D/1000 the search stops at that first pair, so the player
    interpolates between the snapshots of these two keyframes whatever was
    added. *)
Theorem added_keyframes_never_selected (D startSlider : float)
    (ops : list session_op) (endSlider : option float) (w : World)
    (currentTime : float) :
  (0 <=? currentTime) = true ->
  (currentTime <=? D / 1000) = true ->
  exists a b rest,
    keyframes (data (session D startSlider ops endSlider w))
    = Keyframe.mk 0 a :: Keyframe.mk (D / 1000) b :: rest
    /\ selectKeyframes currentTime
         (keyframes (data (session D startSlider ops endSlider w)))
       = Some (Keyframe.mk 0 a, Keyframe.mk (D / 1000) b).
Proof.
  intros H0 H1.
  destruct (session_keyframes D startSlider ops endSlider w)
    as (a & b & rest & -> & _).
  exists a, b, rest. split; [done|].
  unfold selectKeyframes. rewrite scanPairs_cons.
  unfold encloses, JS.ge. simpl. by rewrite H0, H1.
Qed.

Lemma added_keyframes_never_selected_witness :
  (0 <=? 5) = true
  /\ (5 <=? 10000 / 1000) = true
  /\ map Keyframe.time
       (keyframes (data (session 10000 0 [SKeyframe 0.5] (Some 1)
                           Sample.fresh)))
     = [0; 10; 5]
  /\ exists a b,
       selectKeyframes 5
         (keyframes (data (session 10000 0 [SKeyframe 0.5] (Some 1)
                             Sample.fresh)))
       = Some (Keyframe.mk 0 a, Keyframe.mk (10000 / 1000) b).
Proof.
  assert (H0 : (0 <=? 5) = true) by (vm_compute; reflexivity).
  assert (H1 : (5 <=? 10000 / 1000) = true) by (vm_compute; reflexivity).
  split; [exact H0|]. split; [exact H1|].
  split; [vm_compute; reflexivity|].
  destruct (added_keyframes_never_selected 10000 0 [SKeyframe 0.5] (Some 1)
              Sample.fresh 5 H0 H1) as (a & b & rest & _ & Hsel).
  exists a, b. exact Hsel.
Defined.

(** ** A recording ended away from the far right *)

Lemma SFmul_zero_l (z f : spec_float) :
  SF_zero z = true -> SF_finite f = true -> SF_zero (SF64mul z f) = true.
Proof. destruct z as [?|?| |? ? ?], f as [?|?| |? ? ?]; simpl; done. Qed.

(** Interpolating between a finite number and itself gives that number (up
    to the sign of a zero), whatever the finite fraction. *)
Lemma lerp_same (a f : float) :
  is_finite a = true -> is_finite f = true -> (lerp a a f =? a) = true.
Proof.
  intros Ha Hf.
  assert (Hn : is_nan a = false).
  { revert Ha. rewrite is_finite_spec, is_nan_spec. by destruct (Prim2SF a). }
  pose proof (sub_eq_zero a a Ha (eqb_refl a Hn)) as Hz.
  revert Hn Hz Hf. unfold lerp.
  rewrite is_nan_spec, is_zero_spec, is_finite_spec, FloatAxioms.eqb_spec,
    add_spec, mul_spec.
  intros Hn Hz Hf. apply SFadd_zero; [done|]. by apply SFmul_zero_l.
Qed.

Lemma frozen_ext (w w' : World) (a : loc) (snap : list Idea.t) :
  heap w' = heap w -> ideas w' = ideas w ->
  frozen w a snap -> frozen w' a snap.
Proof. unfold frozen. by intros -> ->. Qed.

Lemma capture_frozen (w : World) (a : loc) (snap : list Idea.t) :
  live_ok w -> frozen w a snap ->
  frozen (captureBubblePositions w).1 a snap.
Proof.
  intros Hok (Ha & Hel & Hsnap).
  destruct (capture_snapshot w Hok) as (_ & _ & Hread & Harr & _).
  destruct (capture_heap w Hok) as (k & Hlen & Harrs & _ & Hideas & _).
  unfold frozen. rewrite Hideas, (Harr a Ha). split; [|split].
  - rewrite Harrs, length_app. simpl. lia.
  - eapply Forall_impl; [exact Hel|]. intros l [Hl Hn]. split; [|done].
    unfold allocated in *. rewrite Hlen. lia.
  - rewrite <- Hsnap. unfold snapshot. rewrite (Harr a Ha).
    apply map_ext_Forall. eapply Forall_impl; [exact Hel|].
    intros l [Hl _]. by apply Hread.
Qed.

Lemma recordState_heap (type : string) (ui : Controls) (w : World) :
  (heap (recordState type ui w) = heap w
   \/ heap (recordState type ui w) = heap (captureBubblePositions w).1)
  /\ ideas (recordState type ui w) = ideas w.
Proof.
  assert (Hi : ideas (captureBubblePositions w).1 = ideas w).
  { unfold captureBubblePositions, deepCopyIdeas.
    by destruct (copyEach (heap w) (ideas w)). }
  unfold recordState, updateDuration, reset, stopPlayback.
  destruct (String.eqb type "start"); [|destruct (String.eqb type "end");
    [|destruct (String.eqb type "keyframe")]]; simpl.
  - rewrite !capture_with_data. simpl. split; [by right | done].
  - destruct (isRecording (data w)); simpl; [|split; [by left | done]].
    rewrite !capture_with_data. simpl.
    destruct (findIndex _ _); simpl; (split; [by right | done]).
  - set (w1 := if isPlaying (data w) then _ else _).
    assert (Hw1 : exists d, w1 = with_data d w).
    { subst w1. destruct (isPlaying (data w)); by eexists. }
    destruct Hw1 as (d & ->). simpl.
    destruct (_ || _); simpl; [split; [by left | done]|].
    rewrite capture_with_data. simpl.
    destruct (isRecording d); simpl; (split; [by right | done]).
  - split; [by left | done].
Qed.

Lemma recordState_frozen (type : string) (ui : Controls) (w : World)
    (a : loc) (snap : list Idea.t) :
  live_ok w -> frozen w a snap -> frozen (recordState type ui w) a snap.
Proof.
  intros Hok Hf.
  destruct (recordState_heap type ui w) as [[Hh|Hh] Hi].
  - by apply (frozen_ext w).
  - apply (frozen_ext (captureBubblePositions w).1); [done| |].
    + rewrite Hi. unfold captureBubblePositions, deepCopyIdeas.
      by destruct (copyEach (heap w) (ideas w)).
    + by apply capture_frozen.
Qed.

Lemma move_frozen (index : nat) (o : Idea.t) (w : World)
    (a : loc) (snap : list Idea.t) :
  frozen w a snap -> frozen (move index o w) a snap.
Proof.
  intros (Ha & Hel & Hsnap). unfold move.
  destruct (ideas w !! index) as [l|] eqn:El; [|done].
  unfold frozen. simpl. split; [done|]. split.
  - eapply Forall_impl; [exact Hel|]. intros l' [Hl Hn]. split; [|done].
    unfold allocated in *. simpl. by rewrite length_insert.
  - rewrite <- Hsnap. unfold snapshot. simpl.
    change (Heap.read_array (Heap.write (heap w) l o) a)
      with (Heap.read_array (heap w) a).
    apply map_ext_Forall. eapply Forall_impl; [exact Hel|].
    intros l' [_ Hn]. apply read_write_ne. intros ->. apply Hn.
    by eapply list_elem_of_lookup_2.
Qed.

Lemma start_frozen (ui : Controls) (w : World) :
  separated w ->
  frozen (recordState "start" ui w) (captureBubblePositions w).2
    (map (Heap.read (heap w)) (ideas w)).
Proof.
  intros Hsep. pose proof (proj1 (proj2 Hsep)) as Hok.
  destruct (capture_snapshot w Hok) as (Ha & Hsnap & _).
  destruct (capture_heap w Hok) as (k & Hlen & Harrs & _ & Hideas & _).
  destruct (capture_separated w Hsep) as (_ & _ & Hnew).
  assert (Hf : frozen (captureBubblePositions w).1 (captureBubblePositions w).2
                 (map (Heap.read (heap w)) (ideas w))).
  { unfold frozen. split; [|split; [|done]].
    - rewrite Ha, Harrs, length_app. simpl. lia.
    - destruct (Hnew 0) as [_ Hap]. simpl in Hap.
      unfold Heap.read_array.
      apply Forall_forall. intros l Hl. split.
      + rewrite Ha, Harrs in Hl.
        rewrite lookup_total_app_r in Hl by lia.
        rewrite Nat.sub_diag in Hl. simpl in Hl.
        apply elem_of_seq in Hl. unfold allocated. rewrite Hlen. lia.
      + rewrite Forall_forall in Hap. by apply Hap. }
  destruct (recordState_heap "start" ui w) as [_ Hi].
  apply (frozen_ext (captureBubblePositions w).1); [| by rewrite Hi, Hideas | done].
  unfold recordState, reset, updateDuration.
  change (String.eqb "start" "start") with true. cbv iota.
  rewrite !capture_with_data. by simpl.
Qed.

Lemma session_step_separated (D : float) (op : session_op) (w : World) :
  separated w -> separated (session_step D op w).
Proof.
  destruct op; simpl; [apply recordState_separated | apply move_separated].
Qed.

Lemma session_frozen (D startSlider : float) (ops : list session_op)
    (endSlider : option float) (w : World) :
  separated w ->
  separated (session D startSlider ops endSlider w)
  /\ ideas (session D startSlider ops endSlider w) = ideas w
  /\ frozen (session D startSlider ops endSlider w)
       (captureBubblePositions w).2 (map (Heap.read (heap w)) (ideas w)).
Proof.
  intros Hsep. unfold session.
  pose proof (recordState_separated "start" (mkControls D startSlider) w Hsep)
    as H1.
  pose proof (start_frozen (mkControls D startSlider) w Hsep) as H2.
  pose proof (proj2 (recordState_heap "start" (mkControls D startSlider) w))
    as H3.
  revert H1 H2 H3.
  generalize (recordState "start" (mkControls D startSlider) w).
  generalize (captureBubblePositions w).2.
  generalize (map (Heap.read (heap w)) (ideas w)).
  induction ops as [|op ops IH]; intros snap a w1 H1 H2 H3; simpl.
  - destruct endSlider as [slider|]; [|done].
    split; [by apply recordState_separated|]. split.
    + by rewrite (proj2 (recordState_heap _ _ w1)).
    + apply recordState_frozen; [apply H1 | done].
  - apply IH.
    + by apply session_step_separated.
    + destruct op as [slider|index o]; simpl.
      * apply recordState_frozen; [apply H1 | done].
      * by apply move_frozen.
    + destruct op as [slider|index o]; simpl.
      * by rewrite (proj2 (recordState_heap _ _ w1)).
      * by rewrite (proj2 (move_data index o w1)).
Qed.

(** X21. A recording ended anywhere but at the far right plays without
    motion.  In a session "start", then "keyframe" calls and moves of the
    entities in any order, then "end" with the slider at a position whose
    time is neither 0 nor D/1000, the first two keyframes still refer to one
    and the same snapshot, the one "start" captured, and what "end"
    captured is stored after them.  For every progress whose time lies from
    0 to D/1000 the player interpolates between that snapshot and itself:
    each live entity is given the x and y it had when "start" was called
    (when these and the fraction are finite; up to the sign of a zero),
    wherever it was moved during the recording. *)
Theorem end_elsewhere_plays_no_motion (D startSlider slider progress : float)
    (ops : list session_op) (w : World) :
  separated w ->
  (0 =? slider * (D / 1000)) = false ->
  (D / 1000 =? slider * (D / 1000)) = false ->
  (0 <=? progress * (D / 1000)) = true ->
  (progress * (D / 1000) <=? D / 1000) = true ->
  let w' := session D startSlider ops (Some slider) w in
  let w'' := interpolateBubblePositions progress w' in
  (exists a rest,
     keyframes (data w')
     = Keyframe.mk 0 a :: Keyframe.mk (D / 1000) a :: rest)
  /\ forall index l,
       ideas w !! index = Some l ->
       is_finite (segmentProgress (progress * (D / 1000))
                    (Keyframe.mk 0 0%nat) (Keyframe.mk (D / 1000) 0%nat))
       = true ->
       is_finite (Idea.x (Heap.read (heap w) l)) = true ->
       is_finite (Idea.y (Heap.read (heap w) l)) = true ->
       (Idea.x (Heap.read (heap w'') l) =? Idea.x (Heap.read (heap w) l))
       = true
       /\ (Idea.y (Heap.read (heap w'') l) =? Idea.y (Heap.read (heap w) l))
          = true.
Proof.
  intros Hsep H0 H1 Hlo Hhi w' w''.
  destruct (session_keyframes D startSlider ops (Some slider) w)
    as (a & b & rest & Hks & Hab).
  destruct (Hab (conj H0 H1)) as [-> ->]. clear Hab.
  fold w' in Hks.
  destruct (session_frozen D startSlider ops (Some slider) w Hsep)
    as (Hsep' & Hideas & (Ha & Hel & Hsnap)).
  fold w' in Hsep', Hideas, Ha, Hel, Hsnap.
  assert (Hd : duration (data w') = D).
  { subst w'. unfold session.
    destruct (start_begun D startSlider w) as [Hrec (rest0 & Hk0)].
    destruct (session_ops_begun D ops _ Hrec) as (_ & new & Hk).
    rewrite Hk0 in Hk. simpl in Hk.
    by destruct (end_begun D slider _ _ _ _ Hk) as [Hdur _]. }
  split; [by eexists _, _|].
  intros index l Hl Hf Hx Hy.
  assert (Hsel : selectKeyframes (progress * (duration (data w') / 1000))
                   (keyframes (data w'))
                 = Some (Keyframe.mk 0 (captureBubblePositions w).2,
                         Keyframe.mk (D / 1000) (captureBubblePositions w).2)).
  { rewrite Hks, Hd. unfold selectKeyframes. rewrite scanPairs_cons.
    unfold encloses, JS.ge. simpl. by rewrite Hlo, Hhi. }
  assert (Hlen : (2 <= length (keyframes (data w')))%nat).
  { rewrite Hks. simpl. lia. }
  destruct (interpolateBubblePositions_spec progress w' _ _ Hlen Hsep' Hsel)
    as (Hat & _).
  rewrite <- Hideas in Hl. specialize (Hat index l Hl). simpl in Hat.
  fold w'' in Hat.
  assert (Hs : exists s,
             Heap.read_array (heap w') (captureBubblePositions w).2 !! index
             = Some s
             /\ Heap.read (heap w') s = Heap.read (heap w) l).
  { rewrite Hideas in Hl.
    assert (Hsi : snapshot (heap w') (captureBubblePositions w).2 !! index
                  = Some (Heap.read (heap w) l)).
    { rewrite Hsnap. rewrite list_lookup_fmap. by rewrite Hl. }
    unfold snapshot in Hsi. rewrite list_lookup_fmap in Hsi.
    destruct (Heap.read_array (heap w') (captureBubblePositions w).2 !! index)
      as [s|]; [|done].
    exists s. split; [done|]. by injection Hsi. }
  destruct Hs as (s & Hs & Hrs). rewrite Hs in Hat.
  rewrite Hat, Hd, Hrs.
  destruct (interpolated_fields
              (segmentProgress (progress * (D / 1000))
                 (Keyframe.mk 0 (captureBubblePositions w).2)
                 (Keyframe.mk (D / 1000) (captureBubblePositions w).2))
              (Heap.read (heap w) l) (Heap.read (heap w) l)
              (Heap.read (heap w') l)) as (-> & -> & _).
  split; by apply lerp_same.
Qed.

Lemma end_elsewhere_plays_no_motion_witness :
  separated Sample.fresh
  /\ (0 =? 0.5 * (10000 / 1000)) = false
  /\ (10000 / 1000 =? 0.5 * (10000 / 1000)) = false
  /\ (0 <=? 1 * (10000 / 1000)) = true
  /\ (1 * (10000 / 1000) <=? 10000 / 1000) = true
  /\ Idea.x (Heap.read
               (heap (session 10000 0 [SMove 0 Sample.idea_b] (Some 0.5)
                        Sample.fresh)) 0%nat) = 50
  /\ (Idea.x (Heap.read
                (heap (interpolateBubblePositions 1
                         (session 10000 0 [SMove 0 Sample.idea_b] (Some 0.5)
                            Sample.fresh))) 0%nat)
      =? Idea.x (Heap.read (heap Sample.fresh) 0%nat)) = true.
Proof.
  assert (Hsep : separated Sample.fresh)
    by (apply (bool_decide_unpack _); vm_compute; exact I).
  assert (H0 : (0 =? 0.5 * (10000 / 1000)) = false) by (vm_compute; reflexivity).
  assert (H1 : (10000 / 1000 =? 0.5 * (10000 / 1000)) = false)
    by (vm_compute; reflexivity).
  assert (H2 : (0 <=? 1 * (10000 / 1000)) = true) by (vm_compute; reflexivity).
  assert (H3 : (1 * (10000 / 1000) <=? 10000 / 1000) = true)
    by (vm_compute; reflexivity).
  split; [exact Hsep|]. split; [exact H0|]. split; [exact H1|].
  split; [exact H2|]. split; [exact H3|].
  split; [vm_compute; reflexivity|].
  assert (Hl : ideas Sample.fresh !! 0%nat = Some 0%nat) by reflexivity.
  assert (Hf : is_finite (segmentProgress (1 * (10000 / 1000))
                            (Keyframe.mk 0 0%nat)
                            (Keyframe.mk (10000 / 1000) 0%nat)) = true)
    by (vm_compute; reflexivity).
  assert (Hx : is_finite (Idea.x (Heap.read (heap Sample.fresh) 0%nat)) = true)
    by (vm_compute; reflexivity).
  assert (Hy : is_finite (Idea.y (Heap.read (heap Sample.fresh) 0%nat)) = true)
    by (vm_compute; reflexivity).
  exact (proj1 (proj2 (end_elsewhere_plays_no_motion 10000 0 0.5 1
                         [SMove 0 Sample.idea_b] Sample.fresh
                         Hsep H0 H1 H2 H3) 0%nat 0%nat Hl Hf Hx Hy)).
Defined.

(** ** Playing after [updateKeyframesForCurrentPositions] *)

(** X22. [updateKeyframesForCurrentPositions] turns the animation into a
    still.  After it has run on a state with at least two keyframes and no
    aliasing, whichever two keyframes the player selects refer to the same
    snapshot, that of the live entities as they are; so for every progress
    the interpolation gives each live entity the x and y it already has
    (when these and the segment fraction are finite; up to the sign of a
    zero): what the keyframes had recorded is no longer played. *)
Theorem update_then_play_is_still (progress : float) (w : World)
    (s e : Keyframe.t) :
  separated w ->
  (2 <= length (keyframes (data w)))%nat ->
  let w' := updateKeyframesForCurrentPositions w in
  let w'' := interpolateBubblePositions progress w' in
  selectKeyframes (progress * (duration (data w') / 1000))
    (keyframes (data w')) = Some (s, e) ->
  is_finite (segmentProgress (progress * (duration (data w') / 1000)) s e)
  = true ->
  Keyframe.positions s = Keyframe.positions e
  /\ forall index l,
       ideas w !! index = Some l ->
       is_finite (Idea.x (Heap.read (heap w) l)) = true ->
       is_finite (Idea.y (Heap.read (heap w) l)) = true ->
       (Idea.x (Heap.read (heap w'') l) =? Idea.x (Heap.read (heap w) l))
       = true
       /\ (Idea.y (Heap.read (heap w'') l) =? Idea.y (Heap.read (heap w) l))
          = true.
Proof.
  intros Hsep Hlen w' w'' Hsel Hf.
  pose proof (proj1 (proj2 Hsep)) as Hok.
  assert (Hguard : isRecording (data w) = true \/ keyframes (data w) <> []).
  { right. intros E. rewrite E in Hlen. simpl in Hlen. lia. }
  destruct (updateKeyframes_all_current w Hok Hguard)
    as (a & _ & Hks & Hsnap & Hideas & Hread).
  fold w' in Hks, Hsnap, Hideas, Hread.
  assert (Hsep' : separated w').
  { apply (act_separated (fun _ => 0) AUpdateKeyframes w Hsep). }
  assert (Hlen' : (2 <= length (keyframes (data w')))%nat).
  { by rewrite Hks, length_map. }
  pose proof (selectKeyframes_elem _ _ _ _ Hsel) as [Hs He].
  rewrite Hks in Hs, He.
  apply list_elem_of_fmap in Hs as (s0 & -> & _).
  apply list_elem_of_fmap in He as (e0 & -> & _).
  split; [done|].
  intros index l Hl Hx Hy.
  destruct (interpolateBubblePositions_spec progress w' _ _ Hlen' Hsep' Hsel)
    as (Hat & _).
  rewrite <- Hideas in Hl. specialize (Hat index l Hl). simpl in Hat.
  fold w'' in Hat.
  assert (Hs : exists sl,
             Heap.read_array (heap w') a !! index = Some sl
             /\ Heap.read (heap w') sl = Heap.read (heap w) l).
  { rewrite Hideas in Hl.
    assert (Hsi : snapshot (heap w') a !! index = Some (Heap.read (heap w) l)).
    { rewrite Hsnap. rewrite list_lookup_fmap. by rewrite Hl. }
    unfold snapshot in Hsi. rewrite list_lookup_fmap in Hsi.
    destruct (Heap.read_array (heap w') a !! index) as [sl|]; [|done].
    exists sl. split; [done|]. by injection Hsi. }
  destruct Hs as (sl & Hsl & Hrs). rewrite Hsl in Hat.
  rewrite Hat, Hrs.
  match goal with
  | |- context [interpolated ?f0 _ _ ?o0] =>
      destruct (interpolated_fields f0 (Heap.read (heap w) l)
                  (Heap.read (heap w) l) o0) as (-> & -> & _)
  end.
  split; by apply lerp_same.
Qed.

Lemma update_then_play_is_still_witness :
  separated Sample.ended_full
  /\ (2 <= length (keyframes (data Sample.ended_full)))%nat
  /\ Idea.x (Heap.read
               (heap (interpolateBubblePositions 0
                        Sample.ended_full)) 0%nat) = 10
  /\ (Idea.x (Heap.read
                (heap (interpolateBubblePositions 0
                         (updateKeyframesForCurrentPositions
                            Sample.ended_full))) 0%nat)
      =? Idea.x (Heap.read (heap Sample.ended_full) 0%nat)) = true
  /\ Idea.x (Heap.read (heap Sample.ended_full) 0%nat) = 50.
Proof.
  assert (Hsep : separated Sample.ended_full)
    by (apply (bool_decide_unpack _); vm_compute; exact I).
  assert (Hlen : (2 <= length (keyframes (data Sample.ended_full)))%nat)
    by (simpl; lia).
  split; [exact Hsep|]. split; [exact Hlen|].
  split; [vm_compute; reflexivity|].
  split; [|vm_compute; reflexivity].
  assert (Hsel : selectKeyframes
                   (0 * (duration (data (updateKeyframesForCurrentPositions
                                           Sample.ended_full)) / 1000))
                   (keyframes (data (updateKeyframesForCurrentPositions
                                       Sample.ended_full)))
                 = Some (Keyframe.mk 0 2%nat, Keyframe.mk 10 2%nat))
    by (vm_compute; reflexivity).
  assert (Hf : is_finite
                 (segmentProgress
                    (0 * (duration (data (updateKeyframesForCurrentPositions
                                            Sample.ended_full)) / 1000))
                    (Keyframe.mk 0 2%nat) (Keyframe.mk 10 2%nat)) = true)
    by (vm_compute; reflexivity).
  assert (Hl : ideas Sample.ended_full !! 0%nat = Some 0%nat) by reflexivity.
  assert (Hx : is_finite (Idea.x (Heap.read (heap Sample.ended_full) 0%nat))
               = true) by (vm_compute; reflexivity).
  assert (Hy : is_finite (Idea.y (Heap.read (heap Sample.ended_full) 0%nat))
               = true) by (vm_compute; reflexivity).
  exact (proj1 (proj2 (update_then_play_is_still 0 Sample.ended_full
                         (Keyframe.mk 0 2%nat) (Keyframe.mk 10 2%nat)
                         Hsep Hlen Hsel Hf) 0%nat 0%nat Hl Hx Hy)).
Defined.

(** ** Loading *)

Section Loading.

Variable ToNumber_other : json -> float.
Variable page : Page.
Variable d : AnimationData.

Local Abbreviation other type :=
  (fun m : Marker.t => negb (String.eqb (Marker.type m) type)).
Local Abbreviation numeric :=
  (fun m : Marker.t => is_number (Marker.time m)).
Local Abbreviation marker type time :=
  (Marker.mk type time
     (ToNumber ToNumber_other time / (duration d / 1000) * 100)).

Lemma numeric_but_keyframe_filter (ms : list Marker.t) :
  forallb numeric (List.filter (other "keyframe"%string) ms)
  = numeric_but_keyframe ms.
Proof.
  unfold numeric_but_keyframe.
  induction ms as [|m ms IH]; simpl; [done|].
  destruct (String.eqb (Marker.type m) "keyframe"); simpl; [done|].
  by rewrite IH.
Qed.

Lemma numeric_but_keyframe_added (ms : list Marker.t) (time : option json) :
  numeric_but_keyframe
    (List.filter (other "keyframe"%string) ms
     ++ [marker "keyframe"%string time])
  = numeric_but_keyframe ms.
Proof.
  unfold numeric_but_keyframe. rewrite forallb_app. simpl.
  rewrite andb_true_r.
  induction ms as [|m ms IH]; simpl; [done|].
  destruct (String.eqb (Marker.type m) "keyframe") eqn:E; simpl; [done|].
  by rewrite E, IH.
Qed.

Lemma filter_other_added type (ms : list Marker.t) (time : option json) :
  List.filter (other type) (List.filter (other type) ms ++ [marker type time])
  = List.filter (other type) ms.
Proof.
  rewrite List.filter_app, filter_other_idem. simpl.
  rewrite String.eqb_refl. simpl. by rewrite app_nil_r.
Qed.

(** When [addTimelineMarker] throws in the loading handler, and what it
    leaves when it does not. *)
Lemma addTimelineMarker_loaded_spec (type : string) (time : option json)
    (ms : list Marker.t) :
  (addTimelineMarker_loaded ToNumber_other page type time d ms).2
  = negb (convertible_value time
          && (negb (timeline page)
              || (forallb numeric (List.filter (other type) ms)
                  && is_number time)))
  /\ ((addTimelineMarker_loaded ToNumber_other page type time d ms).2 = false ->
      (addTimelineMarker_loaded ToNumber_other page type time d ms).1
      = List.filter (other type) ms ++ [marker type time]).
Proof.
  unfold addTimelineMarker_loaded, updateTimelineDisplay_throws.
  destruct (convertible_value time); simpl; [|done].
  rewrite forallb_app. simpl. rewrite andb_true_r.
  destruct (timeline page); simpl; done.
Qed.

(** When the loop over the keyframes throws. *)
Lemma forEach_keyframe_thrown (els : list json) : forall ms,
  (forEach_keyframe ToNumber_other page els d ms).2
  = negb (forallb (fun keyframe =>
                     negb (is_null keyframe)
                     && convertible_value (getProp keyframe "time")) els
          && (negb (timeline page)
              || match els with
                 | [] => true
                 | _ => forallb (fun keyframe =>
                                   is_number (getProp keyframe "time")) els
                        && numeric_but_keyframe ms
                 end)).
Proof.
  induction els as [|k els IH]; intros ms; simpl.
  - by destruct (timeline page).
  - destruct (is_null k) eqn:Ek; simpl; [done|].
    destruct (addTimelineMarker_loaded_spec "keyframe"%string
                (getProp k "time") ms) as [Hthrown Hleft].
    destruct (addTimelineMarker_loaded ToNumber_other page "keyframe"
                (getProp k "time") d ms) as [ms1 thrown]; simpl in *.
    rewrite numeric_but_keyframe_filter in Hthrown.
    destruct thrown.
    + destruct (convertible_value (getProp k "time")); simpl in *; [|done].
      destruct (timeline page); simpl in *; [|done].
      destruct (numeric_but_keyframe ms); simpl in *.
      * destruct (is_number (getProp k "time")); simpl in *; [done|].
        by rewrite andb_false_r.
      * by rewrite !andb_false_r.
    + rewrite IH, (Hleft eq_refl), numeric_but_keyframe_added.
      symmetry in Hthrown. apply negb_false_iff in Hthrown.
      apply andb_prop in Hthrown as [-> Hdraw]. simpl.
      destruct (timeline page); simpl in *; [|done].
      apply andb_prop in Hdraw as [-> ->]. simpl.
      destruct els; simpl; done.
Qed.

(** What the loop over the keyframes leaves when it does not throw: the
    markers found, keyframe markers apart, and the marker of the last
    keyframe. *)
Lemma forEach_keyframe_markers (els : list json) : forall ms,
  (forEach_keyframe ToNumber_other page els d ms).2 = false ->
  (forEach_keyframe ToNumber_other page els d ms).1
  = match last els with
    | None => ms
    | Some keyframe =>
        List.filter (other "keyframe"%string) ms
        ++ [marker "keyframe"%string (getProp keyframe "time")]
    end.
Proof.
  induction els as [|k els IH]; intros ms; simpl; [done|].
  destruct (is_null k) eqn:Ek; simpl; [done|].
  destruct (addTimelineMarker_loaded_spec "keyframe"%string
              (getProp k "time") ms) as [_ Hleft].
  destruct (addTimelineMarker_loaded ToNumber_other page "keyframe"
              (getProp k "time") d ms) as [ms1 thrown]; simpl in *.
  destruct thrown; [done|]. intros Hrest.
  rewrite (IH _ Hrest), (Hleft eq_refl).
  destruct els as [|k' els']; simpl; [done|].
  change (last (k :: k' :: els')) with (last (k' :: els')).
  destruct (last (k' :: els')) as [kl|] eqn:El; [|by apply last_None in El].
  by rewrite filter_other_added.
Qed.

End Loading.

Lemma forallb_filter {A : Type} (f p : A -> bool) (l : list A) :
  forallb f l = true -> forallb f (List.filter p l) = true.
Proof.
  induction l as [|a l IH]; simpl; [done|].
  intros [Ha Hl]%andb_prop. destruct (p a); simpl; [|by apply IH].
  rewrite Ha. by apply IH.
Qed.

Lemma filter_filter_comm {A : Type} (p q : A -> bool) (l : list A) :
  List.filter p (List.filter q l) = List.filter (fun a => q a && p a) l.
Proof.
  induction l as [|a l IH]; simpl; [done|].
  destruct (q a); simpl; [|done]. destruct (p a); simpl; by rewrite IH.
Qed.

(** X23. What a document that passes the validation leaves.  When
    [keyframes] is an array whose length is not below 2, the handler assigns
    the object built from the document to the global [animationData], and
    then alerts "Error loading animation file" unless every marker can be
    drawn ([drawable]): the page has the duration selector, the duration
    converts to a string, no keyframe is [null], the time of each keyframe
    and the out point convert to a number and, on a page with the timeline
    slider, are numbers, as are the times of the markers found, keyframe
    markers apart.  When every marker can be drawn there is no alert, the
    global [timelineMarkers] is the empty array, and
    [AnimationState.timelineMarkers] holds the markers found other than
    keyframe, in and out markers, followed by the marker of the last
    keyframe of the document, the in marker at 0 and the out marker. *)
Theorem loadAnimation_alerts_unless_drawable (ToNumber_other : json -> float)
    (page : Page) (timelineMarkers : list Marker.t) (doc : json)
    (els : list json) (w : World) :
  getProp doc "keyframes" = Some (JArr els) ->
  (float_of_nat (length els) <? 2) = false ->
  let inPoint := or_default (getProp doc "inPoint") (JNum 0) in
  let outPoint := or_default (getProp doc "outPoint") (JNum 10) in
  let duration' := or_default (getProp doc "duration") (JNum 10000) in
  let position time :=
    ToNumber ToNumber_other time / (duration (data w) / 1000) * 100 in
  let w' := loadAnimation ToNumber_other page timelineMarkers (Some doc) w in
  animationData w' = Some (mkLoaded inPoint outPoint (JArr els) duration')
  /\ alerts w'
     = (if drawable page timelineMarkers els outPoint duration'
        then alerts w else alerts w ++ [msg_load_error])
  /\ (drawable page timelineMarkers els outPoint duration' = true ->
      global_timelineMarkers w' = Some []
      /\ exists keyframe,
           last els = Some keyframe
           /\ loadAnimation_markers ToNumber_other page timelineMarkers
                (Some doc) w
              = List.filter
                  (fun m => negb (String.eqb (Marker.type m) "keyframe")
                            && negb (String.eqb (Marker.type m) "in")
                            && negb (String.eqb (Marker.type m) "out"))
                  timelineMarkers
                ++ [Marker.mk "keyframe" (getProp keyframe "time")
                      (position (getProp keyframe "time"));
                    Marker.mk "in" (Some (JNum 0)) (position (Some (JNum 0)));
                    Marker.mk "out" (Some outPoint)
                      (position (Some outPoint))]).
Proof.
  intros Hkfs Hlen inPoint outPoint duration' position w'.
  assert (Hne : els <> []) by (intros ->; vm_compute in Hlen; discriminate Hlen).
  assert (Hdoc : is_null doc = false) by (by destruct doc).
  assert (Hon : loadAnimation_onload ToNumber_other page timelineMarkers
                  (Some doc) w
                = let animationData :=
                    mkLoaded inPoint outPoint (JArr els) duration' in
                  let w := set_animationData animationData w in
                  if negb (durationSelect page)
                     || negb (convertible (l_duration animationData))
                  then (alert msg_load_error w, timelineMarkers)
                  else
                    let w := set_global_timelineMarkers [] w in
                    let '(timelineMarkers, thrown) :=
                      forEach_keyframe ToNumber_other page els (data w)
                        timelineMarkers in
                    if thrown then (alert msg_load_error w, timelineMarkers)
                    else
                    let '(timelineMarkers, thrown) :=
                      addTimelineMarker_loaded ToNumber_other page "in"
                        (Some (JNum 0)) (data w) timelineMarkers in
                    if thrown then (alert msg_load_error w, timelineMarkers)
                    else
                    let '(timelineMarkers, thrown) :=
                      addTimelineMarker_loaded ToNumber_other page "out"
                        (Some (l_outPoint animationData)) (data w)
                        timelineMarkers in
                    if thrown then (alert msg_load_error w, timelineMarkers)
                    else (w, timelineMarkers)).
  { unfold loadAnimation_onload.
    destruct doc as [| | | | |props]; try discriminate.
    rewrite Hkfs.
    change (truthy (Some (JArr els))) with true.
    change (getProp (JArr els) "length")
      with (Some (JNum (float_of_nat (length els)))).
    change (convertible_value (Some (JNum (float_of_nat (length els)))))
      with true.
    change (ToNumber ToNumber_other (Some (JNum (float_of_nat (length els)))))
      with (float_of_nat (length els)).
    rewrite Hlen. reflexivity. }
  subst w'. unfold loadAnimation, loadAnimation_markers. rewrite Hon.
  clear Hon Hdoc. cbv zeta. cbn [l_duration l_outPoint].
  change (data (set_global_timelineMarkers []
                  (set_animationData
                     (mkLoaded inPoint outPoint (JArr els) duration') w)))
    with (data w).
  unfold drawable.
  set (ok := forallb (fun keyframe =>
                        negb (is_null keyframe)
                        && convertible_value (getProp keyframe "time")) els).
  set (nums := forallb (fun keyframe => is_number (getProp keyframe "time"))
                 els).
  destruct (durationSelect page); [|done].
  destruct (convertible duration') eqn:Ed; [|done].
  cbn [negb orb andb].
  pose proof (forEach_keyframe_thrown ToNumber_other page (data w) els
                timelineMarkers) as Hthrown.
  pose proof (forEach_keyframe_markers ToNumber_other page (data w) els
                timelineMarkers) as Hleft.
  fold ok nums in Hthrown.
  assert (Hels : match els with
                 | [] => true
                 | _ => nums && numeric_but_keyframe timelineMarkers
                 end = nums && numeric_but_keyframe timelineMarkers)
    by (by destruct els).
  rewrite Hels in Hthrown. clear Hels.
  destruct (forEach_keyframe ToNumber_other page els (data w) timelineMarkers)
    as [ms1 thrown1]. cbn [fst snd] in Hthrown, Hleft. cbv beta iota.
  destruct thrown1.
  { (* the loop throws *)
    symmetry in Hthrown. apply negb_true_iff in Hthrown.
    assert (Hd : ok && convertible outPoint
                 && (negb (timeline page)
                     || nums && is_number (Some outPoint)
                        && numeric_but_keyframe timelineMarkers) = false).
    { destruct ok; [|done]. cbn [andb] in *.
      destruct (timeline page); [|done]. cbn [negb orb] in *.
      destruct nums; [|by rewrite andb_false_r]. cbn [andb] in *.
      rewrite Hthrown. by rewrite !andb_false_r. }
    rewrite Hd. split; [done|]. split; [done|]. done. }
  specialize (Hleft eq_refl).
  symmetry in Hthrown. apply negb_false_iff in Hthrown.
  apply andb_prop in Hthrown as [Hok Hdraw]. rewrite Hok. cbn [andb].
  destruct (last els) as [kl|] eqn:El; [|by apply last_None in El].
  assert (Hkl : timeline page = true -> is_number (getProp kl "time") = true).
  { intros Ht. rewrite Ht in Hdraw. cbn [negb orb] in Hdraw.
    apply andb_prop in Hdraw as [Hn _].
    unfold nums in Hn. rewrite forallb_forall in Hn.
    apply Hn. apply list_elem_of_In.
    rewrite last_lookup in El. by eapply list_elem_of_lookup_2. }
  assert (Hfound : timeline page = true ->
            forallb (fun m : Marker.t => is_number (Marker.time m))
              (List.filter
                 (fun m => negb (String.eqb (Marker.type m) "keyframe"))
                 timelineMarkers) = true).
  { intros Ht. rewrite Ht in Hdraw. cbn [negb orb] in Hdraw.
    apply andb_prop in Hdraw as [_ Hm].
    by rewrite numeric_but_keyframe_filter. }
  (* the in marker *)
  destruct (addTimelineMarker_loaded_spec ToNumber_other page (data w)
              "in"%string (Some (JNum 0)) ms1) as [Hin Hinleft].
  destruct (addTimelineMarker_loaded ToNumber_other page "in" (Some (JNum 0))
              (data w) ms1) as [ms2 thrown2].
  cbn [fst snd] in Hin, Hinleft. cbv beta iota.
  assert (Hin' : thrown2 = false).
  { rewrite Hin. apply negb_false_iff. cbn [convertible_value convertible andb].
    destruct (timeline page) eqn:Ht; [|done]. cbn [negb orb is_number].
    rewrite andb_true_r.
    rewrite Hleft, List.filter_app, forallb_app.
    apply andb_true_intro. split.
    - apply forallb_filter. by apply Hfound.
    - simpl. rewrite andb_true_r. by apply Hkl. }
  destruct thrown2; [discriminate Hin'|]. specialize (Hinleft eq_refl).
  (* the out marker *)
  destruct (addTimelineMarker_loaded_spec ToNumber_other page (data w)
              "out"%string (Some outPoint) ms2) as [Hout Houtleft].
  destruct (addTimelineMarker_loaded ToNumber_other page "out" (Some outPoint)
              (data w) ms2) as [ms3 thrown3].
  cbn [fst snd] in Hout, Houtleft. cbv beta iota.
  assert (Hout' : thrown3
                  = negb (convertible outPoint
                          && (negb (timeline page)
                              || (nums && is_number (Some outPoint)
                                  && numeric_but_keyframe timelineMarkers)))).
  { rewrite Hout. cbn [convertible_value]. f_equal. f_equal.
    destruct (timeline page) eqn:Ht; [|done]. cbn [negb orb] in *.
    apply andb_prop in Hdraw as [-> ->]. cbn [andb]. rewrite andb_true_r.
    replace (forallb (fun m : Marker.t => is_number (Marker.time m))
               (List.filter
                  (fun m : Marker.t => negb (String.eqb (Marker.type m) "out"))
                  ms2)) with true; [done|].
    symmetry.
    rewrite Hinleft, Hleft, !List.filter_app, !forallb_app.
    apply andb_true_intro. split; [apply andb_true_intro; split|done].
    - do 2 apply forallb_filter. by apply Hfound.
    - simpl. rewrite andb_true_r. by apply Hkl. }
  destruct thrown3.
  - symmetry in Hout'. apply negb_true_iff in Hout'. rewrite Hout'.
    split; [done|]. split; [done|]. done.
  - symmetry in Hout'. apply negb_false_iff in Hout'. rewrite Hout'.
    split; [done|]. split; [done|]. intros _. split; [done|].
    exists kl. split; [done|]. cbn [snd].
    rewrite (Houtleft eq_refl), Hinleft, Hleft.
    rewrite !List.filter_app, !filter_filter_comm. simpl.
    rewrite <- !app_assoc. simpl. f_equal.
    apply List.filter_ext. intros m.
    by destruct (String.eqb (Marker.type m) "keyframe"),
                (String.eqb (Marker.type m) "in"),
                (String.eqb (Marker.type m) "out").
Qed.

Lemma loadAnimation_alerts_unless_drawable_witness :
  getProp Sample.untimed_doc "keyframes"
  = Some (JArr [Sample.keyframe_doc JNull; Sample.keyframe_doc (JNum 1)])
  /\ (float_of_nat
        (length [Sample.keyframe_doc JNull; Sample.keyframe_doc (JNum 1)])
      <? 2) = false
  /\ drawable Sample.page []
       [Sample.keyframe_doc JNull; Sample.keyframe_doc (JNum 1)]
       (or_default (getProp Sample.untimed_doc "outPoint") (JNum 10))
       (or_default (getProp Sample.untimed_doc "duration") (JNum 10000))
     = false
  /\ alerts (loadAnimation (fun _ => nan) Sample.page []
               (Some Sample.untimed_doc) Sample.fresh)
     = (if drawable Sample.page []
             [Sample.keyframe_doc JNull; Sample.keyframe_doc (JNum 1)]
             (or_default (getProp Sample.untimed_doc "outPoint") (JNum 10))
             (or_default (getProp Sample.untimed_doc "duration") (JNum 10000))
        then alerts Sample.fresh
        else alerts Sample.fresh ++ [msg_load_error]).
Proof.
  split; [reflexivity|]. split; [reflexivity|]. split; [reflexivity|].
  exact (proj1 (proj2 (loadAnimation_alerts_unless_drawable (fun _ => nan)
                         Sample.page [] Sample.untimed_doc
                         [Sample.keyframe_doc JNull;
                          Sample.keyframe_doc (JNum 1)]
                         Sample.fresh eq_refl eq_refl))).
Defined.
